(** * voicenotes-to-actions: the batch transcription pipeline of [main.py]

    A shallow embedding of [main.py] and the properties of its on-disk state
    machine: the per-file transcript cache, the consolidated transcript, the
    gathering of the worker pool's results and the destructive finalizer.

    - Python [str] values are [string]s, the bytes of their UTF-8
      encoding, and so are file contents: a file holds what reading it
      returns.  A text written through [open(p, 'w')] is read back with its
      line ends translated ([universal_newlines]); the codec and the upload
      take and leave bytes as they are.  Encoding errors are below the
      model.  Paths are the strings the program builds with [os.path.join],
      [os.path.basename] and [str.replace].
    - The filesystem is an ordered association list from paths to nodes (the
      order is the order [os.listdir] reports), threaded through a state and
      exception monad together with a chronological trace of the effects.
    - The worker pool runs every task to completion in an order of its
      choosing, a parameter; results are gathered in the order of submission.
    - The codec, the transcription service and the completion service are
      parameters.  The two hosted services may answer differently on every
      call: they receive the trace of everything that happened before.  The
      transcription service raises, or it returns a transcript, whose text
      is missing when the job failed. *)

From Stdlib Require Import String Ascii List Bool Arith Lia DecimalString.
Import ListNotations.
Open Scope string_scope.

(* ================================================================= *)
(** ** Python strings and [os.path] (posix) *)

Module PyStr.

Definition nl : string := String "010"%char "".

Definition cr : string := String "013"%char "".

(** [s.startswith(pre)] *)
Fixpoint startswith (s pre : string) {struct pre} : bool :=
  match pre, s with
  | "", _ => true
  | String a pre', String b s' => Ascii.eqb a b && startswith s' pre'
  | String _ _, "" => false
  end.

(** [s.endswith(suf)]: [s] itself or one of its tails is [suf]. *)
Fixpoint endswith (s suf : string) : bool :=
  (s =? suf) ||
  match s with
  | "" => false
  | String _ r => endswith r suf
  end.

(** [s.replace(old, new)] for a non-empty [old]: the occurrences of [old]
    are found from the left and do not overlap; [skip] counts the characters
    of the occurrence just replaced that are still to be dropped. *)
Fixpoint replace_from (old new : string) (skip : nat) (s : string) : string :=
  match s with
  | "" => ""
  | String c r =>
      match skip with
      | S k => replace_from old new k r
      | O =>
          if startswith s old
          then new ++ replace_from old new (String.length old - 1) r
          else String c (replace_from old new 0 r)
      end
  end.

Definition replace (s old new : string) : string := replace_from old new 0 s.

(** [file_path.replace(".m4a", ".wav")] *)
Definition to_wav (s : string) : string := replace s ".m4a" ".wav".

(** [sub in s] *)
Fixpoint contains (s sub : string) : bool :=
  startswith s sub ||
  match s with
  | "" => false
  | String _ r => contains r sub
  end.

(** The white space characters of the ASCII range: the ones [str.strip()]
    removes that take one byte. *)
Definition isspace (c : ascii) : bool :=
  let n := nat_of_ascii c in
  (((9 <=? n) && (n <=? 13)) || ((28 <=? n) && (n <=? 32)))%nat.

Definition bytes (codes : list nat) : string :=
  fold_right (fun n s => String (ascii_of_nat n) s) "" codes.

(** The other characters [str.strip()] removes, in UTF-8: U+0085, U+00A0,
    U+1680, U+2000 to U+200A, U+2028, U+2029, U+202F, U+205F and U+3000. *)
Definition wide_spaces : list string :=
  map bytes
    [ [194; 133]; [194; 160]; [225; 154; 128];
      [226; 128; 128]; [226; 128; 129]; [226; 128; 130]; [226; 128; 131];
      [226; 128; 132]; [226; 128; 133]; [226; 128; 134]; [226; 128; 135];
      [226; 128; 136]; [226; 128; 137]; [226; 128; 138];
      [226; 128; 168]; [226; 128; 169]; [226; 128; 175];
      [226; 129; 159]; [227; 128; 128] ]%nat.

Fixpoint rev_string (s : string) : string :=
  match s with
  | "" => ""
  | String c r => rev_string r ++ String c ""
  end.

(** [file.read()] of a file opened with [open(p, 'r')]: the line ends
    [\r\n] and [\r] of what was written come back as [\n]. *)
Fixpoint universal_newlines (s : string) : string :=
  match s with
  | "" => ""
  | String c r =>
      if Ascii.eqb c "013"%char
      then match r with
           | String d r' =>
               if Ascii.eqb d "010"%char
               then String "010"%char (universal_newlines r')
               else String "010"%char (universal_newlines r)
           | "" => String "010"%char ""
           end
      else String c (universal_newlines r)
  end.

(** [sep.join(parts)] is [String.concat]. *)
Definition join_str (sep : string) (parts : list string) : string :=
  String.concat sep parts.

Definition is_slash (c : ascii) : bool := Ascii.eqb c "/"%char.

Fixpoint has_slash (s : string) : bool :=
  match s with
  | "" => false
  | String c r => is_slash c || has_slash r
  end.

(** [posixpath.split] before the head is stripped: the head up to and
    including the last slash, and the tail after it. *)
Fixpoint split_last (p : string) : string * string :=
  match p with
  | "" => ("", "")
  | String c r =>
      match split_last r with
      | ("", t) => if is_slash c then (String c "", t) else ("", String c t)
      | (h, t) => (String c h, t)
      end
  end.

Fixpoint rstrip_slash (s : string) : string :=
  match s with
  | "" => ""
  | String c r =>
      match rstrip_slash r with
      | "" => if is_slash c then "" else String c ""
      | r' => String c r'
      end
  end.

(** [os.path.basename(p)] *)
Definition basename (p : string) : string := snd (split_last p).

(** [os.path.dirname(p)]: the head without its trailing slashes, unless it
    consists of slashes only. *)
Definition dirname (p : string) : string :=
  let h := fst (split_last p) in
  match rstrip_slash h with
  | "" => h
  | h' => h'
  end.

(** What [os.path.join(d, n)] puts in front of a relative [n]. *)
Definition dir_prefix (d : string) : string :=
  if (d =? "") || endswith d "/" then d else d ++ "/".

(** [os.path.join(d, n)] *)
Definition join (d n : string) : string :=
  if startswith n "/" then n else dir_prefix d ++ n.

(** A directory name [os.path.join] extends with a separator. *)
Definition clean (d : string) : bool := negb (d =? "") && negb (endswith d "/").

(** [strip_prefix pre s] is [Some r] when [s = pre ++ r]. *)
Fixpoint strip_prefix (pre s : string) {struct pre} : option string :=
  match pre, s with
  | "", _ => Some s
  | String a pre', String b s' =>
      if Ascii.eqb a b then strip_prefix pre' s' else None
  | String _ _, "" => None
  end.

(** What is left of [s] without the first of [seqs] it starts with. *)
Fixpoint drop_prefix_of (seqs : list string) (s : string) : option string :=
  match seqs with
  | [] => None
  | q :: rest =>
      match strip_prefix q s with
      | Some r => Some r
      | None => drop_prefix_of rest s
      end
  end.

(** What is left of [s] without the white space character it starts
    with; [wide] are the ones of more than a byte. *)
Definition after_space (wide : list string) (s : string) : option string :=
  match s with
  | "" => None
  | String c r => if isspace c then Some r else drop_prefix_of wide s
  end.

(** [s] without the white space it starts with; [fuel] bounds the number
    of characters removed. *)
Fixpoint drop_spaces (wide : list string) (fuel : nat) (s : string) : string :=
  match fuel with
  | O => s
  | S k =>
      match after_space wide s with
      | Some r => drop_spaces wide k r
      | None => s
      end
  end.

(** [s.lstrip()], [s.rstrip()] and [s.strip()] *)
Definition lstrip (s : string) : string :=
  drop_spaces wide_spaces (String.length s) s.

Definition rstrip (s : string) : string :=
  rev_string
    (drop_spaces (map rev_string wide_spaces) (String.length s) (rev_string s)).

Definition strip (s : string) : string := lstrip (rstrip s).

(** [s] starts, or ends, with a character [str.strip()] removes. *)
Definition starts_with_space (s : string) : bool :=
  match after_space wide_spaces s with
  | Some _ => true
  | None => false
  end.

Definition ends_with_space (s : string) : bool :=
  match after_space (map rev_string wide_spaces) (rev_string s) with
  | Some _ => true
  | None => false
  end.

(** [s] holds a carriage return. *)
Fixpoint has_cr (s : string) : bool :=
  match s with
  | "" => false
  | String c r => Ascii.eqb c "013"%char || has_cr r
  end.

(** The name under which the entry at path [k] is listed in directory [d],
    if [k] is directly inside [d]. *)
Definition child_name (d k : string) : option string :=
  match strip_prefix (dir_prefix d) k with
  | Some n => if (n =? "") || has_slash n then None else Some n
  | None => None
  end.

(** The entry at path [p] lies inside a subdirectory of directory [d]. *)
Definition below (d p : string) : bool :=
  match strip_prefix (dir_prefix d) p with
  | Some r => has_slash r
  | None => false
  end.

End PyStr.

Import PyStr.

(* ================================================================= *)
(** ** The filesystem *)

Inductive node : Type :=
| File (content : string)
| Dir.

(** Paths in the order [os.listdir] reports them.  The working directory is
    the entry with the empty path. *)
Definition filesystem : Type := list (string * node).

Module FS.

Fixpoint lookup (p : string) (fs : filesystem) : option node :=
  match fs with
  | [] => None
  | (k, n) :: r => if k =? p then Some n else lookup p r
  end.

(** Overwrite the entry at [p] in place, or add it at the end. *)
Fixpoint store (p : string) (n : node) (fs : filesystem) : filesystem :=
  match fs with
  | [] => [(p, n)]
  | (k, x) :: r => if k =? p then (k, n) :: r else (k, x) :: store p n r
  end.

Fixpoint delete (p : string) (fs : filesystem) : filesystem :=
  match fs with
  | [] => []
  | (k, x) :: r => if k =? p then delete p r else (k, x) :: delete p r
  end.

(** The names directly inside directory [d]. *)
Fixpoint children (d : string) (fs : filesystem) : list string :=
  match fs with
  | [] => []
  | (k, _) :: r =>
      match child_name d k with
      | Some n => n :: children d r
      | None => children d r
      end
  end.

Definition is_file (p : string) (fs : filesystem) : bool :=
  match lookup p fs with
  | Some (File _) => true
  | _ => false
  end.

Definition is_dir (p : string) (fs : filesystem) : bool :=
  match lookup p fs with
  | Some Dir => true
  | _ => false
  end.

End FS.

(* ================================================================= *)
(** ** Effects: a world, a trace, exceptions *)

Inductive event : Type :=
| EvSubmit (file_path : string)        (* executor.submit(process_file, file_path) *)
| EvConvert (file_path : string)       (* the Format Normalizer is invoked *)
| EvTranscribe (file_path : string)    (* the Transcription Client is invoked *)
| EvSummarize (transcriptions : string)(* the Summarizer is invoked *)
| EvWrite (path text : string)         (* a file is created or overwritten *)
| EvMove (src dst : string)            (* a file is renamed *)
| EvRemove (path : string).            (* a file is deleted *)

Inductive error : Type :=
| FileNotFoundError
| IsADirectoryError
| NotADirectoryError
| DestinationExists        (* shutil.Error *)
| DecodeError
| TranscriptionError
| TypeError                (* file.write(None) *)
| SummaryError
| NotDone                  (* the result of a future that never ran *)
| DirectoryMove.           (* shutil.move of a directory: not modelled *)

Inductive result (A : Type) : Type :=
| Ok (a : A)
| Raise (e : error).
Arguments Ok {A} a.
Arguments Raise {A} e.

Record world : Type := mkWorld {
  disk : filesystem;
  trace : list event
}.

(** A computation changes the world and returns or raises; what it did
    before raising stays done. *)
Definition M (A : Type) : Type := world -> result A * world.

Definition ret {A} (a : A) : M A := fun w => (Ok a, w).

Definition raise {A} (e : error) : M A := fun w => (Raise e, w).

Definition bind {A B} (c : M A) (k : A -> M B) : M B :=
  fun w =>
    match c w with
    | (Ok a, w') => k a w'
    | (Raise e, w') => (Raise e, w')
    end.

Notation "x <- c1 ;; c2" := (bind c1 (fun x => c2))
  (at level 61, c1 at next level, right associativity).
Notation "c1 ;; c2" := (bind c1 (fun _ => c2))
  (at level 61, right associativity).

Definition emit (e : event) : M unit :=
  fun w => (Ok tt, mkWorld (disk w) (trace w ++ [e])%list).

Definition set_disk (fs : filesystem) : M unit :=
  fun w => (Ok tt, mkWorld fs (trace w)).

(** [for x in xs: body(x)] *)
Fixpoint for_each {A} (xs : list A) (body : A -> M unit) : M unit :=
  match xs with
  | [] => ret tt
  | x :: r => body x ;; for_each r body
  end.

(** [os.path.exists(p)] *)
Definition path_exists (p : string) : M bool :=
  fun w => (Ok (match FS.lookup p (disk w) with Some _ => true | None => false end), w).

(** [os.path.isfile(p)] *)
Definition path_isfile (p : string) : M bool :=
  fun w => (Ok (FS.is_file p (disk w)), w).

(** [open(p, 'r').read()], and the reading of a file by the codec or for
    the upload: the content of the file. *)
Definition read_text (p : string) : M string :=
  fun w =>
    match FS.lookup p (disk w) with
    | Some (File text) => (Ok text, w)
    | Some Dir => (Raise IsADirectoryError, w)
    | None => (Raise FileNotFoundError, w)
    end.

(** Creating an entry needs its parent directory. *)
Definition check_parent (p : string) : M unit :=
  fun w =>
    match FS.lookup (dirname p) (disk w) with
    | Some Dir => (Ok tt, w)
    | Some (File _) => (Raise NotADirectoryError, w)
    | None => (Raise FileNotFoundError, w)
    end.

(** A binary write, as [audio.export(p, format="wav")] does: the file
    holds the bytes written. *)
Definition write_bytes (p data : string) : M unit :=
  check_parent p ;;
  fun w =>
    match FS.lookup p (disk w) with
    | Some Dir => (Raise IsADirectoryError, w)
    | _ => (set_disk (FS.store p (File data) (disk w)) ;; emit (EvWrite p data)) w
    end.

(** [with open(p, 'w') as f: f.write(text)]: what the file then holds is
    the text as it will be read, with its line ends translated. *)
Definition write_text (p text : string) : M unit :=
  check_parent p ;;
  fun w =>
    match FS.lookup p (disk w) with
    | Some Dir => (Raise IsADirectoryError, w)
    | _ =>
        (set_disk (FS.store p (File (universal_newlines text)) (disk w)) ;;
         emit (EvWrite p text)) w
    end.

(** [os.remove(p)] *)
Definition remove (p : string) : M unit :=
  fun w =>
    match FS.lookup p (disk w) with
    | Some (File _) => (set_disk (FS.delete p (disk w)) ;; emit (EvRemove p)) w
    | Some Dir => (Raise IsADirectoryError, w)
    | None => (Raise FileNotFoundError, w)
    end.

(** [os.listdir(d)] *)
Definition listdir (d : string) : M (list string) :=
  fun w =>
    match FS.lookup d (disk w) with
    | Some Dir => (Ok (FS.children d (disk w)), w)
    | Some (File _) => (Raise NotADirectoryError, w)
    | None => (Raise FileNotFoundError, w)
    end.

(** Where [shutil.move(src, dst)] puts the file: into [dst] when [dst] is a
    directory, onto [dst] otherwise. *)
Definition move_target (src dst : string) (fs : filesystem) : string :=
  if FS.is_dir dst fs then join dst (basename src) else dst.

(** [shutil.move(src, dst)] of a regular file; it refuses to overwrite
    inside a directory [dst].  [main] only moves the consolidated
    transcript, a regular file where it is moved
    ([main_moves_a_regular_file]), so the move of a directory, which would
    take its content along, is left out and raises [DirectoryMove]. *)
Definition move (src dst : string) : M unit :=
  fun w =>
    let fs := disk w in
    let real_dst := move_target src dst fs in
    match FS.is_dir dst fs, FS.lookup real_dst fs with
    | true, Some _ => (Raise DestinationExists, w)
    | _, _ =>
        match FS.lookup src fs with
        | None => (Raise FileNotFoundError, w)
        | Some Dir => (Raise DirectoryMove, w)
        | Some (File text) =>
            if src =? real_dst then emit (EvMove src real_dst) w
            else
              (check_parent real_dst ;;
               set_disk (FS.store real_dst (File text) (FS.delete src fs)) ;;
               emit (EvMove src real_dst)) w
        end
    end.

(* ================================================================= *)
(** ** The program *)

(** The three directories read from the environment when the module is
    loaded, and the timestamp taken then. *)
Record config : Type := mkConfig {
  incoming_bucket : string;
  intermediate_transcripts : string;
  output_folder : string;
  datetime_prefix : string
}.

(** [os.getenv(key, default)] on the environment [env], which is the one
    of the process after [load_dotenv()] added the bindings of the [.env]
    file. *)
Fixpoint getenv (env : list (string * string)) (key default : string) : string :=
  match env with
  | [] => default
  | (k, v) :: rest => if k =? key then v else getenv rest key default
  end.

(** The fields of [datetime.now()] the timestamp is made of. *)
Record datetime : Type := mkDatetime {
  year : nat;
  month : nat;
  day : nat;
  hour : nat;
  minute : nat
}.

Definition decimal (n : nat) : string :=
  NilEmpty.string_of_uint (Nat.to_uint n).

(** [%m], [%d], [%H] and [%M]: two digits. *)
Definition two_digits (n : nat) : string :=
  if (n <? 10)%nat then "0" ++ decimal n else decimal n.

(** [now.strftime("%Y-%m-%d-%H-%M")], for a year of four digits. *)
Definition strftime (now : datetime) : string :=
  decimal (year now) ++ "-" ++ two_digits (month now) ++ "-" ++
  two_digits (day now) ++ "-" ++ two_digits (hour now) ++ "-" ++
  two_digits (minute now).

(** Lines 19-21 and 29: the configuration read when the module is loaded. *)
Definition load_config (env : list (string * string)) (now : datetime) : config :=
  mkConfig (getenv env "INCOMING_BUCKET" "./incoming_audio")
           (getenv env "INTERMEDIATE_TRANSCRIPTS" "./intermediate_transcripts")
           (getenv env "OUTPUT_FOLDER" "./output")
           (strftime now).

(** The environment does not set [key]. *)
Definition unset (env : list (string * string)) (key : string) : bool :=
  negb (existsb (fun kv => fst kv =? key) env).

(** What [transcriber.transcribe] returns: [transcription.text] is the
    text, or [None] when the job ended in an error. *)
Record transcript : Type := mkTranscript {
  transcript_text : option string
}.

(** The collaborators: the codec behind [AudioSegment], the hosted
    transcription service and the hosted completion service.  [None] is a
    failure: the call raises.  The hosted services see the trace so far. *)
Record services : Type := mkServices {
  decode_m4a : string -> option string;
  transcription_service : list event -> string -> option transcript;
  completion_service : list event -> string -> option string
}.

(** The configurations the properties of a whole run are stated for: the
    three directories are given without a trailing separator, they are
    three different directories, the incoming bucket and the cache
    directory do not lie inside one another, the path of the incoming
    bucket does not itself contain [.m4a], and the timestamp is a file
    name. *)
Definition config_ok (cfg : config) : bool :=
  clean (incoming_bucket cfg) && clean (intermediate_transcripts cfg) &&
  clean (output_folder cfg) &&
  negb (incoming_bucket cfg =? intermediate_transcripts cfg) &&
  negb (incoming_bucket cfg =? output_folder cfg) &&
  negb (intermediate_transcripts cfg =? output_folder cfg) &&
  negb (startswith (intermediate_transcripts cfg) (incoming_bucket cfg ++ "/")) &&
  negb (startswith (incoming_bucket cfg) (intermediate_transcripts cfg ++ "/")) &&
  negb (contains (incoming_bucket cfg) ".m4a") &&
  negb (has_slash (datetime_prefix cfg)).

(** What the two documents of a run need of the configuration: the three
    directories are given without a trailing separator, the output folder
    is neither the incoming bucket nor the cache directory, the path of the
    incoming bucket does not itself contain [.m4a], and the timestamp is a
    file name.  The incoming bucket and the cache directory may lie inside
    one another. *)
Definition output_apart (cfg : config) : bool :=
  clean (incoming_bucket cfg) && clean (intermediate_transcripts cfg) &&
  clean (output_folder cfg) &&
  negb (incoming_bucket cfg =? output_folder cfg) &&
  negb (intermediate_transcripts cfg =? output_folder cfg) &&
  negb (contains (incoming_bucket cfg) ".m4a") &&
  negb (has_slash (datetime_prefix cfg)).

(** The order in which the worker pool completes [n] submitted tasks. *)
Definition schedule : Type := nat -> list nat.

Definition default_config : config :=
  mkConfig "./incoming_audio" "./intermediate_transcripts" "./output" "2024-01-31-09-30".

(** [if transcription:] *)
Definition nonempty (transcription : string) : bool := negb (transcription =? "").

(** The schedule lets every one of [n] tasks run. *)
Definition fair (sched : schedule) : Prop :=
  forall n i, i < n -> In i (sched n).

(** The state of a future: not run yet, or its task's result. *)
Definition outcome : Type := option (result string).

Fixpoint set_nth {A} (i : nat) (x : A) (l : list A) : list A :=
  match l, i with
  | [], _ => []
  | _ :: r, O => x :: r
  | y :: r, S j => y :: set_nth j x r
  end.

(** The pool runs the pending task it picks next to completion and keeps
    its result, or its exception, in the task's future.  The file operations
    of one task are not interleaved with those of another. *)
Fixpoint run_pool (order : list nat) (tasks : list (M string))
    (futures : list outcome) (w : world) : list outcome * world :=
  match order with
  | [] => (futures, w)
  | i :: rest =>
      match nth_error tasks i, nth_error futures i with
      | Some task, Some None =>
          let (r, w') := task w in
          run_pool rest tasks (set_nth i (Some r) futures) w'
      | _, _ => run_pool rest tasks futures w
      end
  end.

(** [for future in futures: transcription = future.result(); ...] *)
Fixpoint gather (futures : list outcome) (transcription_texts : list string)
  : result (list string) :=
  match futures with
  | [] => Ok transcription_texts
  | Some (Ok transcription) :: rest =>
      gather rest
        (if transcription =? "" then transcription_texts
         else (transcription_texts ++ [transcription])%list)
  | Some (Raise e) :: _ => Raise e
  | None :: _ => Raise NotDone
  end.

Section Program.

Variable cfg : config.
Variable svc : services.

Definition consolidated_transcript_file : string :=
  join (intermediate_transcripts cfg) "total_transcript.md".

Definition transcript_file : string :=
  join (output_folder cfg) (datetime_prefix cfg ++ "-transcripts.md").

Definition summary_action_file : string :=
  join (output_folder cfg) (datetime_prefix cfg ++ "-summary_action.md").

(** [os.path.join(intermediate_transcripts, os.path.basename(file_path) + ".txt")] *)
Definition transcript_path (file_path : string) : string :=
  join (intermediate_transcripts cfg) (basename file_path ++ ".txt").

Definition convert_m4a_to_wav (file_path : string) : M string :=
  emit (EvConvert file_path) ;;
  source <- read_text file_path ;;
  match decode_m4a svc source with
  | None => raise DecodeError
  | Some audio =>
      let wav_path := to_wav file_path in
      write_bytes wav_path audio ;;
      ret wav_path
  end.

(** [transcriber.transcribe(file_path)] *)
Definition transcribe (file_path : string) : M transcript :=
  emit (EvTranscribe file_path) ;;
  audio <- read_text file_path ;;
  fun w =>
    match transcription_service svc (trace w) audio with
    | Some transcription => (Ok transcription, w)
    | None => (Raise TranscriptionError, w)
    end.

(** In [with open(transcript_path, 'w') as f: f.write(transcription.text)]
    the file is created, or emptied, when it is opened; with a text of
    [None] the write then raises [TypeError] and the entry stays, empty. *)
Definition transcribe_audio (file_path : string) : M string :=
  let transcript_path := transcript_path file_path in
  cached <- path_exists transcript_path ;;
  if cached then read_text transcript_path
  else
    transcription <- transcribe file_path ;;
    match transcript_text transcription with
    | Some text =>
        write_text transcript_path text ;;
        ret text
    | None =>
        write_text transcript_path "" ;;
        raise TypeError
    end.

Definition prompt_of (transcriptions : string) : string :=
  nl ++ "    Here is a set of transcriptions from various voice notes. Please provide a summary of the key points, and list actionable items."
     ++ nl ++ "    " ++ nl ++ "    Transcriptions:" ++ nl ++ "    "
     ++ transcriptions ++ nl ++ "    ".

Definition generate_summary_and_action (transcriptions : string) : M string :=
  emit (EvSummarize transcriptions) ;;
  fun w =>
    match completion_service svc (trace w) (prompt_of transcriptions) with
    | Some content => (Ok (strip content), w)
    | None => (Raise SummaryError, w)
    end.

Definition process_file (file_path : string) : M string :=
  let transcript_path := transcript_path file_path in
  cached <- path_exists transcript_path ;;
  if cached then read_text transcript_path
  else
    wav_path <- convert_m4a_to_wav file_path ;;
    transcription <- transcribe_audio wav_path ;;
    remove wav_path ;;
    ret transcription.

(** The files [main] submits: the [.m4a] names of the incoming bucket, in
    the order of the listing. *)
Definition eligible (names : list string) : list string :=
  map (join (incoming_bucket cfg))
      (filter (fun filename => endswith filename ".m4a") names).

(** Lines 103-118 of [main]: submit one task per eligible file, let the pool
    run them, collect the results in the order of submission, join them. *)
Definition transcribe_all (sched : schedule) : M string :=
  names <- listdir (incoming_bucket cfg) ;;
  let file_paths := eligible names in
  for_each file_paths (fun file_path => emit (EvSubmit file_path)) ;;
  fun w =>
    let tasks := map process_file file_paths in
    let (futures, w') :=
      run_pool (sched (List.length tasks)) tasks (repeat None (List.length tasks)) w in
    match gather futures [] with
    | Ok transcription_texts => (Ok (join_str (nl ++ nl) transcription_texts), w')
    | Raise e => (Raise e, w')
    end.

(** The files submitted from [w], and the world once they are submitted. *)
Definition submitted (w : world) : list string :=
  eligible (FS.children (incoming_bucket cfg) (disk w)).

Definition after_submit (w : world) : world :=
  mkWorld (disk w) (trace w ++ map EvSubmit (submitted w)).

(** The futures once the pool is done with the tasks submitted from [w],
    in the order of submission. *)
Definition futures_of (sched : schedule) (w : world) : list outcome :=
  let tasks := map process_file (submitted w) in
  fst (run_pool (sched (List.length tasks)) tasks
         (repeat None (List.length tasks)) (after_submit w)).

(** Lines 96-122 of [main]: the consolidated transcript, from its file if
    that exists, transcribed and written there otherwise. *)
Definition combined_transcription (sched : schedule) : M string :=
  present <- path_exists consolidated_transcript_file ;;
  if present then read_text consolidated_transcript_file
  else
    combined <- transcribe_all sched ;;
    write_text consolidated_transcript_file combined ;;
    ret combined.

(** What the consolidated transcript holds once [combined_transcription]
    returned [combined] from [w]: the text found there, or the text written,
    as it will be read. *)
Definition consolidated_text (w : world) (combined : string) : string :=
  match FS.lookup consolidated_transcript_file (disk w) with
  | Some _ => combined
  | None => universal_newlines combined
  end.

(** The two artifacts named after this run's timestamp do not exist yet. *)
Definition fresh (w : world) : Prop :=
  FS.lookup transcript_file (disk w) = None /\
  FS.lookup summary_action_file (disk w) = None.

(** Lines 135-138 and 141-144 of [main]. *)
Definition clear_directory (d : string) : M unit :=
  names <- listdir d ;;
  for_each names (fun filename =>
    let file_path := join d filename in
    regular <- path_isfile file_path ;;
    if regular then remove file_path else ret tt).

(** Lines 127-144 of [main]. *)
Definition finalize (summary_and_action : string) : M unit :=
  write_text summary_action_file summary_and_action ;;
  move consolidated_transcript_file transcript_file ;;
  clear_directory (incoming_bucket cfg) ;;
  clear_directory (intermediate_transcripts cfg).

Definition main (sched : schedule) : M unit :=
  combined <- combined_transcription sched ;;
  summary_and_action <- generate_summary_and_action combined ;;
  finalize summary_and_action.

End Program.

(* ================================================================= *)
(** ** What the pipeline tasks may change *)

Definition same_dirs (fs fs' : filesystem) : Prop :=
  forall p, FS.lookup p fs = Some Dir <-> FS.lookup p fs' = Some Dir.

(** The [.m4a] names of a directory, as [main] enumerates them. *)
Definition m4a_names (d : string) (fs : filesystem) : list string :=
  filter (fun filename => endswith filename ".m4a") (FS.children d fs).

Section Footprint.

Variable cfg : config.

(** The normalized audio of one of the files. *)
Definition is_wav_of (file_paths : list string) (p : string) : Prop :=
  exists f, In f file_paths /\ p = to_wav f.

(** The cache entry written for one of the files. *)
Definition is_entry_of (file_paths : list string) (p : string) : Prop :=
  exists f, In f file_paths /\ p = transcript_path cfg (to_wav f).

(** The events of the tasks for [file_paths]. *)
Definition task_event (file_paths : list string) (e : event) : Prop :=
  match e with
  | EvSubmit f | EvConvert f => In f file_paths
  | EvTranscribe p | EvRemove p => is_wav_of file_paths p
  | EvWrite p _ => is_wav_of file_paths p \/ is_entry_of file_paths p
  | EvSummarize _ | EvMove _ _ => False
  end.

(** How the world may differ after tasks for [file_paths] ran: directories
    stay, only normalized audio and cache entries of these files are
    touched, an entry that exists and is not a [.wav] stays as it is, and
    the enumeration of [.m4a] names is the same. *)
Record task_step (file_paths : list string) (w w' : world) : Prop := {
  step_dirs : same_dirs (disk w) (disk w');
  step_frame : forall p,
    ~ is_wav_of file_paths p -> ~ is_entry_of file_paths p ->
    FS.lookup p (disk w') = FS.lookup p (disk w);
  step_keeps : forall p n,
    endswith p ".wav" = false ->
    FS.lookup p (disk w) = Some n -> FS.lookup p (disk w') = Some n;
  step_listing : forall d, m4a_names d (disk w') = m4a_names d (disk w);
  step_trace : exists evs,
    trace w' = (trace w ++ evs)%list /\ Forall (task_event file_paths) evs
}.

End Footprint.

(* ================================================================= *)
(** ** The runs of one pipeline task *)

Section Runs.

Variable cfg : config.
Variable svc : services.

(** The Format Normalizer can convert [file_path] in [fs]: the input is a
    regular file the codec decodes to [audio], and the normalized audio can
    be created. *)
Definition convertible (file_path : string) (fs : filesystem) (audio : string) : Prop :=
  exists source,
    FS.lookup file_path fs = Some (File source) /\
    decode_m4a svc source = Some audio /\
    FS.lookup (dirname (to_wav file_path)) fs = Some Dir /\
    FS.lookup (to_wav file_path) fs <> Some Dir.

(** The cache holds [text] for [file_path]: under the key [process_file]
    looks for, or under the key of its normalized audio, which it reaches by
    converting the file again. *)
Definition cached_as (file_path text : string) (fs : filesystem) : Prop :=
  FS.lookup (transcript_path cfg file_path) fs = Some (File text) \/
  (FS.lookup (transcript_path cfg file_path) fs = None /\
   (exists audio, convertible file_path fs audio) /\
   FS.lookup (transcript_path cfg (to_wav file_path)) fs = Some (File text)).

(** Every way [process_file file_path] can run from [w]: its result and the
    world it leaves. *)
Inductive process_file_run (file_path : string) (w : world)
  : result string -> world -> Prop :=
| run_cached (text : string) :
    FS.lookup (transcript_path cfg file_path) (disk w) = Some (File text) ->
    process_file_run file_path w (Ok text) w
| run_cached_dir :
    FS.lookup (transcript_path cfg file_path) (disk w) = Some Dir ->
    process_file_run file_path w (Raise IsADirectoryError) w
| run_convert_failed (e : error) :
    FS.lookup (transcript_path cfg file_path) (disk w) = None ->
    process_file_run file_path w (Raise e)
      (mkWorld (disk w) (trace w ++ [EvConvert file_path]))
| run_entry_found (audio text : string) :
    let wav_path := to_wav file_path in
    let fs := FS.store wav_path (File audio) (disk w) in
    FS.lookup (transcript_path cfg file_path) (disk w) = None ->
    convertible file_path (disk w) audio ->
    FS.lookup (transcript_path cfg wav_path) fs = Some (File text) ->
    process_file_run file_path w (Ok text)
      (mkWorld (FS.delete wav_path fs)
         (trace w ++ [EvConvert file_path; EvWrite wav_path audio;
                      EvRemove wav_path]))
| run_entry_dir (audio : string) :
    let wav_path := to_wav file_path in
    let fs := FS.store wav_path (File audio) (disk w) in
    FS.lookup (transcript_path cfg file_path) (disk w) = None ->
    convertible file_path (disk w) audio ->
    FS.lookup (transcript_path cfg wav_path) fs = Some Dir ->
    process_file_run file_path w (Raise IsADirectoryError)
      (mkWorld fs (trace w ++ [EvConvert file_path; EvWrite wav_path audio]))
| run_transcription_failed (audio : string) (e : error) :
    let wav_path := to_wav file_path in
    let fs := FS.store wav_path (File audio) (disk w) in
    FS.lookup (transcript_path cfg file_path) (disk w) = None ->
    convertible file_path (disk w) audio ->
    FS.lookup (transcript_path cfg wav_path) fs = None ->
    process_file_run file_path w (Raise e)
      (mkWorld fs
         (trace w ++ [EvConvert file_path; EvWrite wav_path audio;
                      EvTranscribe wav_path]))
| run_without_text (audio : string) :
    let wav_path := to_wav file_path in
    let fs := FS.store wav_path (File audio) (disk w) in
    let entry := transcript_path cfg wav_path in
    let before := (trace w ++ [EvConvert file_path; EvWrite wav_path audio;
                               EvTranscribe wav_path])%list in
    FS.lookup (transcript_path cfg file_path) (disk w) = None ->
    convertible file_path (disk w) audio ->
    FS.lookup entry fs = None ->
    transcription_service svc before audio = Some (mkTranscript None) ->
    FS.lookup (dirname entry) fs = Some Dir ->
    process_file_run file_path w (Raise TypeError)
      (mkWorld (FS.store entry (File "") fs) (before ++ [EvWrite entry ""]))
| run_transcribed (audio text : string) :
    let wav_path := to_wav file_path in
    let fs := FS.store wav_path (File audio) (disk w) in
    let entry := transcript_path cfg wav_path in
    let before := (trace w ++ [EvConvert file_path; EvWrite wav_path audio;
                               EvTranscribe wav_path])%list in
    FS.lookup (transcript_path cfg file_path) (disk w) = None ->
    convertible file_path (disk w) audio ->
    FS.lookup entry fs = None ->
    transcription_service svc before audio = Some (mkTranscript (Some text)) ->
    FS.lookup (dirname entry) fs = Some Dir ->
    process_file_run file_path w (Ok text)
      (mkWorld
         (FS.delete wav_path (FS.store entry (File (universal_newlines text)) fs))
         (before ++ [EvWrite entry text; EvRemove wav_path])).

End Runs.

(* ================================================================= *)
(** ** The runs of the finalizer *)

Definition is_transcription (e : event) : bool :=
  match e with
  | EvTranscribe _ => true
  | _ => false
  end.

(** A request to the completion service. *)
Definition is_summary_request (e : event) : bool :=
  match e with
  | EvSummarize _ => true
  | _ => false
  end.


(** The events of the Batch Scheduler and of its tasks' collaborators. *)
Definition pipeline_event (e : event) : Prop :=
  match e with
  | EvSubmit _ | EvConvert _ | EvTranscribe _ => True
  | _ => False
  end.

Section FinalizerRuns.

Variable cfg : config.

Definition summary_written (summary : string) (v : world) : world :=
  mkWorld
    (FS.store (summary_action_file cfg) (File (universal_newlines summary)) (disk v))
    (trace v ++ [EvWrite (summary_action_file cfg) summary]).

Definition writable (p : string) (fs : filesystem) : Prop :=
  FS.lookup (dirname p) fs = Some Dir /\ FS.lookup p fs <> Some Dir.

(** [v2] is [v] after [shutil.move] of the consolidated transcript, whose
    content is [text]. *)
Definition moved (text : string) (v v2 : world) : Prop :=
  let src := consolidated_transcript_file cfg in
  let real_dst := move_target src (transcript_file cfg) (disk v) in
  FS.lookup src (disk v) = Some (File text) /\
  FS.lookup real_dst (disk v) <> Some Dir /\
  ((src = real_dst /\
    v2 = mkWorld (disk v) (trace v ++ [EvMove src real_dst])) \/
   (src <> real_dst /\
    v2 = mkWorld (FS.store real_dst (File text) (FS.delete src (disk v)))
           (trace v ++ [EvMove src real_dst]))).

Definition cleared (removed : list string) (v : world) : world :=
  mkWorld (fold_left (fun fs p => FS.delete p fs) removed (disk v))
    (trace v ++ map EvRemove removed).

(** [removed] are the regular files directly inside directory [d] of [v]. *)
Definition clears (d : string) (v : world) (removed : list string) : Prop :=
  FS.lookup d (disk v) = Some Dir /\
  (forall p, In p removed ->
             exists n, child_name d p = Some n /\ FS.is_file p (disk v) = true) /\
  (forall p n, child_name d p = Some n -> FS.is_file p (disk v) = true ->
               In p removed).

(** Every way [finalize summary] can run from [v]. *)
Inductive finalize_run (summary : string) (v : world)
  : result unit -> world -> Prop :=
| fin_write_failed (e : error) :
    finalize_run summary v (Raise e) v
| fin_move_failed (e : error) :
    writable (summary_action_file cfg) (disk v) ->
    finalize_run summary v (Raise e) (summary_written summary v)
| fin_incoming_failed (e : error) (text : string) (v2 : world) :
    writable (summary_action_file cfg) (disk v) ->
    moved text (summary_written summary v) v2 ->
    finalize_run summary v (Raise e) v2
| fin_cache_failed (e : error) (text : string) (v2 : world) (ins : list string) :
    writable (summary_action_file cfg) (disk v) ->
    moved text (summary_written summary v) v2 ->
    clears (incoming_bucket cfg) v2 ins ->
    finalize_run summary v (Raise e) (cleared ins v2)
| fin_done (text : string) (v2 : world) (ins caches : list string) :
    writable (summary_action_file cfg) (disk v) ->
    moved text (summary_written summary v) v2 ->
    clears (incoming_bucket cfg) v2 ins ->
    clears (intermediate_transcripts cfg) (cleared ins v2) caches ->
    finalize_run summary v (Ok tt) (cleared caches (cleared ins v2)).

End FinalizerRuns.

(* ================================================================= *)
(** ** A configuration, collaborators and worlds to run the program on *)

Definition demo_services : services :=
  mkServices
    (fun source =>
       if startswith source "corrupt" then None else Some ("wav(" ++ source ++ ")"))
    (fun _ audio =>
       if startswith audio "wav(noise" then None
       else if startswith audio "wav(garbled" then Some (mkTranscript None)
       else if audio =? "wav(silence)" then Some (mkTranscript (Some ""))
       else if audio =? "wav(dictation)"
            then Some (mkTranscript (Some ("line one" ++ cr ++ nl ++ "line two")))
       else Some (mkTranscript (Some ("text of " ++ audio))))
    (fun _ prompt => Some ("  summary " ++ nl)).

Definition in_order : schedule := fun n => seq 0 n.

Definition reversed : schedule := fun n => rev (seq 0 n).

Definition demo_dirs : filesystem :=
  [ ("./incoming_audio", Dir); ("./intermediate_transcripts", Dir);
    ("./output", Dir) ].

Definition world_of (entries : filesystem) : world :=
  mkWorld (demo_dirs ++ entries)%list [].

Definition demo_fresh : world :=
  world_of [ ("./incoming_audio/a.m4a", File "hello");
             ("./incoming_audio/notes.txt", File "not audio");
             ("./incoming_audio/b.m4a", File "world");
             ("./incoming_audio/old", Dir);
             ("./incoming_audio/old/c.m4a", File "kept") ].

Definition demo_cached : world :=
  world_of [ ("./incoming_audio/a.m4a", File "hello");
             ("./intermediate_transcripts/a.m4a.txt", File "cached text") ].

Definition demo_resumed : world :=
  world_of [ ("./incoming_audio/a.m4a", File "hello");
             ("./intermediate_transcripts/total_transcript.md",
              File "earlier transcript") ].

Definition demo_silence : world :=
  world_of [ ("./incoming_audio/a.m4a", File "hello");
             ("./incoming_audio/b.m4a", File "silence");
             ("./incoming_audio/c.m4a", File "world") ].

Definition demo_noise : world :=
  world_of [ ("./incoming_audio/a.m4a", File "hello");
             ("./incoming_audio/a.wav", File "an older recording");
             ("./incoming_audio/b.m4a", File "noise") ].

Definition demo_corrupt : world :=
  world_of [ ("./incoming_audio/a.m4a", File "corrupt bytes") ].

Definition demo_normalized : world :=
  world_of [ ("./incoming_audio/a.wav", File "wav(hello)") ].

Definition demo_no_audio : world :=
  world_of [ ("./incoming_audio/notes.txt", File "not audio") ].

Definition demo_no_bucket : world :=
  mkWorld [ ("./intermediate_transcripts", Dir); ("./output", Dir) ] [].



(** The collaborators when the completion service cannot be reached. *)
Definition demo_offline : services :=
  mkServices (decode_m4a demo_services) (transcription_service demo_services)
    (fun _ _ => None).

(** The job of the second recording ends in an error. *)
Definition demo_garbled : world :=
  world_of [ ("./incoming_audio/a.m4a", File "hello");
             ("./incoming_audio/b.m4a", File "garbled") ].

(** The transcript of the recording has a line end of two characters. *)
Definition demo_dictation : world :=
  world_of [ ("./incoming_audio/a.m4a", File "dictation") ].



(** The normalized audio of that recording. *)
Definition demo_dictated : world :=
  world_of [ ("./incoming_audio/a.wav", File "wav(dictation)") ].

(* ================================================================= *)
(** ** The string functions on examples *)

Example replace_twice :
  replace "in/a.m4a.m4a" ".m4a" ".wav" = "in/a.wav.wav".
Proof. reflexivity. Qed.

Example replace_inside_directory :
  replace "x.m4a/b.m4a" ".m4a" ".wav" = "x.wav/b.wav".
Proof. reflexivity. Qed.

Example join_default : join "./incoming_audio" "a.m4a" = "./incoming_audio/a.m4a".
Proof. reflexivity. Qed.

Example join_trailing_slash : join "in/" "a.m4a" = "in/a.m4a".
Proof. reflexivity. Qed.

Example join_absolute : join "in" "/tmp/a.m4a" = "/tmp/a.m4a".
Proof. reflexivity. Qed.

Example basename_nested : basename "./in/sub/a.m4a" = "a.m4a".
Proof. reflexivity. Qed.

Example dirname_nested : dirname "./in/sub//a.m4a" = "./in/sub".
Proof. reflexivity. Qed.

Example dirname_root : dirname "/a" = "/".
Proof. reflexivity. Qed.

Example dirname_relative : dirname "a.m4a" = "".
Proof. reflexivity. Qed.

Example strip_both : strip (" " ++ nl ++ "a b" ++ nl ++ " ") = "a b".
Proof. reflexivity. Qed.

Example strip_wide :
  strip (bytes [226; 128; 131] ++ " a" ++ nl ++ bytes [194; 160; 12]) = "a".
Proof. reflexivity. Qed.

Example strip_keeps_inner : strip ("a" ++ bytes [194; 160] ++ "b ") =
                            "a" ++ bytes [194; 160] ++ "b".
Proof. reflexivity. Qed.

Example newlines_translated :
  universal_newlines ("a" ++ cr ++ nl ++ "b" ++ cr ++ "c" ++ nl ++ cr) =
  "a" ++ nl ++ "b" ++ nl ++ "c" ++ nl ++ nl.
Proof. reflexivity. Qed.

Example child_direct : child_name "in" "in/a.m4a" = Some "a.m4a".
Proof. reflexivity. Qed.

Example child_nested : child_name "in" "in/sub/a.m4a" = None.
Proof. reflexivity. Qed.

(* ================================================================= *)
(** ** Facts about strings and paths *)

Module StrFacts.

Lemma append_nil_r (s : string) : s ++ "" = s.
Proof. induction s; simpl; congruence. Qed.

Lemma append_assoc (a b c : string) : (a ++ b) ++ c = a ++ (b ++ c).
Proof. induction a; simpl; congruence. Qed.

Lemma length_append (a b : string) :
  String.length (a ++ b) = String.length a + String.length b.
Proof. induction a; simpl; congruence. Qed.

Lemma append_inv_head (a x y : string) : a ++ x = a ++ y -> x = y.
Proof. induction a; simpl; intros H; [assumption | injection H; auto]. Qed.

Lemma append_inv_tail (a b x y : string) :
  a ++ x = b ++ y -> String.length x = String.length y -> a = b /\ x = y.
Proof.
  revert b. induction a as [|c a IH]; intros [|d b] H L; simpl in *.
  - auto.
  - exfalso. subst x. simpl in L. rewrite length_append in L. lia.
  - exfalso. subst y. simpl in L. rewrite length_append in L. lia.
  - injection H as -> H. destruct (IH _ H L) as [-> ->]. auto.
Qed.

Lemma startswith_iff (s pre : string) :
  startswith s pre = true <-> exists r, s = pre ++ r.
Proof.
  revert s. induction pre as [|a pre IH]; intros s; simpl.
  - split; [intros _; exists s; reflexivity | reflexivity].
  - destruct s as [|b s].
    + split; [discriminate | intros [r H]; discriminate].
    + rewrite andb_true_iff, Ascii.eqb_eq, IH. split.
      * intros [-> [r ->]]. exists r. reflexivity.
      * intros [r H]. injection H as -> ->. eauto.
Qed.

Lemma strip_prefix_iff (pre s r : string) :
  strip_prefix pre s = Some r <-> s = pre ++ r.
Proof.
  revert s. induction pre as [|a pre IH]; intros s; simpl.
  - split; [intros [= ->]; reflexivity | intros ->; reflexivity].
  - destruct s as [|b s].
    + split; discriminate.
    + destruct (Ascii.eqb_spec a b) as [->|N].
      * rewrite IH. split; [intros ->; reflexivity | intros [= ->]; reflexivity].
      * split; [discriminate | intros [= E _]; congruence].
Qed.

Lemma endswith_iff (s suf : string) :
  endswith s suf = true <-> exists a, s = a ++ suf.
Proof.
  induction s as [|c s IH]; cbn [endswith].
  - rewrite orb_false_r, String.eqb_eq. split.
    + intros <-. exists "". reflexivity.
    + intros [[|d a] H]; simpl in H; [assumption | discriminate].
  - rewrite orb_true_iff, String.eqb_eq, IH. split.
    + intros [<- | [a ->]]; [exists "" | exists (String c a)]; reflexivity.
    + intros [[|d a] H]; simpl in H; [left; assumption |].
      injection H as -> ->. right. eauto.
Qed.

Lemma endswith_app (a s suf : string) :
  endswith s suf = true -> endswith (a ++ s) suf = true.
Proof.
  rewrite !endswith_iff. intros [b ->]. exists (a ++ b).
  symmetry. apply append_assoc.
Qed.

Lemma endswith_same_length (s x y : string) :
  endswith s x = true -> endswith s y = true ->
  String.length x = String.length y -> x = y.
Proof.
  rewrite !endswith_iff. intros [a ->] [b H] L.
  apply (append_inv_tail a b x y H L).
Qed.

Lemma endswith_txt_not_wav (s : string) :
  endswith s ".txt" = true -> endswith s ".wav" = false.
Proof.
  intros H. destruct (endswith s ".wav") eqn:E; [|reflexivity].
  pose proof (endswith_same_length s _ _ H E eq_refl). discriminate.
Qed.

Lemma endswith_m4a_not_wav (s : string) :
  endswith s ".m4a" = true -> endswith s ".wav" = false.
Proof.
  intros H. destruct (endswith s ".wav") eqn:E; [|reflexivity].
  pose proof (endswith_same_length s _ _ H E eq_refl). discriminate.
Qed.

Lemma endswith_txt_not_m4a (s : string) :
  endswith s ".txt" = true -> endswith s ".m4a" = false.
Proof.
  intros H. destruct (endswith s ".m4a") eqn:E; [|reflexivity].
  pose proof (endswith_same_length s _ _ H E eq_refl). discriminate.
Qed.

Lemma endswith_wav_not_m4a (s : string) :
  endswith s ".wav" = true -> endswith s ".m4a" = false.
Proof.
  intros H. destruct (endswith s ".m4a") eqn:E; [|reflexivity].
  pose proof (endswith_same_length s _ _ H E eq_refl). discriminate.
Qed.

Lemma endswith_m4a_not_txt (s : string) :
  endswith s ".m4a" = true -> endswith s ".txt" = false.
Proof.
  intros H. destruct (endswith s ".txt") eqn:E; [|reflexivity].
  pose proof (endswith_same_length s _ _ H E eq_refl). discriminate.
Qed.

(** *** [replace(".m4a", ".wav")] *)

Lemma to_wav_match (r : string) : to_wav (".m4a" ++ r) = ".wav" ++ to_wav r.
Proof. reflexivity. Qed.

Lemma to_wav_other (c : ascii) (r : string) :
  startswith (String c r) ".m4a" = false ->
  to_wav (String c r) = String c (to_wav r).
Proof.
  intros H. unfold to_wav, replace. cbn [replace_from]. rewrite H. reflexivity.
Qed.

(** The scan of [replace], as an induction principle. *)
Lemma to_wav_ind (P : string -> string -> Prop) :
  P "" "" ->
  (forall r, P r (to_wav r) -> P (".m4a" ++ r) (".wav" ++ to_wav r)) ->
  (forall c r, startswith (String c r) ".m4a" = false ->
               P r (to_wav r) -> P (String c r) (String c (to_wav r))) ->
  forall s, P s (to_wav s).
Proof.
  intros H0 Hm Ho s.
  remember (String.length s) as n eqn:L.
  revert s L. induction n as [n IH] using lt_wf_ind. intros s L.
  destruct s as [|c r]; [exact H0|].
  destruct (startswith (String c r) ".m4a") eqn:E.
  - apply startswith_iff in E. destruct E as [r' E]. rewrite E.
    rewrite to_wav_match. apply Hm.
    apply (IH (String.length r')); [|reflexivity].
    subst n. rewrite E. simpl. lia.
  - rewrite (to_wav_other _ _ E). apply Ho; [assumption|].
    apply (IH (String.length r)); [|reflexivity]. subst n. simpl. lia.
Qed.

Lemma to_wav_head (s : string) (x : ascii) (t : string) :
  to_wav s = String x t -> x <> "."%char ->
  exists r, s = String x r /\ to_wav r = t.
Proof.
  intros H N. destruct s as [|c r]; [discriminate|].
  destruct (startswith (String c r) ".m4a") eqn:E.
  - apply startswith_iff in E. destruct E as [r' E]. rewrite E in H.
    rewrite to_wav_match in H. simpl in H. injection H as <- _. congruence.
  - rewrite (to_wav_other _ _ E) in H. injection H as -> H. eauto.
Qed.

Lemma to_wav_not_m4a (s : string) : endswith (to_wav s) ".m4a" = false.
Proof.
  apply (to_wav_ind (fun _ t => endswith t ".m4a" = false)).
  - reflexivity.
  - intros r IH. cbn. exact IH.
  - intros c r E IH. cbn [endswith]. rewrite IH, orb_false_r.
    apply String.eqb_neq. intros H. injection H as -> H.
    apply to_wav_head in H; [|discriminate]. destruct H as [r1 [-> H]].
    apply to_wav_head in H; [|discriminate]. destruct H as [r2 [-> H]].
    apply to_wav_head in H; [|discriminate]. destruct H as [r3 [-> H]].
    discriminate E.
Qed.

Lemma m4a_no_overlap (a r : string) :
  ".m4a" ++ r = a ++ ".m4a" -> r = "" \/ exists a', r = a' ++ ".m4a".
Proof.
  intros H.
  destruct a as [|c1 [|c2 [|c3 [|c4 a]]]]; simpl in H;
    try (injection H as; subst; discriminate).
  - injection H as ->. auto.
  - injection H as _ _ _ _ ->. eauto.
Qed.

Lemma to_wav_ends_wav (s : string) :
  endswith s ".m4a" = true -> endswith (to_wav s) ".wav" = true.
Proof.
  apply (to_wav_ind (fun s t => endswith s ".m4a" = true -> endswith t ".wav" = true)).
  - discriminate.
  - intros r IH H. apply endswith_iff in H. destruct H as [a H].
    apply m4a_no_overlap in H. destruct H as [-> | [a' ->]].
    + reflexivity.
    + apply endswith_app. apply IH. apply endswith_iff. eauto.
  - intros c r E IH H. cbn [endswith] in H. apply orb_true_iff in H.
    destruct H as [H|H].
    + apply String.eqb_eq in H. rewrite H in E. discriminate.
    + cbn [endswith]. rewrite (IH H). apply orb_true_r.
Qed.

Lemma to_wav_differs (s : string) : endswith s ".m4a" = true -> to_wav s <> s.
Proof.
  intros H E. pose proof (to_wav_not_m4a s) as N. rewrite E in N. congruence.
Qed.

Lemma startswith_m4a_before_slash (s b : string) :
  startswith (s ++ "/" ++ b) ".m4a" = startswith s ".m4a".
Proof.
  destruct s as [|c1 [|c2 [|c3 [|c4 s]]]]; cbn;
    repeat match goal with
           | |- context [Ascii.eqb ?x ?y] => destruct (Ascii.eqb x y); cbn
           end; reflexivity.
Qed.

Lemma to_wav_slash (a b : string) :
  to_wav (a ++ "/" ++ b) = to_wav a ++ "/" ++ to_wav b.
Proof.
  revert b.
  apply (to_wav_ind (fun a t => forall b, to_wav (a ++ "/" ++ b) = t ++ "/" ++ to_wav b)).
  - intros b. apply to_wav_other. reflexivity.
  - intros r IH b. rewrite !append_assoc, to_wav_match.
    rewrite (IH b). reflexivity.
  - intros c r E IH b.
    change (String c r ++ "/" ++ b) with (String c (r ++ "/" ++ b)).
    rewrite to_wav_other; [rewrite (IH b); reflexivity|].
    change (String c (r ++ "/" ++ b)) with (String c r ++ "/" ++ b).
    rewrite startswith_m4a_before_slash. exact E.
Qed.

Lemma to_wav_without_m4a (s : string) : contains s ".m4a" = false -> to_wav s = s.
Proof.
  apply (to_wav_ind (fun s t => contains s ".m4a" = false -> t = s)).
  - reflexivity.
  - intros r _ H. discriminate H.
  - intros c r E IH H. cbn [contains] in H. rewrite E in H. cbn in H.
    rewrite (IH H). reflexivity.
Qed.

Lemma to_wav_has_slash (s : string) : has_slash (to_wav s) = has_slash s.
Proof.
  apply (to_wav_ind (fun s t => has_slash t = has_slash s)).
  - reflexivity.
  - intros r IH. cbn. exact IH.
  - intros c r _ IH. cbn. rewrite IH. reflexivity.
Qed.

Lemma to_wav_nonempty (s : string) : s <> "" -> to_wav s <> "".
Proof.
  apply (to_wav_ind (fun s t => s <> "" -> t <> "")).
  - congruence.
  - intros; discriminate.
  - intros; discriminate.
Qed.

(** *** Paths *)

Lemma split_last_spec (p : string) :
  p = fst (split_last p) ++ snd (split_last p) /\
  has_slash (snd (split_last p)) = false.
Proof.
  induction p as [|c p [IH1 IH2]]; [split; reflexivity|].
  cbn [split_last]. destruct (split_last p) as [h t]. cbn [fst snd] in *.
  destruct h as [|d h]; cbn [append] in IH1.
  - destruct (is_slash c) eqn:E; cbn [fst snd append].
    + split; [congruence | assumption].
    + split; [congruence|]. cbn. rewrite E. assumption.
  - cbn [fst snd append]. split; [congruence | assumption].
Qed.

Lemma split_last_relative (n : string) :
  has_slash n = false -> split_last n = ("", n).
Proof.
  induction n as [|c n IH]; [reflexivity|].
  cbn. intros H. apply orb_false_iff in H. destruct H as [Hc Hn].
  rewrite (IH Hn), Hc. reflexivity.
Qed.

Lemma split_last_below (d n : string) :
  has_slash n = false -> split_last (d ++ "/" ++ n) = (d ++ "/", n).
Proof.
  intros H. induction d as [|c d IH].
  - cbn. rewrite (split_last_relative n H). reflexivity.
  - cbn [append split_last]. cbn [append] in IH. rewrite IH.
    destruct d; reflexivity.
Qed.

Lemma has_slash_not_absolute (n : string) :
  has_slash n = false -> startswith n "/" = false.
Proof.
  destruct n as [|c n]; [reflexivity|]. intros H.
  cbn [has_slash] in H. apply orb_false_iff in H. destruct H as [Hc _].
  unfold is_slash in Hc. cbn [startswith]. rewrite Ascii.eqb_sym, Hc.
  reflexivity.
Qed.

Lemma dir_prefix_clean (d : string) : clean d = true -> dir_prefix d = d ++ "/".
Proof.
  unfold clean, dir_prefix. intros H. apply andb_true_iff in H.
  destruct H as [H1 H2]. apply negb_true_iff in H1, H2. rewrite H1, H2.
  reflexivity.
Qed.

Lemma dir_prefix_shape (d : string) :
  dir_prefix d = "" \/ exists a, dir_prefix d = a ++ "/".
Proof.
  unfold dir_prefix. destruct (String.eqb_spec d "") as [->|N]; cbn [orb].
  - left. reflexivity.
  - right. destruct (endswith d "/") eqn:E.
    + apply endswith_iff in E. exact E.
    + exists d. reflexivity.
Qed.

Lemma join_relative (d n : string) :
  has_slash n = false -> join d n = dir_prefix d ++ n.
Proof.
  intros H. unfold join. rewrite (has_slash_not_absolute n H). reflexivity.
Qed.

Lemma basename_join (d n : string) :
  has_slash n = false -> basename (join d n) = n.
Proof.
  intros H. rewrite (join_relative d n H). unfold basename.
  destruct (dir_prefix_shape d) as [-> | [a ->]].
  - cbn [append]. rewrite (split_last_relative n H). reflexivity.
  - rewrite append_assoc. rewrite (split_last_below a n H). reflexivity.
Qed.



Lemma join_inj (d x y : string) :
  has_slash x = false -> has_slash y = false -> join d x = join d y -> x = y.
Proof.
  intros Hx Hy. rewrite !join_relative by assumption. apply append_inv_head.
Qed.

Lemma join_endswith (d n suf : string) :
  endswith n suf = true -> endswith (join d n) suf = true.
Proof.
  intros H. unfold join. destruct (startswith n "/"); [assumption|].
  apply endswith_app. assumption.
Qed.

Lemma basename_has_no_slash (p : string) : has_slash (basename p) = false.
Proof. apply split_last_spec. Qed.

Lemma basename_endswith (p suf : string) :
  endswith (basename p) suf = true -> endswith p suf = true.
Proof.
  intros H. destruct (split_last_spec p) as [E _]. rewrite E.
  apply endswith_app. exact H.
Qed.

Lemma has_slash_app (a b : string) :
  has_slash (a ++ b) = has_slash a || has_slash b.
Proof. induction a as [|c a IH]; cbn; [reflexivity|]. rewrite IH. apply orb_assoc. Qed.

Lemma child_name_iff (d k n : string) :
  child_name d k = Some n <->
  k = dir_prefix d ++ n /\ n <> "" /\ has_slash n = false.
Proof.
  unfold child_name. destruct (strip_prefix (dir_prefix d) k) as [r|] eqn:E.
  - apply strip_prefix_iff in E. subst k.
    destruct (String.eqb_spec r "") as [->|N]; cbn [orb].
    + split; [discriminate|]. intros [H [N _]]. apply append_inv_head in H.
      congruence.
    + destruct (has_slash r) eqn:S.
      * split; [discriminate|]. intros [H [_ S']].
        apply append_inv_head in H. congruence.
      * split.
        -- intros [= <-]. auto.
        -- intros [H _]. apply append_inv_head in H. congruence.
  - split; [discriminate|]. intros [H _].
    apply strip_prefix_iff in H. congruence.
Qed.

Lemma child_name_join (d k n : string) : child_name d k = Some n -> join d n = k.
Proof.
  intros H. apply child_name_iff in H. destruct H as [-> [_ S]].
  apply join_relative. exact S.
Qed.

Lemma child_name_of_join (d n : string) :
  n <> "" -> has_slash n = false -> child_name d (join d n) = Some n.
Proof.
  intros N S. apply child_name_iff. rewrite (join_relative d n S). auto.
Qed.

(** Entries directly inside two clean directories share their directory. *)
Lemma child_of_clean (d d' n m : string) :
  clean d = true -> clean d' = true -> has_slash n = false ->
  child_name d (join d' n) = Some m -> d = d' /\ m = n.
Proof.
  intros C C' S H. apply child_name_iff in H. destruct H as [E [_ S']].
  rewrite (join_relative d' n S), (dir_prefix_clean d C),
    (dir_prefix_clean d' C'), !append_assoc in E.
  pose proof (split_last_below d' n S) as A.
  pose proof (split_last_below d m S') as B.
  rewrite E, B in A. injection A as A1 A2.
  destruct (append_inv_tail d d' "/" "/" A1 eq_refl) as [-> _]. auto.
Qed.

Lemma to_wav_join (d n : string) :
  clean d = true -> contains d ".m4a" = false -> has_slash n = false ->
  to_wav (join d n) = join d (to_wav n).
Proof.
  intros C M S. rewrite (join_relative d n S), (dir_prefix_clean d C).
  rewrite append_assoc, to_wav_slash, (to_wav_without_m4a d M).
  rewrite join_relative by (rewrite to_wav_has_slash; exact S).
  rewrite (dir_prefix_clean d C), append_assoc. reflexivity.
Qed.

Lemma children_disjoint (d d' p n : string) :
  clean d = true -> clean d' = true -> d <> d' ->
  child_name d p = Some n -> child_name d' p = None.
Proof.
  intros C C' N H. destruct (child_name d' p) as [m|] eqn:E; [|reflexivity].
  exfalso. pose proof E as J. apply child_name_join in J.
  apply child_name_iff in E. destruct E as [_ [_ S]].
  rewrite <- J in H. apply (child_of_clean d d' m n C C' S) in H.
  destruct H as [-> _]. congruence.
Qed.


Lemma below_is_no_child (d p : string) : below d p = true -> child_name d p = None.
Proof.
  unfold below, child_name. destruct (strip_prefix (dir_prefix d) p); [|reflexivity].
  intros ->. rewrite orb_true_r. reflexivity.
Qed.


(** *** Line ends *)

Lemma universal_newlines_bounded (n : nat) (s : string) :
  String.length s <= n ->
  has_cr (universal_newlines s) = false /\
  (has_cr s = false -> universal_newlines s = s).
Proof.
  revert s. induction n as [|n IH]; intros s L.
  - destruct s; [split; reflexivity | cbn in L; lia].
  - destruct s as [|c r]; [split; reflexivity|].
    cbn [String.length] in L. cbn [universal_newlines has_cr].
    destruct (Ascii.eqb c "013") eqn:Ec.
    + split; [|discriminate].
      destruct r as [|d r']; [reflexivity|]. cbn [String.length] in L.
      destruct (Ascii.eqb d "010"); cbn [has_cr Ascii.eqb Bool.eqb orb].
      * apply IH. lia.
      * apply (IH (String d r')). cbn [String.length]. lia.
    + cbn [orb]. destruct (IH r ltac:(lia)) as [A B]. split.
      * cbn [has_cr]. rewrite Ec. exact A.
      * intros H. rewrite (B H). reflexivity.
Qed.

Lemma universal_newlines_no_cr (s : string) : has_cr (universal_newlines s) = false.
Proof. apply (universal_newlines_bounded (String.length s)). lia. Qed.

Lemma universal_newlines_id (s : string) :
  has_cr s = false -> universal_newlines s = s.
Proof. apply (universal_newlines_bounded (String.length s)). lia. Qed.

Lemma universal_newlines_idem (s : string) :
  universal_newlines (universal_newlines s) = universal_newlines s.
Proof. apply universal_newlines_id, universal_newlines_no_cr. Qed.

Lemma universal_newlines_changes (s : string) :
  has_cr s = true -> universal_newlines s <> s.
Proof.
  intros H E. pose proof (universal_newlines_no_cr s) as N.
  rewrite E in N. congruence.
Qed.

(** *** White space at the ends *)

Lemma rev_string_app (a b : string) :
  rev_string (a ++ b) = rev_string b ++ rev_string a.
Proof.
  induction a as [|c a IH]; cbn [append rev_string].
  - rewrite append_nil_r. reflexivity.
  - rewrite IH, append_assoc. reflexivity.
Qed.

Lemma rev_string_involutive (s : string) : rev_string (rev_string s) = s.
Proof.
  induction s as [|c s IH]; [reflexivity|].
  cbn [rev_string]. rewrite rev_string_app, IH. reflexivity.
Qed.

Lemma rev_string_length (s : string) :
  String.length (rev_string s) = String.length s.
Proof.
  induction s as [|c s IH]; [reflexivity|].
  cbn [rev_string String.length]. rewrite length_append, IH. cbn. lia.
Qed.

Lemma drop_prefix_of_spec (seqs : list string) (s r : string) :
  drop_prefix_of seqs s = Some r -> exists q, In q seqs /\ s = q ++ r.
Proof.
  induction seqs as [|q seqs IH]; cbn [drop_prefix_of]; [discriminate|].
  destruct (strip_prefix q s) as [x|] eqn:E.
  - intros [= <-]. apply strip_prefix_iff in E. exists q. split; [left|]; auto.
  - intros H. destruct (IH H) as [q' [I Q]]. exists q'. split; [right|]; auto.
Qed.

Lemma drop_prefix_of_none (seqs : list string) (s q r : string) :
  drop_prefix_of seqs s = None -> In q seqs -> s <> q ++ r.
Proof.
  induction seqs as [|q' seqs IH]; cbn [drop_prefix_of]; [intros _ []|].
  destruct (strip_prefix q' s) as [x|] eqn:E; [discriminate|].
  intros H [->|I]; [|exact (IH H I)].
  intros Q. apply strip_prefix_iff in Q. congruence.
Qed.

Lemma drop_prefix_of_found (seqs : list string) (q r : string) :
  In q seqs -> drop_prefix_of seqs (q ++ r) <> None.
Proof.
  intros I H. exact (drop_prefix_of_none seqs (q ++ r) q r H I eq_refl).
Qed.

Lemma after_space_spec (wide : list string) (s r : string) :
  ~ In "" wide -> after_space wide s = Some r ->
  exists q, s = q ++ r /\ String.length r < String.length s.
Proof.
  intros N. destruct s as [|c t]; cbn [after_space]; [discriminate|].
  destruct (isspace c).
  - intros [= <-]. exists (String c ""). split; [reflexivity | cbn; lia].
  - intros H. apply drop_prefix_of_spec in H. destruct H as [q [I Q]].
    exists q. split; [exact Q|]. rewrite Q, length_append.
    destruct q; [contradiction | cbn; lia].
Qed.

Lemma drop_spaces_done (wide : list string) (n : nat) (s : string) :
  ~ In "" wide -> String.length s <= n ->
  after_space wide (drop_spaces wide n s) = None.
Proof.
  intros N. revert s. induction n as [|n IH]; intros s L; cbn [drop_spaces].
  - destruct s; [reflexivity | cbn in L; lia].
  - destruct (after_space wide s) as [r|] eqn:E; [|exact E].
    destruct (after_space_spec wide s r N E) as [_ [_ Lt]]. apply IH. lia.
Qed.

Lemma drop_spaces_suffix (wide : list string) (n : nat) (s : string) :
  ~ In "" wide -> exists ws, s = ws ++ drop_spaces wide n s.
Proof.
  intros N. revert s. induction n as [|n IH]; intros s; cbn [drop_spaces].
  - exists "". reflexivity.
  - destruct (after_space wide s) as [r|] eqn:E; [|exists ""; reflexivity].
    destruct (after_space_spec wide s r N E) as [q [-> _]].
    destruct (IH r) as [ws W]. exists (q ++ ws).
    rewrite append_assoc, <- W. reflexivity.
Qed.

Lemma after_space_head (wide : list string) (a : ascii) (r : string) :
  after_space wide (String a r) = None -> isspace a = false.
Proof. cbn [after_space]. destruct (isspace a); [discriminate | reflexivity]. Qed.

(** A string that does not start with white space has no prefix that
    does, the empty one apart. *)
Lemma after_space_prefix (wide : list string) (p x : string) :
  after_space wide (p ++ x) = None -> p <> "" -> after_space wide p = None.
Proof.
  destruct p as [|c p]; [congruence|]. intros H _.
  cbn [append after_space] in H |- *.
  destruct (isspace c); [discriminate|].
  destruct (drop_prefix_of wide (String c p)) as [r|] eqn:E; [|reflexivity].
  exfalso. apply drop_prefix_of_spec in E. destruct E as [q [I Q]].
  apply (drop_prefix_of_none wide _ q (r ++ x) H I).
  change (String c (p ++ x)) with (String c p ++ x).
  rewrite Q, append_assoc. reflexivity.
Qed.

Lemma wide_spaces_nonempty : ~ In "" wide_spaces.
Proof. cbv. intuition discriminate. Qed.

Lemma wide_spaces_rev_nonempty : ~ In "" (map rev_string wide_spaces).
Proof. cbv. intuition discriminate. Qed.

Lemma lstrip_done (s : string) : after_space wide_spaces (lstrip s) = None.
Proof. apply drop_spaces_done; [apply wide_spaces_nonempty | lia]. Qed.

Lemma lstrip_is_suffix (s : string) : exists ws, s = ws ++ lstrip s.
Proof. apply drop_spaces_suffix, wide_spaces_nonempty. Qed.

Lemma rstrip_done (s : string) :
  after_space (map rev_string wide_spaces) (rev_string (rstrip s)) = None.
Proof.
  unfold rstrip. rewrite rev_string_involutive.
  apply drop_spaces_done; [apply wide_spaces_rev_nonempty|].
  rewrite rev_string_length. lia.
Qed.

(** What [strip] returns neither starts nor ends with white space. *)
Lemma strip_done (s : string) :
  starts_with_space (strip s) = false /\ ends_with_space (strip s) = false.
Proof.
  unfold starts_with_space, ends_with_space, strip. split.
  - rewrite lstrip_done. reflexivity.
  - destruct (lstrip_is_suffix (rstrip s)) as [ws W].
    pose proof (rstrip_done s) as D. rewrite W, rev_string_app in D.
    destruct (rev_string (lstrip (rstrip s))) as [|c t] eqn:E; [reflexivity|].
    rewrite (after_space_prefix _ _ _ D); [reflexivity | discriminate].
Qed.

Lemma starts_with_space_head (a : ascii) (r : string) :
  starts_with_space (String a r) = false -> isspace a = false.
Proof.
  unfold starts_with_space. intros H. apply (after_space_head wide_spaces a r).
  destruct (after_space wide_spaces (String a r)); [discriminate | reflexivity].
Qed.

Lemma ends_with_space_last (front : string) (a : ascii) :
  ends_with_space (front ++ String a "") = false -> isspace a = false.
Proof.
  unfold ends_with_space. rewrite rev_string_app. cbn [rev_string append].
  intros H. apply (after_space_head (map rev_string wide_spaces) a (rev_string front)).
  destruct (after_space _ _); [discriminate | reflexivity].
Qed.

End StrFacts.

(* ================================================================= *)
(** ** Facts about the filesystem *)

Module FSFacts.
Import StrFacts.

Lemma lookup_store_eq (p : string) (n : node) (fs : filesystem) :
  FS.lookup p (FS.store p n fs) = Some n.
Proof.
  induction fs as [|[k x] fs IH]; cbn.
  - rewrite String.eqb_refl. reflexivity.
  - destruct (String.eqb_spec k p) as [->|N]; cbn.
    + rewrite String.eqb_refl. reflexivity.
    + apply String.eqb_neq in N. rewrite N. exact IH.
Qed.

Lemma lookup_store_ne (p q : string) (n : node) (fs : filesystem) :
  p <> q -> FS.lookup q (FS.store p n fs) = FS.lookup q fs.
Proof.
  intros N. induction fs as [|[k x] fs IH]; cbn.
  - apply String.eqb_neq in N. rewrite N. reflexivity.
  - destruct (String.eqb_spec k p) as [->|Nk]; cbn.
    + apply String.eqb_neq in N. rewrite N. reflexivity.
    + rewrite IH. reflexivity.
Qed.

Lemma lookup_delete_eq (p : string) (fs : filesystem) :
  FS.lookup p (FS.delete p fs) = None.
Proof.
  induction fs as [|[k x] fs IH]; cbn; [reflexivity|].
  destruct (String.eqb_spec k p) as [->|N]; cbn; [exact IH|].
  apply String.eqb_neq in N. rewrite N. exact IH.
Qed.

Lemma lookup_delete_ne (p q : string) (fs : filesystem) :
  p <> q -> FS.lookup q (FS.delete p fs) = FS.lookup q fs.
Proof.
  intros N. induction fs as [|[k x] fs IH]; cbn; [reflexivity|].
  destruct (String.eqb_spec k p) as [->|Nk]; cbn.
  - apply String.eqb_neq in N. rewrite N. exact IH.
  - rewrite IH. reflexivity.
Qed.

Lemma lookup_store (p q : string) (n : node) (fs : filesystem) :
  FS.lookup q (FS.store p n fs) = if p =? q then Some n else FS.lookup q fs.
Proof.
  destruct (String.eqb_spec p q) as [->|N].
  - apply lookup_store_eq.
  - apply lookup_store_ne. exact N.
Qed.

Lemma lookup_delete (p q : string) (fs : filesystem) :
  FS.lookup q (FS.delete p fs) = if p =? q then None else FS.lookup q fs.
Proof.
  destruct (String.eqb_spec p q) as [->|N].
  - apply lookup_delete_eq.
  - apply lookup_delete_ne. exact N.
Qed.

Lemma children_store (d p : string) (n : node) (fs : filesystem) :
  FS.children d (FS.store p n fs) =
  match FS.lookup p fs with
  | Some _ => FS.children d fs
  | None => (FS.children d fs ++ FS.children d [(p, n)])%list
  end.
Proof.
  induction fs as [|[k x] fs IH]; cbn [FS.store FS.lookup]; [reflexivity|].
  destruct (String.eqb_spec k p) as [->|N]; [reflexivity|].
  cbn [FS.children]. rewrite IH.
  destruct (FS.lookup p fs), (child_name d k); reflexivity.
Qed.

Lemma children_present (d k n : string) (fs : filesystem) :
  FS.lookup k fs <> None -> child_name d k = Some n -> In n (FS.children d fs).
Proof.
  intros H C. induction fs as [|[k' x] fs IH]; cbn in *; [congruence|].
  destruct (String.eqb_spec k' k) as [->|N].
  - rewrite C. left. reflexivity.
  - destruct (child_name d k'); [right|]; apply IH; exact H.
Qed.

Lemma m4a_names_store (d p : string) (n : node) (fs : filesystem) :
  endswith p ".m4a" = false ->
  m4a_names d (FS.store p n fs) = m4a_names d fs.
Proof.
  intros E. unfold m4a_names. rewrite children_store.
  destruct (FS.lookup p fs); [reflexivity|].
  rewrite filter_app. cbn [FS.children].
  destruct (child_name d p) as [x|] eqn:C; cbn [filter].
  - destruct (endswith x ".m4a") eqn:Ex.
    + apply child_name_iff in C. destruct C as [-> _].
      rewrite (endswith_app _ _ _ Ex) in E. discriminate.
    + apply app_nil_r.
  - apply app_nil_r.
Qed.

Lemma m4a_names_delete (d p : string) (fs : filesystem) :
  endswith p ".m4a" = false ->
  m4a_names d (FS.delete p fs) = m4a_names d fs.
Proof.
  intros E. unfold m4a_names.
  induction fs as [|[k x] fs IH]; cbn [FS.delete]; [reflexivity|].
  destruct (String.eqb_spec k p) as [->|N]; cbn [FS.children].
  - rewrite IH. destruct (child_name d p) as [y|] eqn:C; [|reflexivity].
    cbn [filter]. destruct (endswith y ".m4a") eqn:Ey; [|reflexivity].
    apply child_name_iff in C. destruct C as [-> _].
    rewrite (endswith_app _ _ _ Ey) in E. discriminate.
  - destruct (child_name d k); cbn [filter]; rewrite IH; reflexivity.
Qed.

Lemma same_dirs_refl (fs : filesystem) : same_dirs fs fs.
Proof. intros p. reflexivity. Qed.

Lemma same_dirs_trans (a b c : filesystem) :
  same_dirs a b -> same_dirs b c -> same_dirs a c.
Proof. intros H1 H2 p. rewrite (H1 p). apply H2. Qed.

Lemma same_dirs_sym (a b : filesystem) : same_dirs a b -> same_dirs b a.
Proof. intros H p. symmetry. apply H. Qed.

Lemma same_dirs_store (p text : string) (fs : filesystem) :
  FS.lookup p fs <> Some Dir -> same_dirs fs (FS.store p (File text) fs).
Proof.
  intros H q. rewrite lookup_store.
  destruct (String.eqb_spec p q) as [->|N]; [|reflexivity].
  split; [congruence | discriminate].
Qed.

Lemma same_dirs_delete (p : string) (fs : filesystem) :
  FS.lookup p fs <> Some Dir -> same_dirs fs (FS.delete p fs).
Proof.
  intros H q. rewrite lookup_delete.
  destruct (String.eqb_spec p q) as [->|N]; [|reflexivity].
  split; [congruence | discriminate].
Qed.

End FSFacts.

(* ================================================================= *)
(** ** Running computations *)

Lemma bind_inv {A B : Type} (c : M A) (k : A -> M B) (w w' : world) (r : result B) :
  bind c k w = (r, w') ->
  (exists e, c w = (Raise e, w') /\ r = Raise e) \/
  (exists a w1, c w = (Ok a, w1) /\ k a w1 = (r, w')).
Proof.
  unfold bind. destruct (c w) as [[a|e] w1]; intros H.
  - right. eauto.
  - left. injection H as <- <-. eauto.
Qed.

Lemma bind_ok {A B : Type} (c : M A) (k : A -> M B) (w w1 : world) (a : A) :
  c w = (Ok a, w1) -> bind c k w = k a w1.
Proof. unfold bind. intros ->. reflexivity. Qed.

Lemma bind_raise {A B : Type} (c : M A) (k : A -> M B) (w w1 : world) (e : error) :
  c w = (Raise e, w1) -> bind c k w = (Raise e, w1).
Proof. unfold bind. intros ->. reflexivity. Qed.

Ltac inv_bind H :=
  let e := fresh "e" in
  let a := fresh "a" in
  let w := fresh "w" in
  let H1 := fresh "Hc" in
  apply bind_inv in H;
  destruct H as [[e [H1 H]] | [a [w [H1 H]]]].

Tactic Notation "inv_bind_as" hyp(H) ident(a) ident(w) ident(Hc) :=
  let e := fresh "e" in
  apply bind_inv in H;
  destruct H as [[e [Hc H]] | [a [w [Hc H]]]].

Lemma write_bytes_eval (p data : string) (w : world) :
  write_bytes p data w =
  match FS.lookup (dirname p) (disk w) with
  | Some Dir =>
      match FS.lookup p (disk w) with
      | Some Dir => (Raise IsADirectoryError, w)
      | _ => (Ok tt, mkWorld (FS.store p (File data) (disk w))
                             (trace w ++ [EvWrite p data])%list)
      end
  | Some (File _) => (Raise NotADirectoryError, w)
  | None => (Raise FileNotFoundError, w)
  end.
Proof.
  unfold write_bytes, bind, check_parent.
  destruct (FS.lookup (dirname p) (disk w)) as [[?|]|]; reflexivity.
Qed.

Lemma write_text_eval (p text : string) (w : world) :
  write_text p text w =
  match FS.lookup (dirname p) (disk w) with
  | Some Dir =>
      match FS.lookup p (disk w) with
      | Some Dir => (Raise IsADirectoryError, w)
      | _ => (Ok tt, mkWorld (FS.store p (File (universal_newlines text)) (disk w))
                             (trace w ++ [EvWrite p text])%list)
      end
  | Some (File _) => (Raise NotADirectoryError, w)
  | None => (Raise FileNotFoundError, w)
  end.
Proof.
  unfold write_text, bind, check_parent.
  destruct (FS.lookup (dirname p) (disk w)) as [[?|]|]; reflexivity.
Qed.

Lemma remove_eval (p : string) (w : world) :
  remove p w =
  match FS.lookup p (disk w) with
  | Some (File _) =>
      (Ok tt, mkWorld (FS.delete p (disk w)) (trace w ++ [EvRemove p])%list)
  | Some Dir => (Raise IsADirectoryError, w)
  | None => (Raise FileNotFoundError, w)
  end.
Proof.
  unfold remove. destruct (FS.lookup p (disk w)) as [[?|]|]; reflexivity.
Qed.

Section Steps.

Variable cfg : config.
Import StrFacts FSFacts.

Lemma task_step_refl (F : list string) (w : world) : task_step cfg F w w.
Proof.
  split.
  - apply same_dirs_refl.
  - reflexivity.
  - auto.
  - reflexivity.
  - exists []. split; [symmetry; apply app_nil_r | constructor].
Qed.

Lemma task_step_trans (F : list string) (w1 w2 w3 : world) :
  task_step cfg F w1 w2 -> task_step cfg F w2 w3 -> task_step cfg F w1 w3.
Proof.
  intros [D1 F1 K1 L1 [e1 [T1 A1]]] [D2 F2 K2 L2 [e2 [T2 A2]]]. split.
  - eapply same_dirs_trans; eassumption.
  - intros p Hw He. rewrite F2, F1 by assumption. reflexivity.
  - intros p n E H. apply K2; [assumption|]. apply K1; assumption.
  - intros d. rewrite L2. apply L1.
  - exists (e1 ++ e2)%list. split.
    + rewrite T2, T1. symmetry. apply app_assoc.
    + apply Forall_app. split; assumption.
Qed.

Lemma task_event_mono (F F' : list string) (e : event) :
  incl F F' -> task_event cfg F e -> task_event cfg F' e.
Proof.
  intros I. unfold task_event, is_wav_of, is_entry_of.
  destruct e; try tauto; try (apply I).
  - intros [f [H ->]]. eauto.
  - intros [[f [H ->]] | [f [H ->]]]; eauto.
  - intros [f [H ->]]. eauto.
Qed.

Lemma task_step_mono (F F' : list string) (w w' : world) :
  incl F F' -> task_step cfg F w w' -> task_step cfg F' w w'.
Proof.
  intros I [D Fr K L [evs [T A]]]. split; try assumption.
  - intros p Hw He. apply Fr.
    + intros [f [H E]]. apply Hw. exists f. auto.
    + intros [f [H E]]. apply He. exists f. auto.
  - exists evs. split; [assumption|].
    eapply Forall_impl; [|exact A]. intros e. apply task_event_mono. exact I.
Qed.

(** A step that only extends the trace. *)
Lemma trace_step (F : list string) (w : world) (e : event) :
  task_event cfg F e ->
  task_step cfg F w (mkWorld (disk w) (trace w ++ [e])%list).
Proof.
  intros H. split; cbn [disk trace].
  - apply same_dirs_refl.
  - reflexivity.
  - auto.
  - reflexivity.
  - exists [e]. split; [reflexivity | constructor; [exact H | constructor]].
Qed.

(** Writing normalized audio, or a cache entry that does not exist yet. *)
Lemma write_step (F : list string) (p content text : string) (w : world) :
  is_wav_of F p \/ is_entry_of cfg F p ->
  endswith p ".m4a" = false ->
  endswith p ".wav" = true \/ FS.lookup p (disk w) = None ->
  FS.lookup p (disk w) <> Some Dir ->
  task_step cfg F w
    (mkWorld (FS.store p (File content) (disk w)) (trace w ++ [EvWrite p text])%list).
Proof.
  intros T M4 New ND. split; cbn [disk trace].
  - apply same_dirs_store. exact ND.
  - intros q Hw He. apply lookup_store_ne. intros <-. tauto.
  - intros q n E H. rewrite lookup_store.
    destruct (String.eqb_spec p q) as [<-|N]; [|exact H].
    destruct New as [W | Ab]; congruence.
  - intros d. apply m4a_names_store. exact M4.
  - exists [EvWrite p text]. split; [reflexivity | constructor; [exact T | constructor]].
Qed.

(** Deleting normalized audio. *)
Lemma remove_step (F : list string) (p : string) (w : world) :
  is_wav_of F p -> endswith p ".wav" = true ->
  FS.lookup p (disk w) <> Some Dir ->
  task_step cfg F w
    (mkWorld (FS.delete p (disk w)) (trace w ++ [EvRemove p])%list).
Proof.
  intros T W ND. split; cbn [disk trace].
  - apply same_dirs_delete. exact ND.
  - intros q Hw He. apply lookup_delete_ne. intros <-. tauto.
  - intros q n E H. rewrite lookup_delete.
    destruct (String.eqb_spec p q) as [<-|N]; [congruence | exact H].
  - intros d. apply m4a_names_delete.
    destruct (endswith p ".m4a") eqn:E; [|reflexivity].
    rewrite (endswith_m4a_not_wav p E) in W. discriminate.
  - exists [EvRemove p]. split; [reflexivity | constructor; [exact T | constructor]].
Qed.

End Steps.

(* ================================================================= *)
(** ** One pipeline task *)

Section ProcessFile.

Variable cfg : config.
Variable svc : services.
Import StrFacts FSFacts.

Lemma app_one_one {A : Type} (l : list A) (a b : A) :
  ((l ++ [a]) ++ [b] = l ++ [a; b])%list.
Proof. rewrite <- app_assoc. reflexivity. Qed.

Lemma convert_inv (f : string) (w w' : world) (r : result string) :
  convert_m4a_to_wav svc f w = (r, w') ->
  (exists e, r = Raise e /\ w' = mkWorld (disk w) (trace w ++ [EvConvert f])) \/
  (exists audio,
      convertible svc f (disk w) audio /\ r = Ok (to_wav f) /\
      w' = mkWorld (FS.store (to_wav f) (File audio) (disk w))
             (trace w ++ [EvConvert f; EvWrite (to_wav f) audio])).
Proof.
  unfold convert_m4a_to_wav, bind, emit, read_text. cbn [disk trace].
  destruct (FS.lookup f (disk w)) as [[source|]|] eqn:Ef;
    try solve [intros [= <- <-]; left; eauto].
  destruct (decode_m4a svc source) as [audio|] eqn:Ed;
    [|intros [= <- <-]; left; eauto].
  rewrite write_bytes_eval. cbn [disk trace].
  destruct (FS.lookup (dirname (to_wav f)) (disk w)) as [[?|]|] eqn:Ep;
    try solve [intros [= <- <-]; left; eauto].
  destruct (FS.lookup (to_wav f) (disk w)) as [[?|]|] eqn:Ew;
    try solve [intros [= <- <-]; left; eauto];
    cbn; intros [= <- <-]; right; exists audio; rewrite app_one_one;
    (split; [exists source; repeat split; auto; congruence | auto]).
Qed.

Lemma transcribe_audio_inv (p : string) (w w' : world) (r : result string) :
  transcribe_audio cfg svc p w = (r, w') ->
  let entry := transcript_path cfg p in
  let w1 := mkWorld (disk w) (trace w ++ [EvTranscribe p]) in
  (exists text, FS.lookup entry (disk w) = Some (File text) /\ r = Ok text /\ w' = w) \/
  (FS.lookup entry (disk w) = Some Dir /\ r = Raise IsADirectoryError /\ w' = w) \/
  (FS.lookup entry (disk w) = None /\
   ((exists e, r = Raise e /\ w' = w1) \/
    (exists audio,
        FS.lookup p (disk w) = Some (File audio) /\
        transcription_service svc (trace w1) audio = Some (mkTranscript None) /\
        FS.lookup (dirname entry) (disk w) = Some Dir /\
        r = Raise TypeError /\
        w' = mkWorld (FS.store entry (File "") (disk w))
               (trace w1 ++ [EvWrite entry ""])) \/
    (exists audio text,
        FS.lookup p (disk w) = Some (File audio) /\
        transcription_service svc (trace w1) audio = Some (mkTranscript (Some text)) /\
        FS.lookup (dirname entry) (disk w) = Some Dir /\
        r = Ok text /\
        w' = mkWorld (FS.store entry (File (universal_newlines text)) (disk w))
               (trace w1 ++ [EvWrite entry text])))).
Proof.
  unfold transcribe_audio, bind, path_exists, read_text. cbn [disk trace].
  destruct (FS.lookup (transcript_path cfg p) (disk w)) as [[text|]|] eqn:Ee.
  - rewrite Ee. intros [= <- <-]. left. eauto.
  - rewrite Ee. intros [= <- <-]. right. left. auto.
  - unfold transcribe, bind, emit, read_text. cbn [disk trace].
    intros H. right. right. split; [reflexivity|].
    destruct (FS.lookup p (disk w)) as [[audio|]|] eqn:Ep;
      try solve [injection H as <- <-; left; eauto].
    cbn [disk trace] in H.
    destruct (transcription_service svc (trace w ++ [EvTranscribe p]) audio)
      as [[[text|]]|] eqn:Et; [| |injection H as <- <-; left; eauto];
      cbn [transcript_text] in H;
      rewrite write_text_eval in H; cbn [disk trace] in H;
      rewrite Ee in H;
      (destruct (FS.lookup (dirname (transcript_path cfg p)) (disk w)) as [[?|]|] eqn:Ed;
         try solve [injection H as <- <-; left; eauto]);
      cbn in H; injection H as <- <-; right.
    + right. exists audio, text. auto.
    + left. exists audio. auto.
Qed.

(** [process_file] runs in one of the ways of [process_file_run]. *)
Lemma process_file_sound (f : string) (w w' : world) (r : result string) :
  process_file cfg svc f w = (r, w') -> process_file_run cfg svc f w r w'.
Proof.
  unfold process_file. intros H. unfold bind at 1 in H.
  unfold path_exists at 1 in H.
  destruct (FS.lookup (transcript_path cfg f) (disk w)) as [[text|]|] eqn:Ec.
  - unfold read_text in H. rewrite Ec in H. injection H as <- <-.
    apply run_cached. exact Ec.
  - unfold read_text in H. rewrite Ec in H. injection H as <- <-.
    apply run_cached_dir. exact Ec.
  - inv_bind H.
    { subst r. apply convert_inv in Hc.
      destruct Hc as [[e' [_ ->]] | [? [_ [E _]]]]; [|discriminate E].
      apply run_convert_failed. exact Ec. }
    apply convert_inv in Hc.
    destruct Hc as [[e' [E _]] | [audio [Cv [E ->]]]]; [discriminate E|].
    injection E as ->.
    inv_bind H.
    { subst r. apply transcribe_audio_inv in Hc. cbn [disk trace] in Hc.
      destruct Hc as [[? [_ [E _]]] | [[Ed [E ->]] | [En [[e' [_ ->]] | [[audio' [Ea [Et [Ed [E ->]]]]] | [? [? [_ [_ [_ [E _]]]]]]]]]]];
        try discriminate E.
      - injection E as ->. apply run_entry_dir; assumption.
      - rewrite <- app_assoc. cbn [app].
        apply run_transcription_failed; assumption.
      - injection E as ->. rewrite lookup_store_eq in Ea. injection Ea as <-.
        rewrite <- app_assoc in Et. cbn [app] in Et.
        rewrite <- (app_assoc (trace w)). cbn [app].
        apply run_without_text; assumption. }
    apply transcribe_audio_inv in Hc. cbn [disk trace] in Hc.
    destruct Hc as [[text [Eh [E ->]]] | [[_ [E _]] | [En [[? [E _]] | [[? [_ [_ [_ [E _]]]]] | [audio' [text [Ea [Et [Ed [E ->]]]]]]]]]]];
      try discriminate E; injection E as ->.
    + unfold bind in H. rewrite remove_eval in H. cbn [disk trace] in H.
      rewrite lookup_store_eq in H. cbn in H. injection H as <- <-.
      rewrite <- app_assoc. cbn [app]. apply run_entry_found; assumption.
    + unfold bind in H. rewrite remove_eval in H. cbn [disk trace] in H.
      rewrite lookup_store_eq in Ea. injection Ea as <-.
      rewrite <- app_assoc in Et. cbn [app] in Et.
      assert (Hf : exists x, FS.lookup (to_wav f)
                (FS.store (transcript_path cfg (to_wav f))
                   (File (universal_newlines text))
                   (FS.store (to_wav f) (File audio) (disk w))) = Some (File x)).
      { rewrite lookup_store.
        destruct (transcript_path cfg (to_wav f) =? to_wav f); [eauto|].
        rewrite lookup_store_eq. eauto. }
      destruct Hf as [x Hf]. rewrite Hf in H. cbn in H. injection H as <- <-.
      rewrite <- (app_assoc (trace w)). cbn [app]. rewrite app_one_one.
      apply run_transcribed; assumption.
Qed.

(** *** The conversion path, step by step *)

Lemma convert_ok (f audio : string) (w : world) :
  convertible svc f (disk w) audio ->
  convert_m4a_to_wav svc f w =
    (Ok (to_wav f),
     mkWorld (FS.store (to_wav f) (File audio) (disk w))
       (trace w ++ [EvConvert f; EvWrite (to_wav f) audio])).
Proof.
  intros [src [Lf [Dc [Pd Nd]]]].
  unfold convert_m4a_to_wav, bind, emit, read_text. cbn [disk trace].
  rewrite Lf, Dc. rewrite write_bytes_eval. cbn [disk trace]. rewrite Pd.
  rewrite app_one_one.
  destruct (FS.lookup (to_wav f) (disk w)) as [[?|]|];
    [reflexivity | congruence | reflexivity].
Qed.

Lemma process_file_miss (f audio : string) (w : world) :
  FS.lookup (transcript_path cfg f) (disk w) = None ->
  convertible svc f (disk w) audio ->
  process_file cfg svc f w =
    (transcription <- transcribe_audio cfg svc (to_wav f) ;;
     remove (to_wav f) ;; ret transcription)
      (mkWorld (FS.store (to_wav f) (File audio) (disk w))
         (trace w ++ [EvConvert f; EvWrite (to_wav f) audio])).
Proof.
  intros C Cv. unfold process_file. unfold bind at 1. unfold path_exists at 1.
  rewrite C. unfold bind at 1. rewrite (convert_ok f audio w Cv). reflexivity.
Qed.

Lemma transcribe_audio_hit (p text : string) (v : world) :
  FS.lookup (transcript_path cfg p) (disk v) = Some (File text) ->
  transcribe_audio cfg svc p v = (Ok text, v).
Proof.
  intros H. unfold transcribe_audio, bind, path_exists, read_text.
  rewrite H. cbn iota. rewrite H. reflexivity.
Qed.

Lemma transcribe_audio_miss (p audio : string) (v : world) :
  FS.lookup (transcript_path cfg p) (disk v) = None ->
  FS.lookup p (disk v) = Some (File audio) ->
  let asked := mkWorld (disk v) (trace v ++ [EvTranscribe p]) in
  transcribe_audio cfg svc p v =
    match transcription_service svc (trace asked) audio with
    | None => (Raise TranscriptionError, asked)
    | Some transcription =>
        match transcript_text transcription with
        | Some text =>
            (write_text (transcript_path cfg p) text ;; ret text) asked
        | None =>
            (write_text (transcript_path cfg p) "" ;; raise TypeError) asked
        end
    end.
Proof.
  intros E A. cbn zeta.
  unfold transcribe_audio. unfold bind at 1. unfold path_exists at 1. rewrite E.
  unfold bind at 1. unfold transcribe, bind, emit, read_text. cbn [disk trace].
  rewrite A. cbn [trace].
  destruct (transcription_service svc (trace v ++ [EvTranscribe p]) audio)
    as [[[text|]]|]; reflexivity.
Qed.

(** *** Where a task writes *)

Lemma transcript_path_txt (p : string) :
  endswith (transcript_path cfg p) ".txt" = true.
Proof.
  unfold transcript_path. apply join_endswith. apply endswith_app. reflexivity.
Qed.

Lemma transcript_path_not_wav (p f : string) :
  endswith f ".m4a" = true -> transcript_path cfg p <> to_wav f.
Proof.
  intros H E. pose proof (transcript_path_txt p) as T.
  rewrite E in T. apply endswith_txt_not_wav in T.
  rewrite (to_wav_ends_wav f H) in T. discriminate.
Qed.

Lemma transcript_path_inj (p q : string) :
  transcript_path cfg p = transcript_path cfg q -> basename p = basename q.
Proof.
  unfold transcript_path. intros H. apply join_inj in H.
  - apply (append_inv_tail _ _ ".txt" ".txt" H eq_refl).
  - rewrite has_slash_app, basename_has_no_slash. reflexivity.
  - rewrite has_slash_app, basename_has_no_slash. reflexivity.
Qed.

(** The entry [process_file] looks for is not the entry a task writes. *)
Lemma source_key_is_no_entry (f g : string) :
  endswith (basename f) ".m4a" = true ->
  transcript_path cfg f <> transcript_path cfg (to_wav g).
Proof.
  intros H E. apply transcript_path_inj in E. rewrite E in H.
  apply basename_endswith in H. rewrite to_wav_not_m4a in H. discriminate.
Qed.

Lemma wav_of_itself (f : string) : is_wav_of [f] (to_wav f).
Proof. exists f. split; [left|]; reflexivity. Qed.

Lemma entry_of_itself (f : string) :
  is_entry_of cfg [f] (transcript_path cfg (to_wav f)).
Proof. exists f. split; [left|]; reflexivity. Qed.

(** Appending one effect at the end of a chain of steps. *)
Lemma then_emit (F : list string) (w0 : world) (fs : filesystem)
    (tr : list event) (e : event) :
  task_step cfg F w0 (mkWorld fs tr) -> task_event cfg F e ->
  task_step cfg F w0 (mkWorld fs (tr ++ [e])).
Proof.
  intros S H. eapply task_step_trans; [exact S|].
  apply (trace_step cfg F (mkWorld fs tr) e H).
Qed.

Lemma then_write (F : list string) (w0 : world) (fs : filesystem)
    (tr : list event) (p content text : string) :
  task_step cfg F w0 (mkWorld fs tr) ->
  is_wav_of F p \/ is_entry_of cfg F p ->
  endswith p ".m4a" = false ->
  endswith p ".wav" = true \/ FS.lookup p fs = None ->
  FS.lookup p fs <> Some Dir ->
  task_step cfg F w0
    (mkWorld (FS.store p (File content) fs) (tr ++ [EvWrite p text])).
Proof.
  intros S T M N D. eapply task_step_trans; [exact S|].
  apply (write_step cfg F p content text (mkWorld fs tr)); assumption.
Qed.

Lemma then_remove (F : list string) (w0 : world) (fs : filesystem)
    (tr : list event) (p : string) :
  task_step cfg F w0 (mkWorld fs tr) ->
  is_wav_of F p -> endswith p ".wav" = true -> FS.lookup p fs <> Some Dir ->
  task_step cfg F w0 (mkWorld (FS.delete p fs) (tr ++ [EvRemove p])).
Proof.
  intros S T W D. eapply task_step_trans; [exact S|].
  apply (remove_step cfg F p (mkWorld fs tr)); assumption.
Qed.

Lemma snoc2 {A : Type} (l : list A) (a b : A) :
  (l ++ [a; b] = (l ++ [a]) ++ [b])%list.
Proof. rewrite <- app_assoc. reflexivity. Qed.

Lemma snoc3 {A : Type} (l : list A) (a b c : A) :
  (l ++ [a; b; c] = ((l ++ [a]) ++ [b]) ++ [c])%list.
Proof. rewrite <- !app_assoc. reflexivity. Qed.

(** Whatever the result, a task for an [.m4a] file stays within its
    footprint. *)
Lemma process_file_run_step (f : string) (w w' : world) (r : result string) :
  endswith f ".m4a" = true ->
  process_file_run cfg svc f w r w' -> task_step cfg [f] w w'.
Proof.
  intros M R.
  pose proof (to_wav_ends_wav f M) as Ww.
  pose proof (endswith_wav_not_m4a _ Ww) as Wm.
  pose proof (transcript_path_txt (to_wav f)) as Et.
  pose proof (endswith_txt_not_m4a _ Et) as Em.
  pose proof (transcript_path_not_wav (to_wav f) f M) as Ne.
  assert (S0 : task_step cfg [f] w (mkWorld (disk w) (trace w)))
    by (destruct w; apply task_step_refl).
  assert (Ev : forall e, In e [EvConvert f; EvTranscribe (to_wav f)] ->
                         task_event cfg [f] e).
  { intros e [<-|[<-|[]]]; cbn; [left; reflexivity | apply wav_of_itself]. }
  destruct R as [text Hc | Hc | e Hc | audio text wav fs Hc Cv He
                | audio wav fs Hc Cv He | audio e wav fs Hc Cv He
                | audio wav fs entry before Hc Cv He Hs Hp
                | audio text wav fs entry before Hc Cv He Hs Hp].
  - apply task_step_refl.
  - apply task_step_refl.
  - apply then_emit; [exact S0 | apply Ev; cbn; auto].
  - destruct Cv as [src [_ [_ [_ Nd]]]]. subst wav fs. rewrite snoc3.
    apply then_remove; [|apply wav_of_itself | exact Ww |
                        rewrite lookup_store_eq; discriminate].
    apply then_write; [|left; apply wav_of_itself | exact Wm | left; exact Ww | exact Nd].
    apply then_emit; [exact S0 | apply Ev; cbn; auto].
  - destruct Cv as [src [_ [_ [_ Nd]]]]. subst wav fs. rewrite snoc2.
    apply then_write; [|left; apply wav_of_itself | exact Wm | left; exact Ww | exact Nd].
    apply then_emit; [exact S0 | apply Ev; cbn; auto].
  - destruct Cv as [src [_ [_ [_ Nd]]]]. subst wav fs. rewrite snoc3.
    apply then_emit; [|apply Ev; cbn; auto].
    apply then_write; [|left; apply wav_of_itself | exact Wm | left; exact Ww | exact Nd].
    apply then_emit; [exact S0 | apply Ev; cbn; auto].
  - destruct Cv as [src [_ [_ [_ Nd]]]]. subst wav fs entry before.
    rewrite snoc3.
    apply then_write; [|right; apply entry_of_itself | exact Em | right; exact He |
                        rewrite He; discriminate].
    apply then_emit; [|apply Ev; cbn; auto].
    apply then_write; [|left; apply wav_of_itself | exact Wm | left; exact Ww | exact Nd].
    apply then_emit; [exact S0 | apply Ev; cbn; auto].
  - destruct Cv as [src [_ [_ [_ Nd]]]]. subst wav fs entry before.
    rewrite snoc3, snoc2.
    apply then_remove; [|apply wav_of_itself | exact Ww |].
    2:{ rewrite lookup_store_ne by exact Ne. rewrite lookup_store_eq.
        discriminate. }
    apply then_write; [|right; apply entry_of_itself | exact Em | right; exact He |
                        rewrite He; discriminate].
    apply then_emit; [|apply Ev; cbn; auto].
    apply then_write; [|left; apply wav_of_itself | exact Wm | left; exact Ww | exact Nd].
    apply then_emit; [exact S0 | apply Ev; cbn; auto].
Qed.

Lemma process_file_step (f : string) (w w' : world) (r : result string) :
  endswith f ".m4a" = true ->
  process_file cfg svc f w = (r, w') -> task_step cfg [f] w w'.
Proof.
  intros M H. eapply process_file_run_step; [exact M|].
  apply process_file_sound. exact H.
Qed.

End ProcessFile.

(* ================================================================= *)
(** ** The worker pool and the gathering of its results *)

Lemma set_nth_length {A : Type} (i : nat) (x : A) (l : list A) :
  List.length (set_nth i x l) = List.length l.
Proof.
  revert i. induction l as [|y l IH]; intros [|i]; cbn; try reflexivity.
  rewrite IH. reflexivity.
Qed.

Lemma nth_error_set_nth_eq {A : Type} (i : nat) (x : A) (l : list A) :
  i < List.length l -> nth_error (set_nth i x l) i = Some x.
Proof.
  revert i. induction l as [|y l IH]; intros [|i] H; cbn in *; try lia.
  - reflexivity.
  - apply IH. lia.
Qed.

Lemma nth_error_set_nth_ne {A : Type} (i j : nat) (x : A) (l : list A) :
  i <> j -> nth_error (set_nth i x l) j = nth_error l j.
Proof.
  revert i j. induction l as [|y l IH]; intros [|i] [|j] H; cbn; try reflexivity.
  - congruence.
  - apply IH. congruence.
Qed.

Section PoolRule.

Variable tasks : list (M string).
Variable Inv : world -> Prop.
Variable Post : nat -> result string -> world -> Prop.

Hypothesis task_ok : forall i task w r w',
  nth_error tasks i = Some task -> Inv w -> task w = (r, w') ->
  Inv w' /\ Post i r w' /\ (forall j rj, Post j rj w -> Post j rj w').

(** An invariant of the tasks holds when the pool is done, every future
    that is done satisfies the postcondition of its own task, and the tasks
    the pool picked are done. *)
Lemma run_pool_rule (order : list nat) :
  forall (futures : list outcome) w (futures' : list outcome) w',
    Inv w ->
    (forall j rj, nth_error futures j = Some (Some rj) -> Post j rj w) ->
    run_pool order tasks futures w = (futures', w') ->
    Inv w' /\
    List.length futures' = List.length futures /\
    (forall j rj, nth_error futures' j = Some (Some rj) -> Post j rj w') /\
    (forall j rj, nth_error futures j = Some (Some rj) ->
                  nth_error futures' j = Some (Some rj)) /\
    (forall j, In j order -> j < List.length tasks -> j < List.length futures ->
               exists rj, nth_error futures' j = Some (Some rj)).
Proof.
  induction order as [|i rest IH]; intros futures w futures' w' I P H.
  - cbn in H. injection H as <- <-. repeat split; auto. intros j [].
  - cbn [run_pool] in H.
    destruct (nth_error tasks i) as [task|] eqn:Et.
    + destruct (nth_error futures i) as [[ri|]|] eqn:Ef.
      * destruct (IH _ _ _ _ I P H) as [I' [L [P' [Mo Co]]]].
        repeat split; auto. intros j [<-|Hj] Lt Lf; [eauto | auto].
      * destruct (task w) as [r w1] eqn:Er.
        destruct (task_ok i task w r w1 Et I Er) as [I1 [P1 St]].
        assert (Li : i < List.length futures)
          by (apply nth_error_Some; congruence).
        assert (P1' : forall j rj,
                   nth_error (set_nth i (Some r) futures) j = Some (Some rj) ->
                   Post j rj w1).
        { intros j rj Hj. destruct (Nat.eq_dec i j) as [<-|N].
          - rewrite nth_error_set_nth_eq in Hj by exact Li.
            injection Hj as <-. exact P1.
          - rewrite nth_error_set_nth_ne in Hj by exact N. apply St, P, Hj. }
        destruct (IH _ _ _ _ I1 P1' H) as [I' [L [P' [Mo Co]]]].
        rewrite set_nth_length in L, Co.
        repeat split; auto.
        -- intros j rj Hj. apply Mo. destruct (Nat.eq_dec i j) as [<-|N].
           ++ congruence.
           ++ rewrite nth_error_set_nth_ne by exact N. exact Hj.
        -- intros j [<-|Hj] Lt Lf; [|auto]. exists r. apply Mo.
           apply nth_error_set_nth_eq. exact Li.
      * destruct (IH _ _ _ _ I P H) as [I' [L [P' [Mo Co]]]].
        repeat split; auto. intros j [<-|Hj] Lt Lf; [|auto].
        apply nth_error_None in Ef. lia.
    + destruct (IH _ _ _ _ I P H) as [I' [L [P' [Mo Co]]]].
      repeat split; auto. intros j [<-|Hj] Lt Lf; [|auto].
      apply nth_error_None in Et. lia.
Qed.

End PoolRule.

Lemma gather_done (texts acc : list string) :
  gather (map (fun t => Some (Ok t)) texts) acc =
  Ok (acc ++ filter nonempty texts)%list.
Proof.
  revert acc. induction texts as [|t texts IH]; intros acc; cbn [map gather filter].
  - rewrite app_nil_r. reflexivity.
  - rewrite IH. unfold nonempty. destruct (t =? ""); cbn [negb].
    + reflexivity.
    + rewrite <- app_assoc. reflexivity.
Qed.

Lemma gather_ok_inv (futures : list outcome) (acc l : list string) :
  gather futures acc = Ok l ->
  exists texts, futures = map (fun t => Some (Ok t)) texts /\
                l = (acc ++ filter nonempty texts)%list.
Proof.
  revert acc. induction futures as [|[[t|e]|] futures IH]; intros acc H;
    cbn [gather] in H; try discriminate.
  - injection H as <-. exists []. rewrite app_nil_r. auto.
  - apply IH in H. destruct H as [texts [-> ->]]. exists (t :: texts).
    split; [reflexivity|]. cbn [filter]. unfold nonempty at 2.
    destruct (t =? ""); cbn [negb]; [reflexivity|].
    rewrite <- app_assoc. reflexivity.
Qed.

Lemma gather_failed (futures : list outcome) (acc : list string) (i : nat) (e : error) :
  nth_error futures i = Some (Some (Raise e)) ->
  exists e', gather futures acc = Raise e'.
Proof.
  revert acc i. induction futures as [|[[t|e0]|] futures IH]; intros acc i H.
  - destruct i; discriminate.
  - destruct i as [|i]; [discriminate|]. cbn [gather]. eapply IH. exact H.
  - eexists. reflexivity.
  - eexists. reflexivity.
Qed.

Lemma for_each_submit (file_paths : list string) (w : world) :
  for_each file_paths (fun file_path => emit (EvSubmit file_path)) w =
  (Ok tt, mkWorld (disk w) (trace w ++ map EvSubmit file_paths)).
Proof.
  revert w. induction file_paths as [|f l IH]; intros w; cbn [for_each map].
  - unfold ret. rewrite app_nil_r. destruct w; reflexivity.
  - unfold bind. cbn [emit]. unfold emit at 1. rewrite IH. cbn [disk trace].
    rewrite <- app_assoc. reflexivity.
Qed.

Section Batch.

Variable cfg : config.
Variable svc : services.
Import StrFacts FSFacts.

(** [transcribe_all] in terms of the futures the pool leaves. *)
Lemma transcribe_all_eval (sched : schedule) (w : world) :
  FS.lookup (incoming_bucket cfg) (disk w) = Some Dir ->
  transcribe_all cfg svc sched w =
  let tasks := map (process_file cfg svc) (submitted cfg w) in
  let run := run_pool (sched (List.length tasks)) tasks
               (repeat None (List.length tasks)) (after_submit cfg w) in
  match gather (fst run) [] with
  | Ok texts => (Ok (join_str (nl ++ nl) texts), snd run)
  | Raise e => (Raise e, snd run)
  end.
Proof.
  intros D. unfold transcribe_all. unfold bind at 1. unfold listdir.
  rewrite D. unfold bind. rewrite for_each_submit.
  unfold submitted, after_submit. cbn zeta.
  destruct (run_pool _ _ _ _) as [futures w']. reflexivity.
Qed.

Lemma transcribe_all_listed (sched : schedule) (w w' : world) (c : string) :
  transcribe_all cfg svc sched w = (Ok c, w') ->
  FS.lookup (incoming_bucket cfg) (disk w) = Some Dir.
Proof.
  unfold transcribe_all. unfold bind at 1. unfold listdir.
  destruct (FS.lookup (incoming_bucket cfg) (disk w)) as [[?|]|];
    [discriminate | reflexivity | discriminate].
Qed.

Lemma children_are_names (d n : string) (fs : filesystem) :
  In n (FS.children d fs) ->
  n <> "" /\ has_slash n = false /\ FS.lookup (join d n) fs <> None.
Proof.
  induction fs as [|[k x] fs IH]; cbn [FS.children]; [intros []|].
  destruct (child_name d k) as [m|] eqn:C.
  - intros [<-|H].
    + pose proof (child_name_join _ _ _ C) as J.
      apply child_name_iff in C. destruct C as [_ [N S]].
      repeat split; auto. rewrite J. cbn. rewrite String.eqb_refl. discriminate.
    + destruct (IH H) as [N [S L]]. repeat split; auto.
      cbn. destruct (k =? join d n); [discriminate | exact L].
  - intros H. destruct (IH H) as [N [S L]]. repeat split; auto.
    cbn. destruct (k =? join d n); [discriminate | exact L].
Qed.

(** The submitted files are the [.m4a] entries of the incoming bucket. *)
Lemma submitted_inv (w : world) (f : string) :
  In f (submitted cfg w) ->
  exists filename,
    f = join (incoming_bucket cfg) filename /\
    endswith filename ".m4a" = true /\
    filename <> "" /\ has_slash filename = false /\
    FS.lookup f (disk w) <> None.
Proof.
  unfold submitted, eligible. intros H. apply in_map_iff in H.
  destruct H as [n [<- H]]. apply filter_In in H. destruct H as [H E].
  apply children_are_names in H. destruct H as [N [S L]].
  exists n. auto.
Qed.

Lemma submitted_m4a (w : world) (f : string) :
  In f (submitted cfg w) -> endswith f ".m4a" = true.
Proof.
  intros H. apply submitted_inv in H. destruct H as [n [-> [E _]]].
  apply join_endswith. exact E.
Qed.

Lemma submitted_basename_m4a (w : world) (f : string) :
  In f (submitted cfg w) -> endswith (basename f) ".m4a" = true.
Proof.
  intros H. apply submitted_inv in H. destruct H as [n [-> [E [_ [S _]]]]].
  rewrite basename_join by exact S. exact E.
Qed.

Lemma submit_step (w : world) :
  task_step cfg (submitted cfg w) w (after_submit cfg w).
Proof.
  unfold after_submit. split; cbn [disk trace].
  - apply same_dirs_refl.
  - reflexivity.
  - auto.
  - reflexivity.
  - exists (map EvSubmit (submitted cfg w)). split; [reflexivity|].
    apply Forall_forall. intros e H. apply in_map_iff in H.
    destruct H as [f [<- H]]. exact H.
Qed.

(** The rule of the pool for the tasks [main] submits: an invariant of
    the tasks holds when the pool is done, and a postcondition of each task
    that later tasks cannot spoil holds of every future. *)
Lemma batch_rule (sched : schedule) (w : world)
    (Inv : world -> Prop) (Post : nat -> result string -> world -> Prop) :
  let F := submitted cfg w in
  let tasks := map (process_file cfg svc) F in
  let run := run_pool (sched (List.length tasks)) tasks
               (repeat None (List.length tasks)) (after_submit cfg w) in
  Inv (after_submit cfg w) ->
  (forall i f v r v',
      nth_error F i = Some f -> task_step cfg F w v -> Inv v ->
      process_file cfg svc f v = (r, v') -> Inv v' /\ Post i r v') ->
  (forall i r v v', Post i r v -> task_step cfg F v v' -> Post i r v') ->
  task_step cfg F w (snd run) /\ Inv (snd run) /\
  List.length (fst run) = List.length F /\
  (forall j rj, nth_error (fst run) j = Some (Some rj) -> Post j rj (snd run)) /\
  (fair sched -> forall j, j < List.length F ->
                 exists rj, nth_error (fst run) j = Some (Some rj)).
Proof.
  intros F tasks run Hinv Hpost Hstable.
  destruct run as [futures w'] eqn:Er. cbn [fst snd].
  assert (Hrule := run_pool_rule tasks (fun v => task_step cfg F w v /\ Inv v) Post).
  assert (Htask : forall i task v r v',
             nth_error tasks i = Some task -> task_step cfg F w v /\ Inv v ->
             task v = (r, v') ->
             (task_step cfg F w v' /\ Inv v') /\ Post i r v' /\
             (forall j rj, Post j rj v -> Post j rj v')).
  { intros i task v r v' Ht [Sv Iv] Hr. unfold tasks in Ht.
    rewrite nth_error_map in Ht.
    destruct (nth_error F i) as [f|] eqn:Ef; [|discriminate].
    cbn in Ht. injection Ht as <-.
    assert (Sf : task_step cfg F v v').
    { apply (task_step_mono cfg [f] F).
      - intros g [<-|[]]. eapply nth_error_In. exact Ef.
      - eapply process_file_step; [|exact Hr].
        apply (submitted_m4a w). eapply nth_error_In. exact Ef. }
    destruct (Hpost i f v r v' Ef Sv Iv Hr) as [Iv' Pv'].
    split; [split|split].
    - eapply task_step_trans; eassumption.
    - exact Iv'.
    - exact Pv'.
    - intros j rj Pj. eapply Hstable; eassumption. }
  specialize (Hrule Htask (sched (List.length tasks))
                (repeat None (List.length tasks)) (after_submit cfg w)
                futures w' (conj (submit_step w) Hinv)).
  destruct Hrule as [[I I'] [L [P [_ Co]]]].
  - intros j rj Hj. exfalso.
    assert (In (Some rj) (repeat (@None (result string)) (List.length tasks)))
      by (eapply nth_error_In; exact Hj).
    apply repeat_spec in H. discriminate.
  - exact Er.
  - rewrite repeat_length in L, Co. unfold tasks in L, Co.
    rewrite length_map in L, Co.
    split; [exact I | split; [exact I' | split; [exact L | split; [exact P|]]]].
    intros Fair j Hj. apply Co; auto.
Qed.

(** A future holds a result of the task of the file submitted at its
    position. *)
Lemma future_of_its_task (sched : schedule) (w : world) (i : nat)
    (r : result string) :
  nth_error (futures_of cfg svc sched w) i = Some (Some r) ->
  exists f v v',
    nth_error (submitted cfg w) i = Some f /\
    process_file cfg svc f v = (r, v').
Proof.
  intros H.
  destruct (batch_rule sched w (fun _ => True)
              (fun i r _ => exists f v v',
                   nth_error (submitted cfg w) i = Some f /\
                   process_file cfg svc f v = (r, v')))
    as [_ [_ [_ [P _]]]].
  - exact I.
  - intros j f v r' v' Hf _ _ Hr. split; [exact I | eauto].
  - auto.
  - apply P. exact H.
Qed.

End Batch.

(* ================================================================= *)
(** ** The finalizer *)

Section Finalizer.

Variable cfg : config.
Variable svc : services.
Import StrFacts FSFacts.

Lemma lookup_delete_all (removed : list string) (fs : filesystem) (q : string) :
  FS.lookup q (fold_left (fun fs p => FS.delete p fs) removed fs) =
  if existsb (String.eqb q) removed then None else FS.lookup q fs.
Proof.
  revert fs. induction removed as [|p removed IH]; intros fs; cbn [fold_left existsb].
  - reflexivity.
  - rewrite IH, lookup_delete. rewrite (String.eqb_sym q p).
    destruct (p =? q); cbn [orb]; [|reflexivity].
    destruct (existsb (String.eqb q) removed); reflexivity.
Qed.

Lemma is_file_delete (p q : string) (fs : filesystem) :
  FS.is_file q (FS.delete p fs) = true -> FS.is_file q fs = true.
Proof.
  unfold FS.is_file. rewrite lookup_delete. destruct (p =? q); [discriminate | auto].
Qed.

(** The body of a clearing loop: it removes the regular files among the
    listed names and never raises. *)
Lemma clear_loop (d : string) (names : list string) :
  forall v, exists removed,
    for_each names (fun filename =>
      regular <- path_isfile (join d filename) ;;
      if regular then remove (join d filename) else ret tt) v =
    (Ok tt, mkWorld (fold_left (fun fs p => FS.delete p fs) removed (disk v))
              (trace v ++ map EvRemove removed)) /\
    (forall p, In p removed ->
               exists n, In n names /\ p = join d n /\ FS.is_file p (disk v) = true) /\
    (forall n, In n names -> FS.is_file (join d n) (disk v) = true ->
               In (join d n) removed).
Proof.
  induction names as [|n names IH]; intros v.
  - exists []. cbn. rewrite app_nil_r. destruct v. repeat split; auto.
    intros p [].
  - cbn [for_each]. unfold bind at 1. unfold bind at 1.
    unfold path_isfile at 1.
    destruct (FS.is_file (join d n) (disk v)) eqn:E.
    + rewrite remove_eval. pose proof E as E'. unfold FS.is_file in E'.
      destruct (FS.lookup (join d n) (disk v)) as [[text|]|]; try discriminate.
      destruct (IH (mkWorld (FS.delete (join d n) (disk v))
                      (trace v ++ [EvRemove (join d n)]))) as [removed [H [A B]]].
      exists (join d n :: removed). cbn [disk trace] in *. rewrite H.
      cbn [fold_left map]. rewrite <- app_assoc. split; [reflexivity|]. split.
      * intros p [<-|Hp].
        -- exists n. repeat split; auto. left. reflexivity.
        -- destruct (A p Hp) as [m [Hm [-> F]]]. exists m.
           repeat split; [right; exact Hm|]. eapply is_file_delete. exact F.
      * intros m [<-|Hm] F; [left; reflexivity|].
        destruct (String.eqb_spec (join d n) (join d m)) as [Q|N];
          [left; exact Q|]. right. apply B; [exact Hm|].
        unfold FS.is_file in *. rewrite lookup_delete_ne by exact N. exact F.
    + change (ret tt v) with (Ok tt, v). cbn iota beta.
      destruct (IH v) as [removed [H [A B]]].
      exists removed. rewrite H. split; [reflexivity|]. split.
      * intros p Hp. destruct (A p Hp) as [m [Hm Q]]. exists m.
        split; [right; exact Hm | exact Q].
      * intros m [<-|Hm] F; [congruence | auto].
Qed.

(** [clear_directory d] on a directory: the regular files directly inside
    are removed, in the order of the listing, and nothing else changes. *)
Lemma clear_directory_ok (d : string) (v : world) :
  FS.lookup d (disk v) = Some Dir ->
  exists removed,
    clear_directory d v =
    (Ok tt, mkWorld (fold_left (fun fs p => FS.delete p fs) removed (disk v))
              (trace v ++ map EvRemove removed)) /\
    (forall p, In p removed ->
               exists n, child_name d p = Some n /\ FS.is_file p (disk v) = true) /\
    (forall p n, child_name d p = Some n -> FS.is_file p (disk v) = true ->
                 In p removed).
Proof.
  intros D. unfold clear_directory. unfold bind at 1. unfold listdir. rewrite D.
  destruct (clear_loop d (FS.children d (disk v)) v) as [removed [H [A B]]].
  exists removed. split; [exact H|]. split.
  - intros p Hp. destruct (A p Hp) as [n [Hn [-> F]]]. exists n.
    apply children_are_names in Hn. destruct Hn as [N [S _]].
    split; [apply child_name_of_join; assumption | exact F].
  - intros p n C F. rewrite <- (child_name_join _ _ _ C). apply B.
    + eapply children_present; [|exact C]. unfold FS.is_file in F.
      destruct (FS.lookup p (disk v)); [discriminate | discriminate F].
    + rewrite (child_name_join _ _ _ C). exact F.
Qed.

Lemma clear_directory_inv (d : string) (v v' : world) (r : result unit) :
  clear_directory d v = (r, v') ->
  (exists e, r = Raise e /\ v' = v /\ FS.lookup d (disk v) <> Some Dir) \/
  (exists removed,
      r = Ok tt /\ FS.lookup d (disk v) = Some Dir /\
      v' = mkWorld (fold_left (fun fs p => FS.delete p fs) removed (disk v))
             (trace v ++ map EvRemove removed) /\
      (forall p, In p removed ->
                 exists n, child_name d p = Some n /\ FS.is_file p (disk v) = true) /\
      (forall p n, child_name d p = Some n -> FS.is_file p (disk v) = true ->
                   In p removed)).
Proof.
  destruct (FS.lookup d (disk v)) as [[?|]|] eqn:D.
  - unfold clear_directory, bind, listdir. rewrite D. intros [= <- <-].
    left. eexists. repeat split; discriminate.
  - destruct (clear_directory_ok d v D) as [removed [H [A B]]].
    rewrite H. intros [= <- <-]. right. exists removed. auto.
  - unfold clear_directory, bind, listdir. rewrite D. intros [= <- <-].
    left. eexists. repeat split; discriminate.
Qed.

Lemma move_inv (src dst : string) (v v' : world) (r : result unit) :
  move src dst v = (r, v') ->
  (exists e, r = Raise e /\ v' = v) \/
  (exists text,
      r = Ok tt /\ FS.lookup src (disk v) = Some (File text) /\
      let real_dst := move_target src dst (disk v) in
      FS.lookup real_dst (disk v) <> Some Dir /\
      ((src = real_dst /\
        v' = mkWorld (disk v) (trace v ++ [EvMove src real_dst])) \/
       (src <> real_dst /\
        v' = mkWorld (FS.store real_dst (File text) (FS.delete src (disk v)))
               (trace v ++ [EvMove src real_dst])))).
Proof.
  unfold move, move_target, FS.is_dir. cbn zeta.
  destruct (FS.lookup dst (disk v)) as [[dt|]|] eqn:Ed.
  1,3: (destruct (FS.lookup src (disk v)) as [[text|]|] eqn:Es;
          try solve [intros [= <- <-]; left; eauto];
        destruct (String.eqb_spec src dst) as [->|N];
          [ unfold emit; intros [= <- <-]; right; exists text;
            repeat split; auto; congruence
          | unfold bind, check_parent, set_disk, emit;
            destruct (FS.lookup (dirname dst) (disk v)) as [[?|]|];
              try solve [intros [= <- <-]; left; eauto];
            cbn [disk trace]; intros [= <- <-]; right; exists text;
            repeat split; auto; congruence ]).
  destruct (FS.lookup (join dst (basename src)) (disk v)) eqn:Et;
    [intros [= <- <-]; left; eauto|].
  destruct (FS.lookup src (disk v)) as [[text|]|] eqn:Es;
    try solve [intros [= <- <-]; left; eauto].
  destruct (String.eqb_spec src (join dst (basename src))) as [Q|N].
  - unfold emit. intros [= <- <-]. right. exists text.
    repeat split; auto; congruence.
  - unfold bind, check_parent, set_disk, emit.
    destruct (FS.lookup (dirname (join dst (basename src))) (disk v)) as [[?|]|];
      try solve [intros [= <- <-]; left; eauto].
    cbn [disk trace]. intros [= <- <-]. right. exists text.
    repeat split; auto; congruence.
Qed.

Lemma write_text_inv (p text : string) (v v' : world) (r : result unit) :
  write_text p text v = (r, v') ->
  (exists e, r = Raise e /\ v' = v) \/
  (r = Ok tt /\ writable p (disk v) /\
   v' = mkWorld (FS.store p (File (universal_newlines text)) (disk v))
          (trace v ++ [EvWrite p text])).
Proof.
  rewrite write_text_eval. unfold writable.
  destruct (FS.lookup (dirname p) (disk v)) as [[?|]|];
    try solve [intros [= <- <-]; left; eauto].
  destruct (FS.lookup p (disk v)) as [[?|]|];
    try solve [intros [= <- <-]; left; eauto];
    intros [= <- <-]; right; repeat split; auto; discriminate.
Qed.

(** [finalize] runs in one of the ways of [finalize_run]. *)
Lemma finalize_sound (summary : string) (v v' : world) (r : result unit) :
  finalize cfg summary v = (r, v') -> finalize_run cfg summary v r v'.
Proof.
  unfold finalize. intros H. inv_bind_as H u1 v1 Hc.
  { apply write_text_inv in Hc.
    destruct Hc as [[e' [_ ->]] | [E _]]; [|discriminate E].
    subst r. apply fin_write_failed. }
  apply write_text_inv in Hc.
  destruct Hc as [[e' [E _]] | [_ [Wr ->]]]; [discriminate E|].
  fold (summary_written cfg summary v) in H.
  inv_bind_as H u2 v2 Hc.
  { apply move_inv in Hc.
    destruct Hc as [[e' [_ ->]] | [? [E _]]]; [|discriminate E].
    subst r. apply fin_move_failed. exact Wr. }
  assert (Mv : exists text, moved cfg text (summary_written cfg summary v) v2).
  { apply move_inv in Hc. destruct Hc as [[e' [E _]] | [text [_ [Es [Nd Hv]]]]];
      [discriminate E|]. exists text. unfold moved. auto. }
  destruct Mv as [text Mv]. clear Hc.
  inv_bind_as H u3 v3 Hc.
  { apply clear_directory_inv in Hc.
    destruct Hc as [[e' [_ [-> _]]] | [? [E _]]]; [|discriminate E].
    subst r. eapply fin_incoming_failed; eassumption. }
  apply clear_directory_inv in Hc.
  destruct Hc as [[e' [E _]] | [ins [_ [Di [-> [A B]]]]]]; [discriminate E|].
  fold (cleared ins v2) in H.
  assert (Ci : clears (incoming_bucket cfg) v2 ins) by (unfold clears; auto).
  apply clear_directory_inv in H.
  destruct H as [[e' [-> [-> _]]] | [caches [-> [Dc [-> [A' B']]]]]].
  - eapply fin_cache_failed; eassumption.
  - fold (cleared caches (cleared ins v2)).
    eapply fin_done; try eassumption. unfold clears. auto.
Qed.

End Finalizer.

(* ================================================================= *)
(** ** The stages of [main] *)

Section Stages.

Variable cfg : config.
Variable svc : services.
Import StrFacts FSFacts.

Lemma generate_summary_inv (c : string) (v v' : world) (r : result string) :
  generate_summary_and_action svc c v = (r, v') ->
  v' = mkWorld (disk v) (trace v ++ [EvSummarize c]) /\
  ((completion_service svc (trace v') (prompt_of c) = None /\ r = Raise SummaryError) \/
   (exists content, completion_service svc (trace v') (prompt_of c) = Some content /\
                    r = Ok (strip content))).
Proof.
  unfold generate_summary_and_action, bind, emit. cbn [disk trace].
  destruct (completion_service svc (trace v ++ [EvSummarize c]) (prompt_of c))
    as [content|] eqn:E; intros [= <- <-]; cbn [trace]; rewrite E; eauto.
Qed.

Lemma combined_transcription_inv (sched : schedule) (w v : world) (r : result string) :
  combined_transcription cfg svc sched w = (r, v) ->
  let artifact := consolidated_transcript_file cfg in
  (exists text, FS.lookup artifact (disk w) = Some (File text) /\ r = Ok text /\ v = w) \/
  (FS.lookup artifact (disk w) = Some Dir /\ r = Raise IsADirectoryError /\ v = w) \/
  (FS.lookup artifact (disk w) = None /\
   ((exists e, r = Raise e /\ transcribe_all cfg svc sched w = (Raise e, v)) \/
    (exists c v0,
        transcribe_all cfg svc sched w = (Ok c, v0) /\
        ((exists e, r = Raise e /\ v = v0) \/
         (r = Ok c /\ writable artifact (disk v0) /\
          v = mkWorld (FS.store artifact (File (universal_newlines c)) (disk v0))
                (trace v0 ++ [EvWrite artifact c])))))).
Proof.
  unfold combined_transcription. unfold bind at 1. unfold path_exists.
  destruct (FS.lookup (consolidated_transcript_file cfg) (disk w)) as [[text|]|] eqn:E;
    cbn zeta.
  - unfold read_text. rewrite E. intros [= <- <-]. left. eauto.
  - unfold read_text. rewrite E. intros [= <- <-]. right. left. auto.
  - intros H. right. right. split; [reflexivity|].
    inv_bind_as H c v0 Hc; [left; subst r; eauto|].
    right. exists c, v0. split; [exact Hc|].
    inv_bind_as H u v1 Hw.
    + apply write_text_inv in Hw.
      destruct Hw as [[e' [_ ->]] | [Q _]]; [|discriminate Q]. left. eauto.
    + apply write_text_inv in Hw.
      destruct Hw as [[e' [Q _]] | [_ [Wr ->]]]; [discriminate Q|].
      injection H as <- <-. right. auto.
Qed.

Lemma finalize_run_trace (summary : string) (v v' : world) (r : result unit) :
  finalize_run cfg summary v r v' ->
  exists evs, trace v' = (trace v ++ evs)%list /\
              Forall (fun e => ~ pipeline_event e) evs.
Proof.
  assert (Rm : forall l, Forall (fun e => ~ pipeline_event e) (map EvRemove l)).
  { intros l. apply Forall_forall. intros e H. apply in_map_iff in H.
    destruct H as [p [<- _]]. cbn. auto. }
  assert (Mv : forall text u u2, moved cfg text u u2 ->
             exists dst, trace u2 = (trace u ++ [EvMove (consolidated_transcript_file cfg) dst])%list).
  { intros text u u2 [_ [_ [[_ ->] | [_ ->]]]]; eexists; reflexivity. }
  intros R. destruct R as [e | e Wr | e text v2 Wr M | e text v2 ins Wr M Ci
                          | text v2 ins caches Wr M Ci Cc].
  - exists []. rewrite app_nil_r. split; [reflexivity | constructor].
  - eexists. split; [reflexivity|]. repeat constructor. cbn. auto.
  - destruct (Mv _ _ _ M) as [dst ->]. cbn [summary_written trace].
    rewrite <- app_assoc. eexists. split; [reflexivity|].
    repeat constructor; cbn; auto.
  - destruct (Mv _ _ _ M) as [dst E]. cbn [cleared trace]. rewrite E.
    cbn [summary_written trace]. rewrite <- !app_assoc.
    eexists. split; [reflexivity|].
    constructor; [cbn; auto|]. constructor; [cbn; auto|]. apply Rm.
  - destruct (Mv _ _ _ M) as [dst E]. cbn [cleared trace]. rewrite E.
    cbn [summary_written trace]. rewrite <- !app_assoc.
    eexists. split; [reflexivity|].
    constructor; [cbn; auto|]. constructor; [cbn; auto|].
    apply Forall_app. split; apply Rm.
Qed.

Lemma combined_transcription_ok (sched : schedule) (w v : world) (c : string) :
  combined_transcription cfg svc sched w = (Ok c, v) ->
  FS.lookup (consolidated_transcript_file cfg) (disk v) =
  Some (File (consolidated_text cfg w c)).
Proof.
  intros H. apply combined_transcription_inv in H. cbn zeta in H.
  unfold consolidated_text.
  destruct H as [[text [E [[= ->] ->]]] | [[_ [E _]] | [N [[e [E _]] | [c' [v0 [T [[e [E _]] | [E [Wr ->]]]]]]]]]];
    try discriminate E; [rewrite E; reflexivity|].
  injection E as <-. rewrite N. cbn [disk]. apply lookup_store_eq.
Qed.

(** [shutil.move] of a regular file does not meet the case of [move]
    that is left out of the model. *)
Lemma move_of_a_file (src dst text : string) (v : world) :
  FS.lookup src (disk v) = Some (File text) ->
  fst (move src dst v) <> Raise DirectoryMove.
Proof.
  intros H. unfold move, move_target, FS.is_dir. cbn zeta.
  destruct (FS.lookup dst (disk v)) as [[?|]|]; rewrite ?H.
  1,3: (destruct (src =? dst); [discriminate|];
        unfold bind, check_parent;
        destruct (FS.lookup (dirname dst) (disk v)) as [[?|]|]; discriminate).
  destruct (FS.lookup (join dst (basename src)) (disk v)); [discriminate|].
  destruct (src =? join dst (basename src)); [discriminate|].
  unfold bind, check_parent.
  destruct (FS.lookup (dirname (join dst (basename src))) (disk v)) as [[?|]|];
    discriminate.
Qed.

(** What [main] moves is a regular file: the consolidated transcript it
    read or wrote, also once the summary is written. *)
Lemma main_moves_a_regular_file (sched : schedule) (w v v1 : world)
    (c summary : string) (tr : list event) :
  combined_transcription cfg svc sched w = (Ok c, v) ->
  write_text (summary_action_file cfg) summary (mkWorld (disk v) tr) = (Ok tt, v1) ->
  exists text,
    FS.lookup (consolidated_transcript_file cfg) (disk v1) = Some (File text).
Proof.
  intros H W. apply combined_transcription_ok in H.
  apply write_text_inv in W. destruct W as [[e [E _]] | [_ [_ ->]]];
    [discriminate E|]. cbn [disk]. rewrite lookup_store.
  destruct (summary_action_file cfg =? consolidated_transcript_file cfg); eauto.
Qed.

End Stages.

(* ================================================================= *)
(** ** The transcript cache and the consolidated transcript *)

Section CacheClaims.

Variable cfg : config.
Variable svc : services.
Import StrFacts FSFacts.

(** A task never creates the entry [process_file] looks for: what it
    persists is keyed by the name of the normalized audio. *)
Lemma source_key_stays_absent (f : string) (w w' : world) (r : result string) :
  endswith (basename f) ".m4a" = true ->
  process_file cfg svc f w = (r, w') ->
  FS.lookup (transcript_path cfg f) (disk w') =
  FS.lookup (transcript_path cfg f) (disk w).
Proof.
  intros B H. pose proof (basename_endswith _ _ B) as M.
  apply (step_frame cfg [f] w w' (process_file_step cfg svc f w w' r M H)).
  - intros [g [[<-|[]] E]]. exact (transcript_path_not_wav cfg f f M E).
  - intros [g [[<-|[]] E]]. exact (source_key_is_no_entry cfg f f B E).
Qed.

(** C1, on the code: after [process_file] ran on [a.m4a] without a cache
    entry, the transcript is persisted under [a.wav.txt], the name of the
    normalized audio, and there is no entry under the key [process_file]
    itself looks for, [a.m4a.txt], which is the one derived from the source
    filename; a second run converts the file again. *)
Theorem C1_entry_is_keyed_by_the_normalized_name :
  let cfg := default_config in
  let f := "./incoming_audio/a.m4a" in
  let run := process_file cfg demo_services f demo_fresh in
  fst run = Ok "text of wav(hello)" /\
  transcript_path cfg f = "./intermediate_transcripts/a.m4a.txt" /\
  FS.lookup "./intermediate_transcripts/a.m4a.txt" (disk (snd run)) = None /\
  FS.lookup "./intermediate_transcripts/a.wav.txt" (disk (snd run)) =
    Some (File "text of wav(hello)") /\
  In (EvConvert f)
     (trace (snd (process_file cfg demo_services f
                    (mkWorld (disk (snd run)) [])))).
Proof. vm_compute. repeat split; auto. Qed.

Lemma process_file_cache_hit (file_path text : string) (w : world) :
  FS.lookup (transcript_path cfg file_path) (disk w) = Some (File text) ->
  process_file cfg svc file_path w = (Ok text, w).
Proof.
  intros H. unfold process_file, bind, path_exists, read_text.
  rewrite H. cbn iota. rewrite H. reflexivity.
Qed.

(** C2: when the cache entry of a file exists, [process_file] returns the
    text of the entry and leaves the world as it is: the trace gets no
    event, so neither the Format Normalizer nor the Transcription Client is
    invoked. *)
Theorem C2_cached_file_is_only_read (file_path text : string) (w : world) :
  FS.lookup (transcript_path cfg file_path) (disk w) = Some (File text) ->
  process_file cfg svc file_path w = (Ok text, w).
Proof. apply process_file_cache_hit. Qed.

(** C4: when the consolidated transcript exists, the stage that produces
    it returns its content and leaves the world as it is, [main] is the
    Summarizer on that content followed by the finalizer, and the events of
    the run are the Summarizer's request on exactly that content and then no
    submission, conversion or transcription. *)
Theorem C4_existing_artifact_is_reused (sched : schedule) (content : string) (w : world) :
  FS.lookup (consolidated_transcript_file cfg) (disk w) = Some (File content) ->
  combined_transcription cfg svc sched w = (Ok content, w) /\
  main cfg svc sched w =
    (summary <- generate_summary_and_action svc content ;; finalize cfg summary) w /\
  exists rest,
    trace (snd (main cfg svc sched w)) = (trace w ++ EvSummarize content :: rest)%list /\
    Forall (fun e => ~ pipeline_event e) rest.
Proof.
  intros H.
  assert (C : combined_transcription cfg svc sched w = (Ok content, w)).
  { unfold combined_transcription, bind, path_exists, read_text.
    rewrite H. cbn iota. rewrite H. reflexivity. }
  assert (Mn : main cfg svc sched w =
    (summary <- generate_summary_and_action svc content ;; finalize cfg summary) w).
  { unfold main. unfold bind at 1. rewrite C. reflexivity. }
  split; [exact C|]. split; [exact Mn|]. rewrite Mn. unfold bind.
  destruct (generate_summary_and_action svc content w) as [r v] eqn:G.
  apply generate_summary_inv in G. destruct G as [-> G].
  destruct r as [summary|e].
  - destruct (finalize cfg summary _) as [r' v'] eqn:Fn.
    apply finalize_sound, finalize_run_trace in Fn.
    destruct Fn as [evs [T A]]. cbn [snd]. rewrite T. cbn [trace].
    exists evs. rewrite <- app_assoc. auto.
  - exists []. cbn [snd trace]. auto.
Qed.

(** What [transcribe_all] returns when every future holds a text. *)
Lemma transcribe_all_texts (sched : schedule) (w : world) (texts : list string) :
  FS.lookup (incoming_bucket cfg) (disk w) = Some Dir ->
  futures_of cfg svc sched w = map (fun t => Some (Ok t)) texts ->
  fst (transcribe_all cfg svc sched w) =
  Ok (join_str (nl ++ nl) (filter nonempty texts)).
Proof.
  intros D H. rewrite (transcribe_all_eval cfg svc sched w D). cbn zeta.
  unfold futures_of in H. rewrite H, gather_done. reflexivity.
Qed.

(** What the stage writes to the consolidated transcript. *)
Lemma consolidated_is_written (sched : schedule) (w w' : world) (c : string) :
  FS.lookup (consolidated_transcript_file cfg) (disk w) = None ->
  combined_transcription cfg svc sched w = (Ok c, w') ->
  fst (transcribe_all cfg svc sched w) = Ok c /\
  FS.lookup (consolidated_transcript_file cfg) (disk w') =
    Some (File (universal_newlines c)) /\
  (has_cr c = false ->
   FS.lookup (consolidated_transcript_file cfg) (disk w') = Some (File c)).
Proof.
  intros N H. apply combined_transcription_inv in H. cbn zeta in H.
  destruct H as [[text [E _]] | [[E _] | [_ [[e [E _]] | [c' [v0 [T [[e [E _]] | [E [_ ->]]]]]]]]]];
    try congruence; try discriminate E.
  injection E as <-. rewrite T. split; [reflexivity|].
  cbn [disk]. split; [apply lookup_store_eq|].
  intros Nc. rewrite lookup_store_eq, (universal_newlines_id c Nc). reflexivity.
Qed.

(** C9: the consolidated transcript is the blank-line join of the
    non-empty texts among the results, in the order of submission; a task
    whose text is empty contributes neither text nor separator.  The file
    holds that text as written: with its line ends translated, the very
    text when it holds no carriage return. *)
Theorem C9_empty_transcripts_are_omitted
    (sched : schedule) (w : world) (texts : list string) :
  FS.lookup (incoming_bucket cfg) (disk w) = Some Dir ->
  futures_of cfg svc sched w = map (fun t => Some (Ok t)) texts ->
  fst (transcribe_all cfg svc sched w) =
    Ok (join_str (nl ++ nl) (filter nonempty texts)) /\
  forall c w',
    FS.lookup (consolidated_transcript_file cfg) (disk w) = None ->
    combined_transcription cfg svc sched w = (Ok c, w') ->
    c = join_str (nl ++ nl) (filter nonempty texts) /\
    FS.lookup (consolidated_transcript_file cfg) (disk w') =
      Some (File (universal_newlines c)) /\
    (has_cr c = false ->
     FS.lookup (consolidated_transcript_file cfg) (disk w') = Some (File c)).
Proof.
  intros D H. pose proof (transcribe_all_texts sched w texts D H) as T.
  split; [exact T|]. intros c w' N C.
  destruct (consolidated_is_written sched w w' c N C) as [E L].
  split; [congruence | exact L].
Qed.

Lemma filter_nonempty_all (texts : list string) :
  (forall t, In t texts -> t <> "") -> filter nonempty texts = texts.
Proof.
  induction texts as [|t texts IH]; intros H; cbn [filter]; [reflexivity|].
  unfold nonempty at 1. destruct (String.eqb_spec t "") as [E|_]; cbn [negb].
  - exfalso. apply (H t); [left; reflexivity | exact E].
  - rewrite IH; [reflexivity|]. intros u Hu. apply H. right. exact Hu.
Qed.

(** C5, amended: when the tasks of the submitted files produce the
    non-empty texts [T1..TN] (the i-th text being a result of the task of
    the i-th submitted file), the consolidated transcript is
    [T1 + blank line + ... + TN] in the order of submission, whatever order
    the pool completes the tasks in.  The file holds that text as written:
    with its line ends translated, the very text when it holds no carriage
    return. *)
Theorem C5_nonempty_texts_in_submission_order
    (sched : schedule) (w : world) (texts : list string) :
  FS.lookup (incoming_bucket cfg) (disk w) = Some Dir ->
  futures_of cfg svc sched w = map (fun t => Some (Ok t)) texts ->
  (forall t, In t texts -> t <> "") ->
  fst (transcribe_all cfg svc sched w) = Ok (join_str (nl ++ nl) texts) /\
  (forall i t, nth_error texts i = Some t ->
     exists f v v', nth_error (submitted cfg w) i = Some f /\
                    process_file cfg svc f v = (Ok t, v')) /\
  forall c w',
    FS.lookup (consolidated_transcript_file cfg) (disk w) = None ->
    combined_transcription cfg svc sched w = (Ok c, w') ->
    c = join_str (nl ++ nl) texts /\
    FS.lookup (consolidated_transcript_file cfg) (disk w') =
      Some (File (universal_newlines c)) /\
    (has_cr c = false ->
     FS.lookup (consolidated_transcript_file cfg) (disk w') = Some (File c)).
Proof.
  intros D H Ne. pose proof (transcribe_all_texts sched w texts D H) as T.
  rewrite (filter_nonempty_all texts Ne) in T.
  split; [exact T|]. split.
  - intros i t Ht. apply (future_of_its_task cfg svc sched w i (Ok t)).
    rewrite H, nth_error_map, Ht. reflexivity.
  - intros c w' N C.
    destruct (consolidated_is_written sched w w' c N C) as [E L].
    split; [congruence | exact L].
Qed.

End CacheClaims.

(** C5 as stated fails: the tasks of three files produce a text, the empty
    text and a text, and the consolidated transcript is not the join of the
    three with blank lines. *)
Lemma C5_fails_with_an_empty_text :
  let texts := ["text of wav(hello)"; ""; "text of wav(world)"] in
  futures_of default_config demo_services reversed demo_silence =
    map (fun t => Some (Ok t)) texts /\
  fst (transcribe_all default_config demo_services reversed demo_silence) <>
    Ok (join_str (nl ++ nl) texts).
Proof. vm_compute. split; [reflexivity | discriminate]. Qed.
(* ================================================================= *)
(** ** The normalized audio *)

Section NormalizedAudio.

Variable cfg : config.
Variable svc : services.
Import StrFacts FSFacts.


End NormalizedAudio.

(* ================================================================= *)
(** ** A whole run *)

Section WholeRun.

Variable cfg : config.
Variable svc : services.
Import StrFacts FSFacts.

Lemma transcribe_all_step (sched : schedule) (w v : world) (r : result string) :
  transcribe_all cfg svc sched w = (r, v) ->
  task_step cfg (submitted cfg w) w v.
Proof.
  destruct (FS.lookup (incoming_bucket cfg) (disk w)) as [[?|]|] eqn:D.
  - unfold transcribe_all, bind, listdir. rewrite D. intros [= <- <-].
    apply task_step_refl.
  - rewrite (transcribe_all_eval cfg svc sched w D). cbn zeta.
    destruct (batch_rule cfg svc sched w (fun _ => True) (fun _ _ _ => True))
      as [S _]; auto.
    destruct (gather _ _); intros [= <- <-]; exact S.
  - unfold transcribe_all, bind, listdir. rewrite D. intros [= <- <-].
    apply task_step_refl.
Qed.

Lemma main_ok_inv (sched : schedule) (w w' : world) :
  main cfg svc sched w = (Ok tt, w') ->
  exists c v content text v2 ins caches,
    combined_transcription cfg svc sched w = (Ok c, v) /\
    completion_service svc (trace v ++ [EvSummarize c]) (prompt_of c) = Some content /\
    let u := mkWorld (disk v) (trace v ++ [EvSummarize c]) in
    let summary := strip content in
    writable (summary_action_file cfg) (disk u) /\
    moved cfg text (summary_written cfg summary u) v2 /\
    clears (incoming_bucket cfg) v2 ins /\
    clears (intermediate_transcripts cfg) (cleared ins v2) caches /\
    w' = cleared caches (cleared ins v2).
Proof.
  unfold main. intros H. inv_bind_as H c v Hc; [discriminate H|].
  inv_bind_as H s u Hs; [discriminate H|].
  apply generate_summary_inv in Hs.
  destruct Hs as [-> [[_ Q] | [content [Ec Q]]]]; [discriminate Q|].
  injection Q as ->. cbn [trace] in Ec.
  apply finalize_sound in H.
  inversion H as [ | | | | text v2 ins caches Wr Mv Ci Cc]; subst.
  exists c, v, content, text, v2, ins, caches. cbn zeta. auto 10.
Qed.

Lemma lookup_cleared (removed : list string) (v : world) (q : string) :
  FS.lookup q (disk (cleared removed v)) =
  if existsb (String.eqb q) removed then None else FS.lookup q (disk v).
Proof. apply lookup_delete_all. Qed.

Lemma clears_misses (d : string) (v : world) (removed : list string) (q : string) :
  clears d v removed -> child_name d q = None ->
  existsb (String.eqb q) removed = false.
Proof.
  intros [_ [A _]] N. destruct (existsb (String.eqb q) removed) eqn:E; [|reflexivity].
  apply existsb_exists in E. destruct E as [p [Hp Q]].
  apply String.eqb_eq in Q. subst p.
  destruct (A q Hp) as [n [C _]]. congruence.
Qed.




(** *** Where the configured paths lie *)

Hypothesis Hout : output_apart cfg = true.

Lemma apart_facts :
  clean (incoming_bucket cfg) = true /\
  clean (intermediate_transcripts cfg) = true /\
  clean (output_folder cfg) = true /\
  incoming_bucket cfg <> output_folder cfg /\
  intermediate_transcripts cfg <> output_folder cfg /\
  contains (incoming_bucket cfg) ".m4a" = false /\
  has_slash (datetime_prefix cfg) = false.
Proof.
  pose proof Hout as H. unfold output_apart in H.
  do 6 (apply andb_true_iff in H; destruct H as [H ?]).
  repeat match goal with
         | X : negb _ = true |- _ => apply negb_true_iff in X
         | X : (_ =? _) = false |- _ => apply String.eqb_neq in X
         end.
  repeat (split; [assumption|]). assumption.
Qed.

Lemma entry_is_cache_child (x : string) :
  child_name (intermediate_transcripts cfg) (transcript_path cfg x) =
  Some (basename x ++ ".txt").
Proof.
  unfold transcript_path. apply child_name_of_join.
  - destruct (basename x); discriminate.
  - rewrite has_slash_app, basename_has_no_slash. reflexivity.
Qed.

Lemma consolidated_is_cache_child :
  child_name (intermediate_transcripts cfg) (consolidated_transcript_file cfg) =
  Some "total_transcript.md".
Proof.
  unfold consolidated_transcript_file. apply child_name_of_join;
    [discriminate | reflexivity].
Qed.

Lemma transcript_is_output_child :
  child_name (output_folder cfg) (transcript_file cfg) =
  Some (datetime_prefix cfg ++ "-transcripts.md").
Proof.
  destruct apart_facts as [_ [_ [_ [_ [_ [_ Sp]]]]]].
  unfold transcript_file. apply child_name_of_join.
  - destruct (datetime_prefix cfg); discriminate.
  - rewrite has_slash_app, Sp. reflexivity.
Qed.

Lemma summary_is_output_child :
  child_name (output_folder cfg) (summary_action_file cfg) =
  Some (datetime_prefix cfg ++ "-summary_action.md").
Proof.
  destruct apart_facts as [_ [_ [_ [_ [_ [_ Sp]]]]]].
  unfold summary_action_file. apply child_name_of_join.
  - destruct (datetime_prefix cfg); discriminate.
  - rewrite has_slash_app, Sp. reflexivity.
Qed.

Lemma output_child_elsewhere (p n : string) :
  child_name (output_folder cfg) p = Some n ->
  child_name (incoming_bucket cfg) p = None /\
  child_name (intermediate_transcripts cfg) p = None.
Proof.
  destruct apart_facts as [Ci [Ct [Co [Nio [Nto _]]]]]. intros H. split.
  - apply (children_disjoint _ _ _ _ Co Ci (not_eq_sym Nio) H).
  - apply (children_disjoint _ _ _ _ Co Ct (not_eq_sym Nto) H).
Qed.

Lemma artifacts_differ : transcript_file cfg <> summary_action_file cfg.
Proof.
  intros E. pose proof transcript_is_output_child as T.
  rewrite E, summary_is_output_child in T. injection T as T.
  apply append_inv_head in T. discriminate.
Qed.

Lemma wav_is_incoming_child (w : world) (f : string) :
  In f (submitted cfg w) ->
  exists n, child_name (incoming_bucket cfg) (to_wav f) = Some n.
Proof.
  destruct apart_facts as [Ci [_ [_ [_ [_ [M _]]]]]].
  intros H. apply submitted_inv in H. destruct H as [n [-> [_ [N [S _]]]]].
  rewrite (to_wav_join _ _ Ci M S). exists (to_wav n).
  apply child_name_of_join.
  - apply to_wav_nonempty. exact N.
  - rewrite to_wav_has_slash. exact S.
Qed.

(** The tasks stay within the two working directories. *)
Lemma tasks_frame (w v : world) (p : string) :
  task_step cfg (submitted cfg w) w v ->
  child_name (incoming_bucket cfg) p = None ->
  child_name (intermediate_transcripts cfg) p = None ->
  FS.lookup p (disk v) = FS.lookup p (disk w).
Proof.
  intros S Ni Nt. apply (step_frame _ _ _ _ S).
  - intros [f [Hf ->]]. destruct (wav_is_incoming_child w f Hf). congruence.
  - intros [f [Hf ->]]. rewrite entry_is_cache_child in Nt. discriminate.
Qed.

(** The stage that produces the consolidated transcript: the transcript
    is in its file, directories stay, and nothing outside the two working
    directories changes. *)
Lemma combined_frame (sched : schedule) (w v : world) (c : string) :
  combined_transcription cfg svc sched w = (Ok c, v) ->
  FS.lookup (consolidated_transcript_file cfg) (disk v) =
    Some (File (consolidated_text cfg w c)) /\
  same_dirs (disk w) (disk v) /\
  (forall p, child_name (incoming_bucket cfg) p = None ->
             child_name (intermediate_transcripts cfg) p = None ->
             FS.lookup p (disk v) = FS.lookup p (disk w)).
Proof.
  intros H. pose proof (combined_transcription_ok cfg svc sched w v c H) as Lc.
  split; [exact Lc|]. clear Lc.
  apply combined_transcription_inv in H. cbn zeta in H.
  destruct H as [[text [E [[= ->] ->]]] | [[_ [E _]] | [N [[e [E _]] | [c' [v0 [T [[e [E _]] | [E [Wr ->]]]]]]]]]];
    try discriminate E.
  - split; [apply same_dirs_refl | auto].
  - injection E as <-. pose proof (transcribe_all_step sched w v0 _ T) as S.
    cbn [disk]. split.
    + eapply same_dirs_trans; [exact (step_dirs _ _ _ _ S)|].
      apply same_dirs_store. apply Wr.
    + intros p Ni Nt. rewrite lookup_store_ne.
      * apply (tasks_frame w v0 p S Ni Nt).
      * intros <-. rewrite consolidated_is_cache_child in Nt. discriminate.
Qed.

(** A successful run from a world without this run's artifacts: the
    answer of the completion service it used and the world it leaves. *)
Lemma main_ok_shape (sched : schedule) (w w' : world) :
  fresh cfg w -> main cfg svc sched w = (Ok tt, w') ->
  exists c v content ins caches,
    combined_transcription cfg svc sched w = (Ok c, v) /\
    completion_service svc (trace v ++ [EvSummarize c]) (prompt_of c) = Some content /\
    let summary := strip content in
    let v2 :=
      mkWorld
        (FS.store (transcript_file cfg) (File (consolidated_text cfg w c))
           (FS.delete (consolidated_transcript_file cfg)
              (FS.store (summary_action_file cfg)
                 (File (universal_newlines summary)) (disk v))))
        (trace v ++ [EvSummarize c; EvWrite (summary_action_file cfg) summary;
                     EvMove (consolidated_transcript_file cfg) (transcript_file cfg)]) in
    writable (summary_action_file cfg) (disk v) /\
    clears (incoming_bucket cfg) v2 ins /\
    clears (intermediate_transcripts cfg) (cleared ins v2) caches /\
    w' = cleared caches (cleared ins v2).
Proof.
  intros [Ft Fs] H. apply main_ok_inv in H.
  destruct H as [c [v [content [text [v2 [ins [caches [Hc [Ec H]]]]]]]]].
  cbn zeta in H. destruct H as [Wr [Mv [Ci [Cc ->]]]].
  destruct (combined_frame sched w v c Hc) as [Lc [_ Fr]].
  destruct (output_child_elsewhere _ _ transcript_is_output_child) as [Ti Tt].
  destruct (output_child_elsewhere _ _ summary_is_output_child) as [Si St].
  assert (Ncs : summary_action_file cfg <> consolidated_transcript_file cfg).
  { intros E. rewrite E, consolidated_is_cache_child in St. discriminate. }
  assert (Nct : consolidated_transcript_file cfg <> transcript_file cfg).
  { intros E. rewrite <- E, consolidated_is_cache_child in Tt. discriminate. }
  unfold moved in Mv. cbn [summary_written disk trace] in Mv.
  assert (Tg : move_target (consolidated_transcript_file cfg) (transcript_file cfg)
                 (FS.store (summary_action_file cfg)
                    (File (universal_newlines (strip content))) (disk v))
               = transcript_file cfg).
  { unfold move_target, FS.is_dir.
    rewrite lookup_store_ne by (apply not_eq_sym, artifacts_differ).
    rewrite (Fr _ Ti Tt), Ft. reflexivity. }
  rewrite Tg in Mv. destruct Mv as [Ls [_ [[E _] | [_ ->]]]]; [congruence|].
  rewrite lookup_store_ne in Ls by exact Ncs. rewrite Lc in Ls.
  injection Ls as <-.
  exists c, v, content, ins, caches. cbn zeta.
  rewrite <- !app_assoc in Ci, Cc. cbn [app] in Ci, Cc.
  rewrite <- !app_assoc. cbn [app]. cbn [disk] in Wr. auto 10.
Qed.

(** What the clearing leaves of the two documents. *)
Lemma main_ok_documents (v2 : world) (fs : filesystem) (held written : string)
    (ins caches : list string) :
  clears (incoming_bucket cfg) v2 ins ->
  clears (intermediate_transcripts cfg) (cleared ins v2) caches ->
  disk v2 =
    FS.store (transcript_file cfg) (File held)
      (FS.delete (consolidated_transcript_file cfg)
         (FS.store (summary_action_file cfg) (File written) fs)) ->
  FS.lookup (transcript_file cfg) (disk (cleared caches (cleared ins v2))) =
    Some (File held) /\
  FS.lookup (summary_action_file cfg) (disk (cleared caches (cleared ins v2))) =
    Some (File written).
Proof.
  intros Ci Cc Hd.
  destruct (output_child_elsewhere _ _ transcript_is_output_child) as [Ti Tt].
  destruct (output_child_elsewhere _ _ summary_is_output_child) as [Si St].
  split.
  - rewrite lookup_cleared, (clears_misses _ _ _ _ Cc Tt).
    rewrite lookup_cleared, (clears_misses _ _ _ _ Ci Ti).
    rewrite Hd. apply lookup_store_eq.
  - rewrite lookup_cleared, (clears_misses _ _ _ _ Cc St).
    rewrite lookup_cleared, (clears_misses _ _ _ _ Ci Si).
    rewrite Hd. rewrite lookup_store_ne by exact artifacts_differ.
    rewrite lookup_delete_ne.
    + apply lookup_store_eq.
    + intros E. rewrite <- E, consolidated_is_cache_child in St. discriminate.
Qed.


End WholeRun.

(** *** What the clearing spares *)

Lemma config_ok_apart (cfg : config) :
  config_ok cfg = true -> output_apart cfg = true.
Proof.
  unfold config_ok, output_apart. intros H.
  do 9 (apply andb_true_iff in H; destruct H as [H ?]).
  repeat (apply andb_true_iff; split; [|assumption]). assumption.
Qed.

Section Clearing.

Variable cfg : config.
Variable svc : services.
Import StrFacts FSFacts.

Hypothesis Hcfg : config_ok cfg = true.



End Clearing.


(* ================================================================= *)
(** ** What the cache remembers *)

Section Memo.

Variable cfg : config.
Variable svc : services.
Import StrFacts FSFacts.

Lemma convertible_stable (f audio : string) (fs fs' : filesystem) :
  convertible svc f fs audio ->
  FS.lookup f fs' = FS.lookup f fs -> same_dirs fs fs' ->
  convertible svc f fs' audio.
Proof.
  intros [src [Lf [Dc [Pd Nd]]]] E D. exists src.
  split; [congruence|]. split; [exact Dc|]. split.
  - apply D. exact Pd.
  - intros X. apply D in X. congruence.
Qed.

Lemma m4a_is_untouched (F : list string) (f : string) :
  endswith f ".m4a" = true -> ~ is_wav_of F f /\ ~ is_entry_of cfg F f.
Proof.
  intros M. split.
  - intros [g [_ E]]. pose proof (to_wav_not_m4a g) as N. congruence.
  - intros [g [_ E]]. pose proof (transcript_path_txt cfg (to_wav g)) as T.
    rewrite <- E, (endswith_m4a_not_txt f M) in T. discriminate.
Qed.

Lemma source_key_is_untouched (F : list string) (f : string) :
  (forall g, In g F -> endswith g ".m4a" = true) ->
  endswith (basename f) ".m4a" = true ->
  ~ is_wav_of F (transcript_path cfg f) /\
  ~ is_entry_of cfg F (transcript_path cfg f).
Proof.
  intros HF B. split.
  - intros [g [Hg E]]. exact (transcript_path_not_wav cfg f g (HF g Hg) E).
  - intros [g [_ E]]. exact (source_key_is_no_entry cfg f g B E).
Qed.

Lemma txt_is_no_wav (p : string) : endswith (transcript_path cfg p) ".wav" = false.
Proof. apply endswith_txt_not_wav, transcript_path_txt. Qed.

(** What the cache holds for a file stays there while tasks run. *)
Lemma cached_stable (F : list string) (f text : string) (v v' : world) :
  (forall g, In g F -> endswith g ".m4a" = true) ->
  endswith (basename f) ".m4a" = true ->
  cached_as cfg svc f text (disk v) -> task_step cfg F v v' ->
  cached_as cfg svc f text (disk v').
Proof.
  intros HF B C S. pose proof (basename_endswith _ _ B) as M.
  destruct (source_key_is_untouched F f HF B) as [K1 K2].
  destruct (m4a_is_untouched F f M) as [F1 F2].
  destruct C as [C | [C [[audio Cv] E]]].
  - left. apply (step_keeps _ _ _ _ S); [apply txt_is_no_wav | exact C].
  - right. split; [|split].
    + rewrite (step_frame _ _ _ _ S _ K1 K2). exact C.
    + exists audio. apply (convertible_stable f audio (disk v)); auto.
      * apply (step_frame _ _ _ _ S _ F1 F2).
      * apply (step_dirs _ _ _ _ S).
    + apply (step_keeps _ _ _ _ S); [apply txt_is_no_wav | exact E].
Qed.

(** A task that returned a text leaves it in the cache: the text it
    found there, or the text it wrote, as it will be read. *)
Lemma cached_after_task (f text : string) (v v' : world) :
  endswith (basename f) ".m4a" = true ->
  process_file cfg svc f v = (Ok text, v') ->
  cached_as cfg svc f text (disk v') \/
  cached_as cfg svc f (universal_newlines text) (disk v').
Proof.
  intros B H. pose proof (basename_endswith _ _ B) as M.
  pose proof (process_file_step cfg svc f v v' _ M H) as S.
  pose proof (source_key_stays_absent cfg svc f v v' _ B H) as Ks.
  pose proof (transcript_path_not_wav cfg (to_wav f) f M) as Ne.
  destruct (m4a_is_untouched [f] f M) as [F1 F2].
  assert (Cs : forall audio, convertible svc f (disk v) audio ->
                             convertible svc f (disk v') audio).
  { intros audio Cv. apply (convertible_stable f audio (disk v)); auto.
    - apply (step_frame _ _ _ _ S _ F1 F2).
    - apply (step_dirs _ _ _ _ S). }
  apply process_file_sound in H.
  inversion H as [t Hc | | | audio t wav fs Hc Cv He
                 | | | | audio t wav fs entry before Hc Cv He Hs Hp]; subst.
  - left. left. exact Hc.
  - left. right. rewrite Ks. split; [exact Hc|]. split; [eauto|].
    subst wav fs. cbn [disk]. rewrite lookup_delete_ne by (apply not_eq_sym; exact Ne).
    exact He.
  - right. right. rewrite Ks. split; [exact Hc|]. split; [eauto|].
    subst wav fs entry. cbn [disk].
    rewrite lookup_delete_ne by (apply not_eq_sym; exact Ne).
    apply lookup_store_eq.
Qed.

(** When the pool is done, the text of every future that holds one is in
    the cache. *)
Lemma pool_caches (sched : schedule) (w : world) :
  let F := submitted cfg w in
  let tasks := map (process_file cfg svc) F in
  let run := run_pool (sched (List.length tasks)) tasks
               (repeat None (List.length tasks)) (after_submit cfg w) in
  task_step cfg F w (snd run) /\
  List.length (fst run) = List.length F /\
  forall j f text,
    nth_error F j = Some f ->
    nth_error (fst run) j = Some (Some (Ok text)) ->
    cached_as cfg svc f text (disk (snd run)) \/
    cached_as cfg svc f (universal_newlines text) (disk (snd run)).
Proof.
  intros F tasks run.
  destruct (batch_rule cfg svc sched w (fun _ => True)
              (fun j r v => forall f text,
                   nth_error F j = Some f -> r = Ok text ->
                   cached_as cfg svc f text (disk v) \/
                   cached_as cfg svc f (universal_newlines text) (disk v)))
    as [S [_ [L [P _]]]].
  - exact I.
  - intros i f v r v' Hf _ _ Hr. split; [exact I|].
    intros g text Hg ->. unfold F in Hg. rewrite Hf in Hg. injection Hg as <-.
    apply (cached_after_task f text v v'); [|exact Hr].
    apply (submitted_basename_m4a cfg w). eapply nth_error_In. exact Hf.
  - intros i r v v' Pv S f text Hf Hr.
    assert (HF : forall g, In g F -> endswith g ".m4a" = true)
      by (intros g Hg; apply (submitted_m4a cfg w g Hg)).
    assert (B : endswith (basename f) ".m4a" = true)
      by (apply (submitted_basename_m4a cfg w); eapply nth_error_In; exact Hf).
    destruct (Pv f text Hf Hr) as [C|C]; [left|right];
      eapply (cached_stable F f _ v v'); eauto.
  - split; [exact S|]. split; [exact L|].
    intros j f text Hf Hj. apply (P j (Ok text) Hj f text Hf eq_refl).
Qed.

(** C6, amended: when the future of some submitted file holds an
    exception (in particular the Transcription Client's), [main] raises;
    the events of the run are those of the tasks only (no Summarizer
    request, no summary written, nothing renamed, nothing removed but
    normalized audio); every entry that existed and is not a [.wav] file
    is unchanged, so are the input files and the cache entries; and the text
    of every task that succeeded is in the cache, as the task found it
    there or, when the task wrote it, as it will be read (with its line ends
    translated). *)
Theorem C6_failed_batch_stops_before_the_finalizer
    (sched : schedule) (w : world) (i : nat) (e : error) :
  FS.lookup (consolidated_transcript_file cfg) (disk w) = None ->
  FS.lookup (incoming_bucket cfg) (disk w) = Some Dir ->
  nth_error (futures_of cfg svc sched w) i = Some (Some (Raise e)) ->
  exists e' w',
    main cfg svc sched w = (Raise e', w') /\
    (exists evs, trace w' = (trace w ++ evs)%list /\
                 Forall (task_event cfg (submitted cfg w)) evs) /\
    (forall p node, endswith p ".wav" = false ->
                    FS.lookup p (disk w) = Some node ->
                    FS.lookup p (disk w') = Some node) /\
    (forall j f text,
        nth_error (submitted cfg w) j = Some f ->
        nth_error (futures_of cfg svc sched w) j = Some (Some (Ok text)) ->
        (cached_as cfg svc f text (disk w') \/
         cached_as cfg svc f (universal_newlines text) (disk w')) /\
        (has_cr text = false -> cached_as cfg svc f text (disk w'))).
Proof.
  intros N D H. destruct (pool_caches sched w) as [S [_ P]].
  unfold futures_of in *. cbn zeta in *.
  set (run := run_pool _ _ _ _) in *.
  destruct (gather_failed (fst run) [] i e H) as [e' G].
  assert (T : transcribe_all cfg svc sched w = (Raise e', snd run)).
  { rewrite (transcribe_all_eval cfg svc sched w D). cbn zeta.
    fold run. rewrite G. reflexivity. }
  exists e', (snd run). split; [|split; [|split]].
  - unfold main, combined_transcription, bind, path_exists. rewrite N, T.
    reflexivity.
  - apply (step_trace _ _ _ _ S).
  - apply (step_keeps _ _ _ _ S).
  - intros j f text Hf Hj. pose proof (P j f text Hf Hj) as Q.
    split; [exact Q|]. intros Nc.
    rewrite (universal_newlines_id text Nc) in Q. tauto.
Qed.

(** A file the cache holds a text for is served from the cache: the file
    may be converted again, the Transcription Client is not invoked. *)
Lemma process_file_cached (f text : string) (v : world) :
  endswith f ".m4a" = true ->
  cached_as cfg svc f text (disk v) ->
  exists v' evs,
    process_file cfg svc f v = (Ok text, v') /\
    trace v' = (trace v ++ evs)%list /\
    forall p, ~ In (EvTranscribe p) evs.
Proof.
  intros M [C | [C [[audio Cv] E]]].
  - exists v, []. rewrite app_nil_r.
    split; [apply process_file_cache_hit; exact C|]. auto.
  - pose proof (transcript_path_not_wav cfg (to_wav f) f M) as Ne.
    eexists. exists [EvConvert f; EvWrite (to_wav f) audio; EvRemove (to_wav f)].
    split; [|split].
    + rewrite (process_file_miss cfg svc f audio v C Cv). unfold bind at 1.
      rewrite (transcribe_audio_hit cfg svc (to_wav f) text)
        by (cbn [disk]; rewrite lookup_store_ne by (apply not_eq_sym; exact Ne);
            exact E).
      unfold bind. rewrite remove_eval. cbn [disk trace].
      rewrite lookup_store_eq. unfold ret. reflexivity.
    + cbn [trace]. rewrite <- !app_assoc. reflexivity.
    + intros p [X|[X|[X|[]]]]; discriminate X.
Qed.

(** When the Transcription Client raises for a file that has no entry,
    the task of the file raises. *)
Lemma process_file_transcription_failure (f audio : string) (v : world) :
  endswith f ".m4a" = true ->
  FS.lookup (transcript_path cfg f) (disk v) = None ->
  convertible svc f (disk v) audio ->
  FS.lookup (transcript_path cfg (to_wav f)) (disk v) = None ->
  transcription_service svc
    (trace v ++ [EvConvert f; EvWrite (to_wav f) audio; EvTranscribe (to_wav f)])
    audio = None ->
  fst (process_file cfg svc f v) = Raise TranscriptionError.
Proof.
  intros M C Cv E Sv.
  pose proof (transcript_path_not_wav cfg (to_wav f) f M) as Ne.
  rewrite (process_file_miss cfg svc f audio v C Cv). unfold bind at 1.
  rewrite (transcribe_audio_miss cfg svc (to_wav f) audio)
    by (cbn [disk];
        first [rewrite lookup_store_ne by (apply not_eq_sym; exact Ne); exact E
              | apply lookup_store_eq]).
  cbn [disk trace]. rewrite <- app_assoc. cbn [app]. rewrite Sv. reflexivity.
Qed.

Lemma submitted_stable (F : list string) (w v : world) :
  task_step cfg F w v -> submitted cfg v = submitted cfg w.
Proof.
  intros S. unfold submitted, eligible.
  change (filter (fun filename => endswith filename ".m4a")
            (FS.children (incoming_bucket cfg) (disk v)))
    with (m4a_names (incoming_bucket cfg) (disk v)).
  rewrite (step_listing _ _ _ _ S). reflexivity.
Qed.

Lemma all_texts (futures : list outcome) :
  (forall j, j < List.length futures ->
             exists t, nth_error futures j = Some (Some (Ok t))) ->
  exists texts, futures = map (fun t => Some (Ok t)) texts.
Proof.
  induction futures as [|x futures IH]; intros H; [exists []; reflexivity|].
  destruct (H 0) as [t Ht]; [cbn; lia|]. cbn in Ht. injection Ht as ->.
  destruct IH as [texts ->].
  - intros j Lt. apply (H (S j)). cbn. lia.
  - exists (t :: texts). reflexivity.
Qed.

(** The second of two runs of the Batch Scheduler is served from the
    cache, without the Transcription Client; it returns what the first
    returned when the texts hold no carriage return. *)
Lemma second_run_uses_the_cache (sched1 sched2 : schedule) (w w1 : world) (c : string) :
  fair sched2 ->
  transcribe_all cfg svc sched1 w = (Ok c, w1) ->
  exists c2 w2 evs,
    transcribe_all cfg svc sched2 w1 = (Ok c2, w2) /\
    trace w2 = (trace w1 ++ evs)%list /\
    (forall p, ~ In (EvTranscribe p) evs) /\
    ((forall j t, nth_error (futures_of cfg svc sched1 w) j = Some (Some (Ok t)) ->
                  has_cr t = false) ->
     c2 = c).
Proof.
  intros Fair H1.
  pose proof (transcribe_all_listed cfg svc sched1 w w1 c H1) as D.
  rewrite (transcribe_all_eval cfg svc sched1 w D) in H1. cbn zeta in H1.
  destruct (pool_caches sched1 w) as [S [L P]]. cbn zeta in S, L, P.
  unfold futures_of. cbn zeta.
  set (run1 := run_pool _ _ _ _) in *.
  destruct (gather (fst run1) []) as [texts'|e] eqn:G; [|discriminate H1].
  injection H1 as <- <-.
  apply gather_ok_inv in G. destruct G as [texts [Ef ->]]. cbn [app].
  rewrite Ef, length_map in L.
  pose proof (submitted_stable _ _ _ S) as Es.
  assert (D1 : FS.lookup (incoming_bucket cfg) (disk (snd run1)) = Some Dir)
    by (apply (step_dirs _ _ _ _ S); exact D).
  assert (HF : forall g, In g (submitted cfg w) -> endswith g ".m4a" = true)
    by (intros g; apply submitted_m4a).
  destruct (batch_rule cfg svc sched2 (snd run1)
              (fun v => exists evs,
                   trace v = (trace (snd run1) ++ evs)%list /\
                   forall p, ~ In (EvTranscribe p) evs)
              (fun j r _ => forall t, nth_error texts j = Some t ->
                                      r = Ok t \/ r = Ok (universal_newlines t)))
    as [S2 [[evs [Tr Nt]] [L2 [P2 C2]]]].
  - exists (map EvSubmit (submitted cfg (snd run1))). split; [reflexivity|].
    intros p X. apply in_map_iff in X. destruct X as [g [X _]]. discriminate X.
  - intros j f v r v' Hf Sv [evs [Tr Nt]] Hr. rewrite Es in Hf, Sv.
    assert (Lt : j < List.length texts).
    { rewrite L. apply nth_error_Some. congruence. }
    destruct (nth_error texts j) as [t|] eqn:Et;
      [|apply nth_error_None in Et; lia].
    assert (Bf : endswith (basename f) ".m4a" = true)
      by (apply (submitted_basename_m4a cfg w); eapply nth_error_In; exact Hf).
    assert (Ca : exists t', (t' = t \/ t' = universal_newlines t) /\
                            cached_as cfg svc f t' (disk v)).
    { destruct (P j f t Hf) as [Q|Q];
        [rewrite Ef, nth_error_map, Et; reflexivity | |];
        eexists; (split; [|apply (cached_stable (submitted cfg w) f _ (snd run1) v HF Bf Q Sv)]);
        auto. }
    destruct Ca as [t' [Et' Ca]].
    destruct (process_file_cached f t' v (HF f (nth_error_In _ _ Hf)) Ca)
      as [v2 [evs2 [Hp [Tr2 Nt2]]]].
    rewrite Hp in Hr. injection Hr as <- <-. split.
    + exists (evs ++ evs2)%list. split.
      * rewrite Tr2, Tr. symmetry. apply app_assoc.
      * intros p X. apply in_app_or in X. destruct X as [X|X];
          [exact (Nt p X) | exact (Nt2 p X)].
    + intros t0 [= <-]. destruct Et' as [->| ->]; auto.
  - auto.
  - cbv zeta in S2, L2, P2, C2.
    set (run2 := run_pool (sched2 _) _ _ (after_submit cfg (snd run1))) in *.
    assert (Dn : forall j, j < List.length (fst run2) ->
                           exists t, nth_error (fst run2) j = Some (Some (Ok t))).
    { intros j Lt. unfold outcome in *. rewrite L2 in Lt.
      destruct (C2 Fair j Lt) as [rj Hj]. rewrite Hj.
      rewrite Es, <- L in Lt.
      destruct (nth_error texts j) as [t|] eqn:Et;
        [|apply nth_error_None in Et; lia].
      destruct (P2 j rj Hj t Et) as [->| ->]; eauto. }
    destruct (all_texts (fst run2) Dn) as [texts2 E2].
    exists (join_str (nl ++ nl) (filter nonempty texts2)), (snd run2), evs.
    split; [|split; [exact Tr | split; [exact Nt|]]].
    + rewrite (transcribe_all_eval cfg svc sched2 (snd run1) D1). cbn zeta.
      fold run2. rewrite E2, gather_done. reflexivity.
    + intros Nc. f_equal. f_equal. apply nth_error_ext. intros j.
      assert (Q : nth_error (fst run2) j = option_map (fun t => Some (Ok t)) (nth_error texts2 j))
        by (rewrite E2; apply nth_error_map).
      destruct (nth_error texts j) as [t|] eqn:Et.
      * assert (Lt : j < List.length (submitted cfg (snd run1))).
        { rewrite Es, <- L. apply nth_error_Some. congruence. }
        destruct (C2 Fair j Lt) as [rj Hj].
        assert (Ht : has_cr t = false).
        { apply (Nc j). rewrite Ef, nth_error_map, Et. reflexivity. }
        rewrite Hj in Q.
        destruct (nth_error texts2 j) as [t2|]; [|discriminate Q].
        cbn in Q. injection Q as ->.
        destruct (P2 j _ Hj t Et) as [X|X]; injection X as ->;
          [reflexivity | rewrite (universal_newlines_id t Ht); reflexivity].
      * apply nth_error_None. apply nth_error_None in Et.
        assert (Ll : List.length (fst run2) = List.length texts2)
          by (rewrite E2; apply length_map).
        unfold outcome in *. rewrite <- Ll, L2, Es, <- L. exact Et.
Qed.

(** C3, amended: a second run is served from the cache and never invokes
    the Transcription Client, and it yields the text of the first run
    provided that text holds no carriage return; what is read back from a
    file is the text written with its line ends translated.  When a run
    produced the consolidated transcript, a second run from the world it
    left returns what the transcript holds and does nothing; when the Batch
    Scheduler itself runs twice (the consolidated transcript is not there to
    short-cut it), no event of the second run is an invocation of the
    Transcription Client, and it returns the same text when the texts of
    the first run hold no carriage return; file by file, a task that
    returned a text leaves it in the cache (as it will be read), and a file
    the cache holds a text for is served that text without the
    Transcription Client; and reading an entry after writing it returns the
    text written with its line ends translated, the text itself when it
    holds no carriage return. *)
Theorem C3_second_run_is_served_from_the_cache
    (sched1 sched2 : schedule) (w : world) :
  fair sched2 ->
  (forall c w1,
      combined_transcription cfg svc sched1 w = (Ok c, w1) ->
      combined_transcription cfg svc sched2 w1 = (Ok (consolidated_text cfg w c), w1) /\
      (has_cr c = false -> consolidated_text cfg w c = c)) /\
  (forall c w1,
      transcribe_all cfg svc sched1 w = (Ok c, w1) ->
      exists c2 w2 evs,
        transcribe_all cfg svc sched2 w1 = (Ok c2, w2) /\
        trace w2 = (trace w1 ++ evs)%list /\
        (forall p, ~ In (EvTranscribe p) evs) /\
        ((forall j t,
             nth_error (futures_of cfg svc sched1 w) j = Some (Some (Ok t)) ->
             has_cr t = false) ->
         c2 = c)) /\
  (forall f text v v',
      endswith (basename f) ".m4a" = true ->
      process_file cfg svc f v = (Ok text, v') ->
      cached_as cfg svc f text (disk v') \/
      cached_as cfg svc f (universal_newlines text) (disk v')) /\
  (forall f text v,
      endswith f ".m4a" = true ->
      cached_as cfg svc f text (disk v) ->
      exists v' evs,
        process_file cfg svc f v = (Ok text, v') /\
        trace v' = (trace v ++ evs)%list /\
        forall p, ~ In (EvTranscribe p) evs) /\
  (forall key text v v',
      write_text (transcript_path cfg key) text v = (Ok tt, v') ->
      read_text (transcript_path cfg key) v' = (Ok (universal_newlines text), v') /\
      (has_cr text = false ->
       read_text (transcript_path cfg key) v' = (Ok text, v'))).
Proof.
  intros Fair. split; [|split; [|split; [|split]]].
  - intros c w1 H. split.
    + pose proof (combined_transcription_ok cfg svc sched1 w w1 c H) as Lc.
      unfold combined_transcription, bind, path_exists, read_text.
      rewrite Lc. cbn iota. rewrite Lc. reflexivity.
    + intros Nc. unfold consolidated_text.
      destruct (FS.lookup (consolidated_transcript_file cfg) (disk w));
        [reflexivity | apply universal_newlines_id; exact Nc].
  - intros c w1 H. exact (second_run_uses_the_cache sched1 sched2 w w1 c Fair H).
  - intros f text v v'. apply cached_after_task.
  - intros f text v. apply process_file_cached.
  - intros key text v v' H. apply write_text_inv in H.
    destruct H as [[e [E _]] | [_ [_ ->]]]; [discriminate E|].
    unfold read_text. cbn [disk]. rewrite lookup_store_eq.
    split; [reflexivity|]. intros Nc. rewrite (universal_newlines_id text Nc).
    reflexivity.
Qed.

End Memo.

(** C6 as stated fails: the incoming bucket holds [a.wav] next to [a.m4a];
    the transcription of [b.m4a] fails and [main] raises, and [a.wav], a
    file of the input directory, is no longer there. *)
Lemma C6_fails_for_a_wav_file_of_the_bucket :
  let run := main default_config demo_services in_order demo_noise in
  fst run = Raise TranscriptionError /\
  child_name (incoming_bucket default_config) "./incoming_audio/a.wav" = Some "a.wav" /\
  FS.lookup "./incoming_audio/a.wav" (disk demo_noise) =
    Some (File "an older recording") /\
  FS.lookup "./incoming_audio/a.wav" (disk (snd run)) = None.
Proof. vm_compute. repeat split; reflexivity. Qed.

(** C3 as stated fails: the transcript of a recording has a line end of
    two characters; the Batch Scheduler run a second time, served from the
    cache, returns another text than the first, and the entry read after it
    was written does not return the text written. *)
Lemma C3_fails_for_a_text_with_a_carriage_return :
  let text := "line one" ++ cr ++ nl ++ "line two" in
  let key := "./incoming_audio/a.wav" in
  let first := transcribe_all default_config demo_services in_order demo_dictation in
  let second := transcribe_all default_config demo_services in_order (snd first) in
  fst first = Ok text /\
  fst second = Ok ("line one" ++ nl ++ "line two") /\
  fst second <> fst first /\
  (forall p, ~ In (EvTranscribe p) (skipn (List.length (trace (snd first)))
                                      (trace (snd second)))) /\
  fst (write_text (transcript_path default_config key) text demo_dictation) = Ok tt /\
  fst (read_text (transcript_path default_config key)
         (snd (write_text (transcript_path default_config key) text demo_dictation)))
    <> Ok text.
Proof.
  vm_compute. split; [reflexivity|]. split; [reflexivity|].
  split; [discriminate|]. split; [|split; [reflexivity | discriminate]].
  intros p H. repeat (destruct H as [H|H]; [discriminate H|]). exact H.
Qed.

(* ================================================================= *)
(** ** More on the tasks: failures, keys and requests *)

Section TaskProperties.

Variable cfg : config.
Variable svc : services.
Import StrFacts FSFacts.

(** X1: when [transcribe_audio] returned a text for a path, a second call
    for the same path from the world the first one left is answered from
    the entry: it changes nothing, the Transcription Client is not asked
    again, and it returns what the entry holds, which is the text of the
    first call if that was found there, and that text with its line ends
    translated if the first call wrote it (the same text when it holds no
    carriage return). *)
Theorem X1_transcribe_audio_answers_again_from_its_entry
    (file_path text : string) (w w' : world) :
  transcribe_audio cfg svc file_path w = (Ok text, w') ->
  let again :=
    match FS.lookup (transcript_path cfg file_path) (disk w) with
    | Some _ => text
    | None => universal_newlines text
    end in
  transcribe_audio cfg svc file_path w' = (Ok again, w') /\
  FS.lookup (transcript_path cfg file_path) (disk w') = Some (File again) /\
  (has_cr text = false -> again = text).
Proof.
  intros H again.
  assert (L : FS.lookup (transcript_path cfg file_path) (disk w') = Some (File again)).
  { unfold again. apply transcribe_audio_inv in H. cbn zeta in H.
    destruct H as [[t [E [[= ->] ->]]] | [[_ [E _]] | [N [[e [E _]] | [[a [_ [_ [_ [E _]]]]] | [audio [t [_ [_ [_ [[= ->] ->]]]]]]]]]]];
      try discriminate E.
    - rewrite E. reflexivity.
    - rewrite N. cbn [disk]. apply lookup_store_eq. }
  split; [apply transcribe_audio_hit; exact L|]. split; [exact L|].
  intros Nc. unfold again.
  destruct (FS.lookup (transcript_path cfg file_path) (disk w));
    [reflexivity | apply universal_newlines_id; exact Nc].
Qed.

(** X2: on the conversion path, an input that cannot be read or decoded
    makes the task raise (the input is missing, is a directory, or the codec
    rejects it); the disk is as before and the only event is the call of the
    Format Normalizer: nothing is written and no transcription is
    requested. *)
Theorem X2_unreadable_input_changes_nothing (file_path : string) (w : world) :
  FS.lookup (transcript_path cfg file_path) (disk w) = None ->
  let stopped := mkWorld (disk w) (trace w ++ [EvConvert file_path]) in
  (FS.lookup file_path (disk w) = None ->
   process_file cfg svc file_path w = (Raise FileNotFoundError, stopped)) /\
  (FS.lookup file_path (disk w) = Some Dir ->
   process_file cfg svc file_path w = (Raise IsADirectoryError, stopped)) /\
  (forall source,
      FS.lookup file_path (disk w) = Some (File source) ->
      decode_m4a svc source = None ->
      process_file cfg svc file_path w = (Raise DecodeError, stopped)).
Proof.
  intros C stopped.
  assert (P : process_file cfg svc file_path w =
              match convert_m4a_to_wav svc file_path w with
              | (Ok wav_path, w1) =>
                  (transcription <- transcribe_audio cfg svc wav_path ;;
                   remove wav_path ;; ret transcription) w1
              | (Raise e, w1) => (Raise e, w1)
              end).
  { unfold process_file. unfold bind at 1. unfold path_exists at 1.
    rewrite C. reflexivity. }
  rewrite P. unfold convert_m4a_to_wav, bind, emit, read_text. cbn [disk trace].
  split; [|split].
  - intros ->. reflexivity.
  - intros ->. reflexivity.
  - intros source -> ->. reflexivity.
Qed.

(** X3: a failed transcription leaves the normalized audio behind: it is
    removed only after a transcript is known.  When the Transcription
    Client raises for a file that has no entry, the task raises
    [TranscriptionError], the normalized audio stays on disk and no entry is
    written.  When it returns a transcript without text (the job failed),
    the task raises [TypeError], the normalized audio stays, and an empty
    entry is left under the name of the normalized audio: the task of the
    same file is then served the empty text from it, without the
    Transcription Client. *)
Theorem X3_failed_transcription_leaves_the_normalized_audio
    (file_path audio : string) (w : world) :
  let wav_path := to_wav file_path in
  let entry := transcript_path cfg wav_path in
  let fs := FS.store wav_path (File audio) (disk w) in
  let asked := (trace w ++ [EvConvert file_path; EvWrite wav_path audio;
                            EvTranscribe wav_path])%list in
  endswith (basename file_path) ".m4a" = true ->
  FS.lookup (transcript_path cfg file_path) (disk w) = None ->
  convertible svc file_path (disk w) audio ->
  FS.lookup entry (disk w) = None ->
  (transcription_service svc asked audio = None ->
   process_file cfg svc file_path w = (Raise TranscriptionError, mkWorld fs asked) /\
   FS.lookup wav_path fs = Some (File audio) /\
   FS.lookup entry fs = None) /\
  (transcription_service svc asked audio = Some (mkTranscript None) ->
   FS.lookup (dirname entry) (disk w) = Some Dir ->
   let left := mkWorld (FS.store entry (File "") fs) (asked ++ [EvWrite entry ""]) in
   process_file cfg svc file_path w = (Raise TypeError, left) /\
   FS.lookup wav_path (disk left) = Some (File audio) /\
   FS.lookup entry (disk left) = Some (File "") /\
   exists v' evs,
     process_file cfg svc file_path left = (Ok "", v') /\
     trace v' = (trace left ++ evs)%list /\
     forall p, ~ In (EvTranscribe p) evs).
Proof.
  intros wav_path entry fs asked B C Cv E.
  pose proof (basename_endswith _ _ B) as M.
  pose proof (transcript_path_not_wav cfg wav_path file_path M) as Ne.
  fold entry in Ne.
  assert (Lw : FS.lookup wav_path fs = Some (File audio)) by apply lookup_store_eq.
  assert (Le : FS.lookup entry fs = None)
    by (unfold fs; rewrite lookup_store_ne by (apply not_eq_sym; exact Ne); exact E).
  assert (P : process_file cfg svc file_path w =
              match transcription_service svc asked audio with
              | None => (Raise TranscriptionError, mkWorld fs asked)
              | Some transcription =>
                  (transcription <-
                     match transcript_text transcription with
                     | Some text => write_text entry text ;; ret text
                     | None => write_text entry "" ;; raise TypeError
                     end ;;
                   remove wav_path ;; ret transcription) (mkWorld fs asked)
              end).
  { rewrite (process_file_miss cfg svc file_path audio w C Cv). unfold bind at 1.
    fold wav_path fs.
    rewrite (transcribe_audio_miss cfg svc wav_path audio)
      by (cbn [disk]; fold entry; first [exact Le | exact Lw]).
    cbn [disk trace]. rewrite <- app_assoc. cbn [app]. fold asked.
    destruct (transcription_service svc asked audio) as [[[t|]]|];
      cbn [transcript_text]; reflexivity. }
  split.
  - intros Sv. rewrite P, Sv. auto.
  - intros Sv Ld left.
    assert (Ld' : FS.lookup (dirname entry) fs = Some Dir).
    { unfold fs. rewrite lookup_store_ne; [exact Ld|]. intros Q.
      destruct Cv as [_ [_ [_ [_ Nd]]]]. fold wav_path in Nd. congruence. }
    assert (R : process_file cfg svc file_path w = (Raise TypeError, left)).
    { rewrite P, Sv. cbn [transcript_text]. unfold bind at 1. unfold bind at 1.
      rewrite write_text_eval. cbn [disk trace]. rewrite Ld', Le. reflexivity. }
    split; [exact R|].
    assert (Lw' : FS.lookup wav_path (disk left) = Some (File audio))
      by (cbn [left disk]; rewrite lookup_store_ne by exact Ne; exact Lw).
    split; [exact Lw'|]. split; [cbn [left disk]; apply lookup_store_eq|].
    assert (S : task_step cfg [file_path] w left)
      by (apply (process_file_step cfg svc file_path w left _ M R)).
    apply (process_file_cached cfg svc file_path "" left M).
    right. split; [|split].
    + rewrite (source_key_stays_absent cfg svc file_path w left _ B R). exact C.
    + exists audio. destruct (m4a_is_untouched cfg [file_path] file_path M) as [F1 F2].
      apply (convertible_stable svc file_path audio (disk w)); [exact Cv | |].
      * apply (step_frame _ _ _ _ S _ F1 F2).
      * apply (step_dirs _ _ _ _ S).
    + cbn [left disk]. apply lookup_store_eq.
Qed.

(** X4: whatever its result, the task of an [.m4a] file neither creates
    nor changes the entry [process_file] looks for; the entry a task writes
    is under another key, that of the normalized audio. *)
Theorem X4_the_looked_up_entry_is_never_written
    (file_path : string) (w : world) :
  endswith (basename file_path) ".m4a" = true ->
  transcript_path cfg (to_wav file_path) <> transcript_path cfg file_path /\
  FS.lookup (transcript_path cfg file_path)
    (disk (snd (process_file cfg svc file_path w))) =
  FS.lookup (transcript_path cfg file_path) (disk w).
Proof.
  intros B. split.
  - intros E. exact (source_key_is_no_entry cfg file_path file_path B (eq_sym E)).
  - destruct (process_file cfg svc file_path w) as [r w'] eqn:H.
    exact (source_key_stays_absent cfg svc file_path w w' r B H).
Qed.

(** X5: the task of an [.m4a] file does not change what a later
    enumeration submits: normalized audio and cache entries are never
    [.m4a] names, in any directory, so what a failed run leaves behind is not
    taken for input. *)
Theorem X5_tasks_do_not_change_the_enumeration (file_path : string) (w : world) :
  endswith file_path ".m4a" = true ->
  let w' := snd (process_file cfg svc file_path w) in
  submitted cfg w' = submitted cfg w /\
  (forall d, m4a_names d (disk w') = m4a_names d (disk w)) /\
  endswith (to_wav file_path) ".m4a" = false /\
  endswith (transcript_path cfg (to_wav file_path)) ".m4a" = false.
Proof.
  intros M w'. subst w'.
  destruct (process_file cfg svc file_path w) as [r w'] eqn:H. cbn [snd].
  pose proof (process_file_step cfg svc file_path w w' r M H) as S.
  split; [exact (submitted_stable cfg _ _ _ S)|].
  split; [exact (step_listing _ _ _ _ S)|].
  split; [apply to_wav_not_m4a|].
  apply endswith_txt_not_m4a, transcript_path_txt.
Qed.

(** X6: the cache is keyed by the last component of the path only: two
    paths have the same entry exactly when their base names are equal,
    whatever their directories. *)
Theorem X6_entries_are_keyed_by_base_name (p q : string) :
  transcript_path cfg p = transcript_path cfg q <-> basename p = basename q.
Proof.
  split; [apply transcript_path_inj|].
  unfold transcript_path. intros ->. reflexivity.
Qed.

(** The requests of a task to the Transcription Client. *)
Lemma process_file_requests (file_path : string) (w : world) :
  exists evs,
    trace (snd (process_file cfg svc file_path w)) = (trace w ++ evs)%list /\
    List.length (filter is_transcription evs) <= 1 /\
    forall p, In (EvTranscribe p) evs ->
      p = to_wav file_path /\
      exists audio before after,
        evs = (before ++ EvWrite (to_wav file_path) audio
                 :: EvTranscribe (to_wav file_path) :: after)%list.
Proof.
  destruct (process_file cfg svc file_path w) as [r w'] eqn:H. cbn [snd].
  apply process_file_sound in H.
  destruct H as [text Hc | Hc | e Hc | audio text wav fs Hc Cv He
                | audio wav fs Hc Cv He | audio e wav fs Hc Cv He
                | audio wav fs entry before Hc Cv He Hs Hp
                | audio text wav fs entry before Hc Cv He Hs Hp];
    cbn [trace].
  - exists []. rewrite app_nil_r. split; [reflexivity|]. split; [cbn; lia|].
    intros p [].
  - exists []. rewrite app_nil_r. split; [reflexivity|]. split; [cbn; lia|].
    intros p [].
  - eexists. split; [reflexivity|]. split; [cbn; lia|].
    intros p [X|[]]. discriminate X.
  - eexists. split; [reflexivity|]. split; [cbn; lia|].
    intros p [X|[X|[X|[]]]]; discriminate X.
  - eexists. split; [reflexivity|]. split; [cbn; lia|].
    intros p [X|[X|[]]]; discriminate X.
  - eexists. split; [reflexivity|]. split; [cbn; lia|].
    intros p [X|[X|[X|[]]]]; try discriminate X.
    injection X as <-. split; [reflexivity|].
    exists audio, [EvConvert file_path], []. reflexivity.
  - subst before. rewrite <- app_assoc. cbn [app].
    eexists. split; [reflexivity|]. split; [cbn; lia|].
    intros p [X|[X|[X|[X|[]]]]]; try discriminate X.
    injection X as <-. split; [reflexivity|].
    exists audio, [EvConvert file_path], [EvWrite entry ""]. reflexivity.
  - subst before. rewrite <- app_assoc. cbn [app].
    eexists. split; [reflexivity|]. split; [cbn; lia|].
    intros p [X|[X|[X|[X|[X|[]]]]]]; try discriminate X.
    injection X as <-. split; [reflexivity|].
    exists audio, [EvConvert file_path],
      [EvWrite entry text; EvRemove wav]. reflexivity.
Qed.

(** X7: a task asks the Transcription Client at most once, and only for
    the path of the normalized audio (the input path with [.wav] for
    [.m4a]), directly after the normalized audio was written there; for an
    input path that ends in [.m4a], as all submitted paths do, this is never
    the input path itself. *)
Theorem X7_one_transcription_request_on_the_normalized_audio
    (file_path : string) (w : world) :
  exists evs,
    trace (snd (process_file cfg svc file_path w)) = (trace w ++ evs)%list /\
    List.length (filter is_transcription evs) <= 1 /\
    (forall p, In (EvTranscribe p) evs ->
      p = to_wav file_path /\
      exists audio before after,
        evs = (before ++ EvWrite (to_wav file_path) audio
                 :: EvTranscribe (to_wav file_path) :: after)%list) /\
    (endswith file_path ".m4a" = true -> ~ In (EvTranscribe file_path) evs).
Proof.
  destruct (process_file_requests file_path w) as [evs [T [L A]]].
  exists evs. split; [exact T|]. split; [exact L|]. split; [exact A|].
  intros M H. destruct (A file_path H) as [E _].
  exact (to_wav_differs file_path M (eq_sym E)).
Qed.

End TaskProperties.

(* ================================================================= *)
(** ** More on the Batch Scheduler: enumeration, pool and gathering *)

Section BatchProperties.

Variable cfg : config.
Variable svc : services.
Import StrFacts FSFacts.

(** X8: when the consolidated transcript is not there and the incoming
    bucket is not a directory (it is missing, or a file), [main] raises at
    the enumeration and the world is as before: nothing is submitted,
    written or removed, and the Summarizer is not asked. *)
Theorem X8_no_bucket_no_effect (sched : schedule) (w : world) :
  FS.lookup (consolidated_transcript_file cfg) (disk w) = None ->
  FS.lookup (incoming_bucket cfg) (disk w) <> Some Dir ->
  main cfg svc sched w =
    (Raise (match FS.lookup (incoming_bucket cfg) (disk w) with
            | Some _ => NotADirectoryError
            | None => FileNotFoundError
            end), w).
Proof.
  intros N D. unfold main, combined_transcription. unfold bind at 1.
  unfold bind at 1. unfold path_exists. rewrite N.
  unfold bind at 1. unfold transcribe_all. unfold bind at 1. unfold listdir.
  destruct (FS.lookup (incoming_bucket cfg) (disk w)) as [[?|]|];
    [reflexivity | congruence | reflexivity].
Qed.

Lemma run_pool_no_tasks (order : list nat) (futures : list outcome) (w : world) :
  run_pool order [] futures w = (futures, w).
Proof.
  induction order as [|i rest IH]; [reflexivity|].
  cbn [run_pool]. destruct i; exact IH.
Qed.

Lemma submitted_names (w : world) :
  submitted cfg w =
  map (join (incoming_bucket cfg)) (m4a_names (incoming_bucket cfg) (disk w)).
Proof. reflexivity. Qed.

(** X9: when the incoming bucket holds no [.m4a] name, the Batch
    Scheduler returns the empty text and changes nothing; [main] then writes
    an empty consolidated transcript and goes on: the Summarizer is asked
    about the empty text and the finalizer follows. *)
Theorem X9_empty_batch_is_summarized (sched : schedule) (w : world) :
  FS.lookup (incoming_bucket cfg) (disk w) = Some Dir ->
  m4a_names (incoming_bucket cfg) (disk w) = [] ->
  transcribe_all cfg svc sched w = (Ok "", w) /\
  (FS.lookup (consolidated_transcript_file cfg) (disk w) = None ->
   writable (consolidated_transcript_file cfg) (disk w) ->
   main cfg svc sched w =
     (summary <- generate_summary_and_action svc "" ;; finalize cfg summary)
       (mkWorld (FS.store (consolidated_transcript_file cfg) (File "") (disk w))
          (trace w ++ [EvWrite (consolidated_transcript_file cfg) ""]))).
Proof.
  intros D E.
  assert (T : transcribe_all cfg svc sched w = (Ok "", w)).
  { rewrite (transcribe_all_eval cfg svc sched w D). cbn zeta.
    unfold after_submit. rewrite submitted_names, E. cbn [map List.length repeat].
    rewrite run_pool_no_tasks. cbn [fst snd gather join_str String.concat].
    rewrite app_nil_r. destruct w; reflexivity. }
  split; [exact T|]. intros N [Pd Nd].
  unfold main, combined_transcription. unfold bind at 1. unfold bind at 1.
  unfold path_exists. rewrite N. unfold bind at 1. rewrite T.
  unfold bind at 1. rewrite write_text_eval, Pd.
  destruct (FS.lookup (consolidated_transcript_file cfg) (disk w)) as [[?|]|];
    [reflexivity | congruence | reflexivity].
Qed.

(** X10: a path is submitted exactly when it is an entry directly inside
    the incoming bucket whose name ends in [.m4a] (a directory of such a name
    included); an entry inside a subdirectory of the bucket is never
    submitted. *)
Theorem X10_what_is_submitted (w : world) (f : string) :
  (In f (submitted cfg w) <->
   exists filename,
     child_name (incoming_bucket cfg) f = Some filename /\
     endswith filename ".m4a" = true /\
     FS.lookup f (disk w) <> None) /\
  (below (incoming_bucket cfg) f = true -> ~ In f (submitted cfg w)).
Proof.
  assert (Fw : In f (submitted cfg w) ->
               exists filename,
                 child_name (incoming_bucket cfg) f = Some filename /\
                 endswith filename ".m4a" = true /\
                 FS.lookup f (disk w) <> None).
  { intros H. apply submitted_inv in H.
    destruct H as [n [-> [E [N [S L]]]]]. exists n.
    split; [apply child_name_of_join; assumption | auto]. }
  split; [split; [exact Fw|]|].
  - intros [n [C [E L]]]. rewrite submitted_names. apply in_map_iff.
    exists n. split; [apply (child_name_join _ _ _ C)|].
    unfold m4a_names. apply filter_In. split; [|exact E].
    apply (children_present _ f); assumption.
  - intros B H. destruct (Fw H) as [n [C _]].
    rewrite (below_is_no_child _ _ B) in C. discriminate.
Qed.

Lemma gather_first_error (texts : list string) (e : error)
    (rest : list outcome) (acc : list string) :
  gather (map (fun t => Some (Ok t)) texts ++ Some (Raise e) :: rest)%list acc =
  Raise e.
Proof.
  revert acc. induction texts as [|t texts IH]; intros acc; cbn; [reflexivity|].
  apply IH.
Qed.

(** X11: the exception that leaves the Batch Scheduler is the one of the
    first failed future in the order of submission, whatever the later
    futures hold and whichever task failed first in time; [main] raises it
    when it had no consolidated transcript to start from. *)
Theorem X11_first_failure_in_submission_order
    (sched : schedule) (w : world) (texts : list string) (e : error)
    (rest : list outcome) :
  FS.lookup (incoming_bucket cfg) (disk w) = Some Dir ->
  futures_of cfg svc sched w =
    (map (fun t => Some (Ok t)) texts ++ Some (Raise e) :: rest)%list ->
  fst (transcribe_all cfg svc sched w) = Raise e /\
  (FS.lookup (consolidated_transcript_file cfg) (disk w) = None ->
   fst (main cfg svc sched w) = Raise e).
Proof.
  intros D H.
  assert (T : fst (transcribe_all cfg svc sched w) = Raise e).
  { rewrite (transcribe_all_eval cfg svc sched w D). cbn zeta.
    unfold futures_of in H. rewrite H, gather_first_error. reflexivity. }
  split; [exact T|]. intros N.
  unfold main, combined_transcription. unfold bind at 1. unfold bind at 1.
  unfold path_exists. rewrite N. unfold bind at 1.
  destruct (transcribe_all cfg svc sched w) as [r v]. cbn [fst] in T.
  subst r. reflexivity.
Qed.

End BatchProperties.

(* ================================================================= *)
(** ** More on the Summarizer *)

Section SummaryText.

Import StrFacts.

(** X13: a summary the Summarizer returns neither starts nor ends with a
    white space character: not with one of the ASCII range ([isspace]) and
    not with one of the others [str.strip()] removes, whatever the
    completion service answered; the Summarizer changes no file. *)
Theorem X13_summary_has_no_surrounding_whitespace
    (svc : services) (transcriptions summary : string) (v v' : world) :
  generate_summary_and_action svc transcriptions v = (Ok summary, v') ->
  (forall a rest, summary = String a rest -> isspace a = false) /\
  (forall front a, summary = front ++ String a "" -> isspace a = false) /\
  disk v' = disk v /\
  starts_with_space summary = false /\
  ends_with_space summary = false.
Proof.
  intros H. apply generate_summary_inv in H.
  destruct H as [-> [[_ Q] | [content [_ Q]]]]; [discriminate Q|].
  injection Q as ->. destruct (strip_done content) as [A B].
  split; [|split; [|split; [reflexivity | split; assumption]]].
  - intros a rest E. rewrite E in A. apply (starts_with_space_head a rest A).
  - intros front a E. rewrite E in B. apply (ends_with_space_last front a B).
Qed.

End SummaryText.

(* ================================================================= *)
(** ** More on the whole run: the summary, resumption, a lost bucket *)

Section WholeRunProperties.

Variable cfg : config.
Variable svc : services.
Import StrFacts FSFacts.

Lemma no_request_in_tasks (file_paths : list string) (evs : list event) :
  Forall (task_event cfg file_paths) evs -> filter is_summary_request evs = [].
Proof.
  induction 1 as [|e evs He _ IH]; [reflexivity|].
  cbn [filter]. rewrite IH. destruct e; cbn in He |- *; tauto.
Qed.

Lemma no_request_in_removals (removed : list string) :
  filter is_summary_request (map EvRemove removed) = [].
Proof. induction removed as [|p l IH]; [reflexivity | exact IH]. Qed.

(** The events of the stage that produces the consolidated transcript. *)
Lemma combined_trace (sched : schedule) (w v : world) (c : string) :
  combined_transcription cfg svc sched w = (Ok c, v) ->
  exists evs, trace v = (trace w ++ evs)%list /\
              filter is_summary_request evs = [].
Proof.
  intros H. apply combined_transcription_inv in H. cbn zeta in H.
  destruct H as [[text [_ [_ ->]]] | [[_ [E _]] | [_ [[e [E _]] | [c' [v0 [T [[e [E _]] | [_ [_ ->]]]]]]]]]];
    try discriminate E.
  - exists []. rewrite app_nil_r. auto.
  - apply transcribe_all_step in T. destruct (step_trace _ _ _ _ T) as [evs [Q F]].
    exists (evs ++ [EvWrite (consolidated_transcript_file cfg) c'])%list.
    cbn [trace]. rewrite Q, <- app_assoc. split; [reflexivity|].
    rewrite filter_app, (no_request_in_tasks _ _ F). reflexivity.
Qed.

Hypothesis Hcfg : config_ok cfg = true.

Lemma consolidated_text_reads (w : world) (c : string) :
  universal_newlines (consolidated_text cfg w c) = universal_newlines c /\
  (has_cr c = false -> consolidated_text cfg w c = c).
Proof.
  unfold consolidated_text.
  destruct (FS.lookup (consolidated_transcript_file cfg) (disk w)).
  - auto.
  - split; [apply universal_newlines_idem | apply universal_newlines_id].
Qed.

(** X14: in a successful run from a world without this run's artifacts
    the completion service is asked exactly once; the prompt is built from
    the consolidated text, which is what the transcript document holds (as
    it was found, or as it was written: with its line ends translated, the
    very text when it holds no carriage return), and the summary document
    holds the answer to that prompt without its surrounding white space, as
    written. *)
Theorem X14_summary_answers_the_transcript (sched : schedule) (w w' : world) :
  fresh cfg w -> main cfg svc sched w = (Ok tt, w') ->
  exists combined content earlier later,
    trace w' = (trace w ++ earlier ++ EvSummarize combined :: later)%list /\
    filter is_summary_request earlier = [] /\
    filter is_summary_request later = [] /\
    completion_service svc (trace w ++ earlier ++ [EvSummarize combined])
      (prompt_of combined) = Some content /\
    FS.lookup (transcript_file cfg) (disk w') =
      Some (File (consolidated_text cfg w combined)) /\
    universal_newlines (consolidated_text cfg w combined) =
      universal_newlines combined /\
    (has_cr combined = false -> consolidated_text cfg w combined = combined) /\
    FS.lookup (summary_action_file cfg) (disk w') =
      Some (File (universal_newlines (strip content))) /\
    (has_cr (strip content) = false ->
     FS.lookup (summary_action_file cfg) (disk w') = Some (File (strip content))).
Proof.
  intros Fw H.
  destruct (main_ok_shape cfg svc (config_ok_apart cfg Hcfg) sched w w' Fw H)
    as [c [v [content [ins [caches [Hc [Ec R]]]]]]].
  cbn zeta in R. destruct R as [_ [Ci [Cc ->]]].
  destruct (combined_trace sched w v c Hc) as [earlier [Q Fe]].
  destruct (main_ok_documents cfg (config_ok_apart cfg Hcfg) _ (disk v) _ _ ins caches Ci Cc eq_refl)
    as [Lt Ls].
  destruct (consolidated_text_reads w c) as [R1 R2].
  exists c, content, earlier,
    ([EvWrite (summary_action_file cfg) (strip content);
      EvMove (consolidated_transcript_file cfg) (transcript_file cfg)]
       ++ map EvRemove ins ++ map EvRemove caches)%list.
  split; [|split; [exact Fe|split; [|split; [|split; [exact Lt|split;
    [exact R1|split; [exact R2 | split; [exact Ls|]]]]]]]].
  4:{ intros Nc. rewrite Ls, (universal_newlines_id _ Nc). reflexivity. }
  - cbn [cleared trace]. rewrite Q, <- !app_assoc. reflexivity.
  - cbn [app filter is_summary_request].
    rewrite filter_app, !no_request_in_removals. reflexivity.
  - rewrite app_assoc, <- Q. exact Ec.
Qed.



End WholeRunProperties.

(* ================================================================= *)
(** ** The finalizer without its bucket *)

Section LostBucket.

Variable cfg : config.
Import StrFacts FSFacts.



Hypothesis Hcfg : config_ok cfg = true.


End LostBucket.

(* ================================================================= *)
(** ** The configuration read from the environment *)

Section Configuration.

Import StrFacts.

Example strftime_pads : strftime (mkDatetime 2024 1 31 9 5) = "2024-01-31-09-05".
Proof. reflexivity. Qed.

Example getenv_first_binding :
  getenv [("OUTPUT_FOLDER", "out"); ("OUTPUT_FOLDER", "other")]
    "OUTPUT_FOLDER" "./output" = "out".
Proof. reflexivity. Qed.

Lemma getenv_unset (env : list (string * string)) (key default : string) :
  unset env key = true -> getenv env key default = default.
Proof.
  unfold unset. induction env as [|[k x] env IH]; [reflexivity|].
  cbn [existsb getenv fst]. destruct (k =? key); [discriminate | exact IH].
Qed.

Lemma digits_have_no_slash (d : Decimal.uint) :
  has_slash (NilEmpty.string_of_uint d) = false.
Proof. induction d; cbn; auto. Qed.

Lemma two_digits_have_no_slash (n : nat) : has_slash (two_digits n) = false.
Proof.
  unfold two_digits, decimal. destruct (n <? 10)%nat.
  - rewrite has_slash_app, digits_have_no_slash. reflexivity.
  - apply digits_have_no_slash.
Qed.

Lemma strftime_has_no_slash (now : datetime) : has_slash (strftime now) = false.
Proof.
  unfold strftime, decimal.
  rewrite !has_slash_app, !two_digits_have_no_slash, digits_have_no_slash.
  reflexivity.
Qed.

(** X17: the timestamp never holds a path separator, whatever the clock
    says; and when the environment sets none of the three directories, the
    configuration the module loads is well formed ([config_ok]: the defaults
    are three distinct directories, none inside another), the consolidated
    transcript is [./intermediate_transcripts/total_transcript.md] and the
    two documents are named after the timestamp inside [./output]. *)
Theorem X17_default_configuration_is_well_formed
    (env : list (string * string)) (now : datetime) :
  has_slash (datetime_prefix (load_config env now)) = false /\
  (unset env "INCOMING_BUCKET" = true ->
   unset env "INTERMEDIATE_TRANSCRIPTS" = true ->
   unset env "OUTPUT_FOLDER" = true ->
   let cfg := load_config env now in
   config_ok cfg = true /\
   consolidated_transcript_file cfg =
     "./intermediate_transcripts/total_transcript.md" /\
   transcript_file cfg = "./output/" ++ strftime now ++ "-transcripts.md" /\
   summary_action_file cfg = "./output/" ++ strftime now ++ "-summary_action.md").
Proof.
  split; [apply strftime_has_no_slash|].
  intros Ui Ut Uo. cbn zeta.
  unfold config_ok, consolidated_transcript_file, transcript_file,
    summary_action_file, load_config.
  cbn [incoming_bucket intermediate_transcripts output_folder datetime_prefix].
  rewrite (getenv_unset _ _ _ Ui), (getenv_unset _ _ _ Ut), (getenv_unset _ _ _ Uo).
  rewrite strftime_has_no_slash.
  split; [reflexivity|]. split; [reflexivity|].
  split; (rewrite join_relative;
          [reflexivity | rewrite has_slash_app, strftime_has_no_slash; reflexivity]).
Qed.

End Configuration.

(* ================================================================= *)
(** ** What a task touches, and a run that is taken up again *)

Section Retry.

Variable cfg : config.
Variable svc : services.
Import StrFacts FSFacts.

(** X19: when the Summarizer fails, [main] raises [SummaryError] and the
    consolidated transcript stays in the cache directory, so a later run,
    whatever its pool does, takes its text from there without submitting a
    task: the text the failed run found, or the text it wrote with its line
    ends translated (the same text when it holds no carriage return). *)
Theorem X19_failed_summary_is_resumed_from_the_transcript
    (sched sched' : schedule) (w v : world) (c : string) :
  combined_transcription cfg svc sched w = (Ok c, v) ->
  completion_service svc (trace v ++ [EvSummarize c]) (prompt_of c) = None ->
  let u := snd (main cfg svc sched w) in
  let held := consolidated_text cfg w c in
  fst (main cfg svc sched w) = Raise SummaryError /\
  disk u = disk v /\
  FS.lookup (consolidated_transcript_file cfg) (disk u) = Some (File held) /\
  combined_transcription cfg svc sched' u = (Ok held, u) /\
  (has_cr c = false -> held = c).
Proof.
  intros Hc Hn.
  assert (M : main cfg svc sched w =
              (Raise SummaryError, mkWorld (disk v) (trace v ++ [EvSummarize c]))).
  { unfold main. unfold bind at 1. rewrite Hc.
    unfold bind, generate_summary_and_action, bind, emit. cbn [disk trace].
    rewrite Hn. reflexivity. }
  rewrite M. cbn [fst snd disk].
  pose proof (combined_transcription_ok cfg svc sched w v c Hc) as L.
  split; [reflexivity|]. split; [reflexivity|]. split; [exact L|]. split.
  - unfold combined_transcription. unfold bind at 1. unfold path_exists.
    cbn [disk]. rewrite L. unfold read_text. cbn [disk]. rewrite L. reflexivity.
  - intros Nc. unfold consolidated_text.
    destruct (FS.lookup (consolidated_transcript_file cfg) (disk w));
      [reflexivity | apply universal_newlines_id; exact Nc].
Qed.

(** X20: the task of an [.m4a] file changes nothing but the normalized
    audio and the cache entry named after it: every other path, the input
    recording among them, holds what it held, and no directory appears or
    disappears. *)
Theorem X20_task_touches_its_own_two_files (file_path : string) (w : world) :
  endswith file_path ".m4a" = true ->
  let w' := snd (process_file cfg svc file_path w) in
  (forall p, p <> to_wav file_path ->
             p <> transcript_path cfg (to_wav file_path) ->
             FS.lookup p (disk w') = FS.lookup p (disk w)) /\
  FS.lookup file_path (disk w') = FS.lookup file_path (disk w) /\
  same_dirs (disk w) (disk w').
Proof.
  intros M w'. subst w'.
  destruct (process_file cfg svc file_path w) as [r w'] eqn:H. cbn [snd].
  pose proof (process_file_step cfg svc file_path w w' r M H) as S.
  assert (Fr : forall p, p <> to_wav file_path ->
                         p <> transcript_path cfg (to_wav file_path) ->
                         FS.lookup p (disk w') = FS.lookup p (disk w)).
  { intros p N1 N2. apply (step_frame _ _ _ _ S).
    - intros [g [[<-|[]] E]]. exact (N1 E).
    - intros [g [[<-|[]] E]]. exact (N2 E). }
  split; [exact Fr|]. split; [|exact (step_dirs _ _ _ _ S)].
  apply Fr.
  - apply not_eq_sym, to_wav_differs. exact M.
  - intros E. pose proof (transcript_path_txt cfg (to_wav file_path)) as T.
    rewrite <- E in T. apply endswith_txt_not_m4a in T. congruence.
Qed.

End Retry.

(* ================================================================= *)
(** ** The theorems at concrete runs *)

Lemma C2_cached_file_is_only_read_witness :
  FS.lookup (transcript_path default_config "./incoming_audio/a.m4a")
    (disk demo_cached) = Some (File "cached text") /\
  process_file default_config demo_services "./incoming_audio/a.m4a" demo_cached =
    (Ok "cached text", demo_cached).
Proof.
  split; [reflexivity|].
  apply (C2_cached_file_is_only_read default_config demo_services). reflexivity.
Defined.

Lemma C4_existing_artifact_is_reused_witness :
  FS.lookup (consolidated_transcript_file default_config) (disk demo_resumed) =
    Some (File "earlier transcript") /\
  combined_transcription default_config demo_services in_order demo_resumed =
    (Ok "earlier transcript", demo_resumed).
Proof.
  split; [reflexivity|].
  apply (C4_existing_artifact_is_reused default_config demo_services in_order
           "earlier transcript" demo_resumed).
  reflexivity.
Defined.

Lemma C9_empty_transcripts_are_omitted_witness :
  fst (transcribe_all default_config demo_services reversed demo_silence) =
    Ok ("text of wav(hello)" ++ nl ++ nl ++ "text of wav(world)").
Proof.
  apply (C9_empty_transcripts_are_omitted default_config demo_services reversed
           demo_silence ["text of wav(hello)"; ""; "text of wav(world)"]).
  - reflexivity.
  - vm_compute. reflexivity.
Defined.

Lemma C5_nonempty_texts_in_submission_order_witness :
  fst (transcribe_all default_config demo_services reversed demo_fresh) =
    Ok ("text of wav(hello)" ++ nl ++ nl ++ "text of wav(world)").
Proof.
  apply (C5_nonempty_texts_in_submission_order default_config demo_services
           reversed demo_fresh ["text of wav(hello)"; "text of wav(world)"]).
  - reflexivity.
  - vm_compute. reflexivity.
  - intros t [<-|[<-|[]]]; discriminate.
Defined.

Lemma reversed_is_fair : fair reversed.
Proof.
  intros n i H. unfold reversed. apply in_rev. rewrite rev_involutive.
  apply in_seq. lia.
Defined.

Lemma C3_second_run_is_served_from_the_cache_witness :
  fair reversed /\
  exists w2 evs,
    transcribe_all default_config demo_services reversed
      (snd (transcribe_all default_config demo_services in_order demo_fresh)) =
      (Ok ("text of wav(hello)" ++ nl ++ nl ++ "text of wav(world)"), w2) /\
    trace w2 =
      (trace (snd (transcribe_all default_config demo_services in_order demo_fresh))
         ++ evs)%list /\
    forall p, ~ In (EvTranscribe p) evs.
Proof.
  split; [exact reversed_is_fair|].
  destruct (proj1 (proj2 (C3_second_run_is_served_from_the_cache
                            default_config demo_services in_order reversed
                            demo_fresh reversed_is_fair))
              ("text of wav(hello)" ++ nl ++ nl ++ "text of wav(world)")
              (snd (transcribe_all default_config demo_services in_order demo_fresh)))
    as [c2 [w2 [evs [T [Tr [Nt Ec]]]]]].
  - vm_compute. reflexivity.
  - exists w2, evs. split; [|split; [exact Tr | exact Nt]].
    rewrite T. f_equal. f_equal. apply Ec. intros j t Hj.
    assert (Q : futures_of default_config demo_services in_order demo_fresh =
                [Some (Ok "text of wav(hello)"); Some (Ok "text of wav(world)")])
      by (vm_compute; reflexivity).
    rewrite Q in Hj. destruct j as [|[|j]]; cbn in Hj.
    + injection Hj as <-. reflexivity.
    + injection Hj as <-. reflexivity.
    + destruct j; discriminate Hj.
Defined.

Lemma C6_failed_batch_stops_before_the_finalizer_witness :
  FS.lookup (consolidated_transcript_file default_config) (disk demo_noise) = None /\
  FS.lookup (incoming_bucket default_config) (disk demo_noise) = Some Dir /\
  nth_error (futures_of default_config demo_services in_order demo_noise) 1 =
    Some (Some (Raise TranscriptionError)) /\
  exists e' w',
    main default_config demo_services in_order demo_noise = (Raise e', w') /\
    (exists evs,
        trace w' = (trace demo_noise ++ evs)%list /\
        Forall (task_event default_config (submitted default_config demo_noise)) evs) /\
    (forall p node, endswith p ".wav" = false ->
                    FS.lookup p (disk demo_noise) = Some node ->
                    FS.lookup p (disk w') = Some node) /\
    (forall j f text,
        nth_error (submitted default_config demo_noise) j = Some f ->
        nth_error (futures_of default_config demo_services in_order demo_noise) j =
          Some (Some (Ok text)) ->
        (cached_as default_config demo_services f text (disk w') \/
         cached_as default_config demo_services f (universal_newlines text)
           (disk w')) /\
        (has_cr text = false ->
         cached_as default_config demo_services f text (disk w'))).
Proof.
  split; [reflexivity|]. split; [reflexivity|]. split; [vm_compute; reflexivity|].
  apply (C6_failed_batch_stops_before_the_finalizer default_config demo_services
           in_order demo_noise 1 TranscriptionError).
  - reflexivity.
  - reflexivity.
  - vm_compute. reflexivity.
Defined.




(* ================================================================= *)
(** ** Further theorems at concrete runs *)

Lemma X1_transcribe_audio_answers_again_from_its_entry_witness :
  fst (transcribe_audio default_config demo_services "./incoming_audio/a.wav"
         demo_dictated) = Ok ("line one" ++ cr ++ nl ++ "line two") /\
  transcribe_audio default_config demo_services "./incoming_audio/a.wav"
    (snd (transcribe_audio default_config demo_services "./incoming_audio/a.wav"
            demo_dictated)) =
  (Ok ("line one" ++ nl ++ "line two"),
   snd (transcribe_audio default_config demo_services "./incoming_audio/a.wav"
          demo_dictated)).
Proof.
  split; [vm_compute; reflexivity|].
  apply (proj1 (X1_transcribe_audio_answers_again_from_its_entry default_config
                  demo_services "./incoming_audio/a.wav"
                  ("line one" ++ cr ++ nl ++ "line two") demo_dictated
                  (snd (transcribe_audio default_config demo_services
                          "./incoming_audio/a.wav" demo_dictated))
                  ltac:(vm_compute; reflexivity))).
Defined.

Lemma X2_unreadable_input_changes_nothing_witness :
  FS.lookup (transcript_path default_config "./incoming_audio/a.m4a")
    (disk demo_corrupt) = None /\
  process_file default_config demo_services "./incoming_audio/a.m4a" demo_corrupt =
    (Raise DecodeError,
     mkWorld (disk demo_corrupt) [EvConvert "./incoming_audio/a.m4a"]).
Proof.
  split; [reflexivity|].
  apply (proj2 (proj2 (X2_unreadable_input_changes_nothing default_config
                         demo_services "./incoming_audio/a.m4a" demo_corrupt
                         eq_refl)) "corrupt bytes"); reflexivity.
Defined.

Lemma X3_failed_transcription_leaves_the_normalized_audio_witness :
  fst (process_file default_config demo_services "./incoming_audio/b.m4a"
         demo_garbled) = Raise TypeError /\
  FS.lookup "./incoming_audio/b.wav"
    (disk (snd (process_file default_config demo_services
                  "./incoming_audio/b.m4a" demo_garbled))) =
    Some (File "wav(garbled)") /\
  FS.lookup "./intermediate_transcripts/b.wav.txt"
    (disk (snd (process_file default_config demo_services
                  "./incoming_audio/b.m4a" demo_garbled))) =
    Some (File "") /\
  fst (process_file default_config demo_services "./incoming_audio/b.m4a"
         (snd (process_file default_config demo_services
                 "./incoming_audio/b.m4a" demo_garbled))) = Ok "".
Proof.
  destruct (X3_failed_transcription_leaves_the_normalized_audio default_config
              demo_services "./incoming_audio/b.m4a" "wav(garbled)" demo_garbled)
    as [_ G].
  - reflexivity.
  - reflexivity.
  - exists "garbled". split; [reflexivity|]. split; [reflexivity|].
    split; [reflexivity|]. vm_compute. discriminate.
  - reflexivity.
  - destruct (G eq_refl eq_refl) as [P [Lw [Le [v' [evs [P2 _]]]]]].
    rewrite P. cbn [fst snd]. split; [reflexivity|].
    split; [exact Lw|]. split; [exact Le|]. rewrite P2. reflexivity.
Defined.

Lemma X4_the_looked_up_entry_is_never_written_witness :
  endswith (basename "./incoming_audio/a.m4a") ".m4a" = true /\
  FS.lookup (transcript_path default_config "./incoming_audio/a.m4a")
    (disk (snd (process_file default_config demo_services
                  "./incoming_audio/a.m4a" demo_fresh))) =
  FS.lookup (transcript_path default_config "./incoming_audio/a.m4a")
    (disk demo_fresh).
Proof.
  split; [reflexivity|].
  apply (proj2 (X4_the_looked_up_entry_is_never_written default_config
                  demo_services "./incoming_audio/a.m4a" demo_fresh eq_refl)).
Defined.

Lemma X5_tasks_do_not_change_the_enumeration_witness :
  endswith "./incoming_audio/a.m4a" ".m4a" = true /\
  submitted default_config
    (snd (process_file default_config demo_services "./incoming_audio/a.m4a"
            demo_fresh)) =
  submitted default_config demo_fresh.
Proof.
  split; [reflexivity|].
  apply (proj1 (X5_tasks_do_not_change_the_enumeration default_config
                  demo_services "./incoming_audio/a.m4a" demo_fresh eq_refl)).
Defined.

Lemma X8_no_bucket_no_effect_witness :
  FS.lookup (consolidated_transcript_file default_config) (disk demo_no_bucket) =
    None /\
  FS.lookup (incoming_bucket default_config) (disk demo_no_bucket) = None /\
  main default_config demo_services in_order demo_no_bucket =
    (Raise FileNotFoundError, demo_no_bucket).
Proof.
  split; [reflexivity|]. split; [reflexivity|].
  apply (X8_no_bucket_no_effect default_config demo_services in_order
           demo_no_bucket).
  - reflexivity.
  - vm_compute. discriminate.
Defined.

Lemma X9_empty_batch_is_summarized_witness :
  m4a_names (incoming_bucket default_config) (disk demo_no_audio) = [] /\
  transcribe_all default_config demo_services in_order demo_no_audio =
    (Ok "", demo_no_audio).
Proof.
  split; [reflexivity|].
  apply (proj1 (X9_empty_batch_is_summarized default_config demo_services
                  in_order demo_no_audio eq_refl eq_refl)).
Defined.

Lemma X10_what_is_submitted_witness :
  In "./incoming_audio/a.m4a" (submitted default_config demo_fresh) /\
  below (incoming_bucket default_config) "./incoming_audio/old/c.m4a" = true /\
  ~ In "./incoming_audio/old/c.m4a" (submitted default_config demo_fresh).
Proof.
  split; [|split; [reflexivity|]].
  - apply (proj1 (X10_what_is_submitted default_config demo_fresh
                    "./incoming_audio/a.m4a")).
    exists "a.m4a". split; [reflexivity|]. split; [reflexivity|].
    vm_compute. discriminate.
  - apply (proj2 (X10_what_is_submitted default_config demo_fresh
                    "./incoming_audio/old/c.m4a")).
    reflexivity.
Defined.

Lemma X11_first_failure_in_submission_order_witness :
  futures_of default_config demo_services reversed demo_noise =
    [Some (Ok "text of wav(hello)"); Some (Raise TranscriptionError)] /\
  fst (transcribe_all default_config demo_services reversed demo_noise) =
    Raise TranscriptionError.
Proof.
  split; [vm_compute; reflexivity|].
  apply (X11_first_failure_in_submission_order default_config
           demo_services reversed demo_noise ["text of wav(hello)"]
           TranscriptionError [] eq_refl).
  vm_compute. reflexivity.
Defined.

Lemma X13_summary_has_no_surrounding_whitespace_witness :
  fst (generate_summary_and_action demo_services "notes" demo_fresh) =
    Ok "summary" /\
  isspace "s" = false /\ isspace "y" = false.
Proof.
  split; [vm_compute; reflexivity|].
  destruct (X13_summary_has_no_surrounding_whitespace demo_services "notes"
              "summary" demo_fresh
              (snd (generate_summary_and_action demo_services "notes" demo_fresh)))
    as [A [B _]].
  - vm_compute. reflexivity.
  - split.
    + apply (A "s"%char "ummary"). reflexivity.
    + apply (B "summar" "y"%char). reflexivity.
Defined.

Lemma X14_summary_answers_the_transcript_witness :
  config_ok default_config = true /\
  fresh default_config demo_fresh /\
  fst (main default_config demo_services reversed demo_fresh) = Ok tt /\
  FS.lookup (summary_action_file default_config)
    (disk (snd (main default_config demo_services reversed demo_fresh))) =
    Some (File "summary") /\
  exists combined,
    FS.lookup (transcript_file default_config)
      (disk (snd (main default_config demo_services reversed demo_fresh))) =
      Some (File (consolidated_text default_config demo_fresh combined)).
Proof.
  split; [reflexivity|]. split; [split; reflexivity|]. split; [vm_compute; reflexivity|].
  destruct (X14_summary_answers_the_transcript default_config demo_services
              eq_refl reversed demo_fresh
              (snd (main default_config demo_services reversed demo_fresh)))
    as [combined [content [earlier [later [_ [_ [_ [Ec [Lt [_ [_ [Ls _]]]]]]]]]]]].
  - split; reflexivity.
  - vm_compute. reflexivity.
  - unfold demo_services in Ec. cbn [completion_service] in Ec.
    injection Ec as <-. split; [exact Ls|]. exists combined. exact Lt.
Defined.



Lemma X17_default_configuration_is_well_formed_witness :
  unset [("OPENAI_API_KEY", "key")] "INCOMING_BUCKET" = true /\
  config_ok (load_config [("OPENAI_API_KEY", "key")] (mkDatetime 2024 1 31 9 30))
    = true /\
  transcript_file (load_config [("OPENAI_API_KEY", "key")]
                     (mkDatetime 2024 1 31 9 30)) =
    "./output/2024-01-31-09-30-transcripts.md".
Proof.
  split; [reflexivity|].
  destruct (proj2 (X17_default_configuration_is_well_formed
                     [("OPENAI_API_KEY", "key")] (mkDatetime 2024 1 31 9 30))
              eq_refl eq_refl eq_refl) as [A [_ [B _]]].
  split; [exact A | exact B].
Defined.


Lemma X19_failed_summary_is_resumed_from_the_transcript_witness :
  fst (combined_transcription default_config demo_offline in_order demo_dictation) =
    Ok ("line one" ++ cr ++ nl ++ "line two") /\
  fst (main default_config demo_offline in_order demo_dictation) =
    Raise SummaryError /\
  combined_transcription default_config demo_offline reversed
    (snd (main default_config demo_offline in_order demo_dictation)) =
  (Ok ("line one" ++ nl ++ "line two"),
   snd (main default_config demo_offline in_order demo_dictation)).
Proof.
  split; [vm_compute; reflexivity|].
  destruct (X19_failed_summary_is_resumed_from_the_transcript default_config
              demo_offline in_order reversed demo_dictation
              (snd (combined_transcription default_config demo_offline in_order
                      demo_dictation))
              ("line one" ++ cr ++ nl ++ "line two"))
    as [A [_ [_ [B _]]]].
  - vm_compute. reflexivity.
  - reflexivity.
  - split; [exact A | exact B].
Defined.

Lemma X20_task_touches_its_own_two_files_witness :
  endswith "./incoming_audio/a.m4a" ".m4a" = true /\
  FS.lookup "./incoming_audio/a.m4a"
    (disk (snd (process_file default_config demo_services
                  "./incoming_audio/a.m4a" demo_fresh))) =
  FS.lookup "./incoming_audio/a.m4a" (disk demo_fresh).
Proof.
  split; [reflexivity|].
  apply (proj1 (proj2 (X20_task_touches_its_own_two_files default_config
                         demo_services "./incoming_audio/a.m4a" demo_fresh
                         eq_refl))).
Defined.
